(** * The database bootstrap handler, embedded in Rocq

    A shallow embedding of the provisioning lambda of this repository
    ([src/bootstrap_after_pr.ts], with its siblings [src/bootstrap.ts]
    and [src/PT_bootstrap_v2.ts]) and the properties its specification
    states.

    The handler is an [async] function that talks to three collaborators:
    the secret store ([secretClient.send]), the [pg] client
    ([connect], [query], [end]) and the console.  Each collaborator is a
    field of a [Runtime] record over an abstract world state; the handler
    is a computation in a small monad that threads the world, collects
    the trace of every collaborator call in program order and stops at the
    first exception, as [await] does. *)

From Stdlib Require Import String Ascii List ZArith Bool Lia Arith.
From Stdlib Require Import DecimalString.
Import ListNotations.

Local Open Scope list_scope.
Local Open Scope string_scope.

Set Warnings "-register-all".

Set Implicit Arguments.

(** ** JavaScript values *)

(** What [JSON.parse] can return, plus [undefined], which property reads
    produce.  Numbers are the integer-valued ones. *)
Inductive JsValue : Type :=
| JUndefined
| JNull
| JBool (b : bool)
| JNum (n : Z)
| JStr (s : string)
| JArr (items : list JsValue)
| JObj (props : list (string * JsValue)).

(** The exceptions the handlers can meet: the three the language raises
    itself and whatever a collaborator rejects with. *)
Inductive Exn : Type :=
| SyntaxError (msg : string)
| TypeError (msg : string)
| ReferenceError (msg : string)
| Rejected (msg : string).

Inductive Completion (A : Type) : Type :=
| Normal (a : A)
| Throw (e : Exn).

Arguments Normal {A} a.
Arguments Throw {A} e.

(** [Boolean(v)], the test of [if (v)], [!v] and [.filter(Boolean)]. *)
Definition truthy (v : JsValue) : bool :=
  match v with
  | JUndefined | JNull => false
  | JBool b => b
  | JNum n => negb (Z.eqb n 0)
  | JStr s => negb (String.eqb s "")
  | JArr _ | JObj _ => true
  end.

Definition string_of_Z (n : Z) : string :=
  NilZero.string_of_int (Z.to_int n).

(** [`${v}`]: the string a template literal interpolates. *)
Fixpoint toString (v : JsValue) : string :=
  match v with
  | JUndefined => "undefined"
  | JNull => "null"
  | JBool true => "true"
  | JBool false => "false"
  | JNum n => string_of_Z n
  | JStr s => s
  | JArr items =>
      (fix join (l : list JsValue) : string :=
         match l with
         | [] => ""
         | x :: rest =>
             let here := match x with
                         | JUndefined | JNull => ""
                         | _ => toString x
                         end in
             match rest with
             | [] => here
             | _ :: _ => here ++ "," ++ join rest
             end
         end) items
  | JObj _ => "[object Object]"
  end.

Fixpoint assoc (k : string) (props : list (string * JsValue)) : option JsValue :=
  match props with
  | [] => None
  | (k', v) :: rest => if String.eqb k k' then Some v else assoc k rest
  end.

(** [v.k] for the keys the handler reads ([username], [password],
    [exists]), none of which a prototype defines: reading from
    [undefined] or [null] throws, an object answers with its own
    property, every other value with [undefined]. *)
Definition get (v : JsValue) (k : string) : Completion JsValue :=
  match v with
  | JUndefined => Throw (TypeError ("Cannot read properties of undefined (reading '" ++ k ++ "')"))
  | JNull => Throw (TypeError ("Cannot read properties of null (reading '" ++ k ++ "')"))
  | JObj props =>
      Normal match assoc k props with Some x => x | None => JUndefined end
  | _ => Normal JUndefined
  end.

(** ** Strings *)

(** [drop n s]: [s] without its first [n] characters. *)
Fixpoint drop (n : nat) (s : string) : string :=
  match n, s with
  | O, _ => s
  | S _, EmptyString => EmptyString
  | S n', String _ s' => drop n' s'
  end.

(** [s.replace(pat, rep)] with a string pattern: only the first
    occurrence of [pat] is replaced. *)
Fixpoint replace (pat rep s : string) : string :=
  if String.prefix pat s then rep ++ drop (String.length pat) s
  else match s with
       | EmptyString => EmptyString
       | String c s' => String c (replace pat rep s')
       end.

(** [s.includes(pat)]. *)
Fixpoint includes (pat s : string) : bool :=
  if String.prefix pat s then true
  else match s with
       | EmptyString => false
       | String _ s' => includes pat s'
       end.

(** [s.endsWith(pat)]. *)
Fixpoint endsWith (pat s : string) : bool :=
  if String.eqb pat s then true
  else match s with
       | EmptyString => false
       | String _ s' => endsWith pat s'
       end.

(** Whether the character [c] occurs in [s]. *)
Fixpoint has_char (c : ascii) (s : string) : bool :=
  match s with
  | EmptyString => false
  | String c' s' => Ascii.eqb c c' || has_char c s'
  end.

(** [v.replace(pat, rep)] on a value: only strings have the method. *)
Definition call_replace (v : JsValue) (pat rep : string) : Completion string :=
  match v with
  | JStr s => Normal (replace pat rep s)
  | JUndefined => Throw (TypeError "Cannot read properties of undefined (reading 'replace')")
  | JNull => Throw (TypeError "Cannot read properties of null (reading 'replace')")
  | _ => Throw (TypeError "replace is not a function")
  end.

(** [items.join(sep)] for an array whose holes have been filtered out. *)
Fixpoint join (sep : string) (items : list JsValue) : string :=
  match items with
  | [] => ""
  | [x] => toString x
  | x :: rest => toString x ++ sep ++ join sep rest
  end.

(** ** Collaborators and traces *)

(** The [Client] objects the handlers construct, by the variable that
    holds them: two clients built from equal options are still two
    connections. *)
Inductive ClientName : Type :=
| MainConn | ServiceConn | AdminConn | CdcDbConn | CdcConn.

(** The options object passed to [new Client]; [cfg_database] is absent
    for a connection to the default administrative database. *)
Record ClientConfig : Type := {
  cfg_database : option string;
  cfg_user : JsValue;
  cfg_password : JsValue;
  cfg_host : string;
  cfg_port : Z
}.

Record Client : Type := {
  client_name : ClientName;
  client_config : ClientConfig
}.

(** One call on a collaborator, with how it completed. *)
Inductive Event : Type :=
| EvSend (secretId : string) (r : Completion (option string))
| EvConnect (c : Client) (r : Completion unit)
| EvLog (line : string)
| EvQuery (c : Client) (statement : string) (r : Completion (list JsValue))
| EvEnd (c : Client) (r : Completion unit).

(** The collaborators, over a world state [W] they may read and change:
    [secretClient_send id] resolves to the [SecretString] of the
    response (absent when the store returns none) or rejects;
    [client_query] resolves to the [rows] of the result.
    [client_database] is the [database] property [pg] gives the client,
    as the log line prints it, and [JSON_parse] is [JSON.parse]. *)
Record Runtime (W : Type) : Type := {
  secretClient_send : string -> W -> Completion (option string) * W;
  client_connect : Client -> W -> Completion unit * W;
  client_query : Client -> string -> W -> Completion (list JsValue) * W;
  client_end : Client -> W -> Completion unit * W;
  client_database : Client -> string;
  JSON_parse : string -> Completion JsValue
}.

(** The process environment after [cleanEnv]. *)
Record Env : Type := {
  MASTER_USER_SECRET : string;
  APP_USER_SECRET : string;
  CDC_USER_SECRET : option string;
  APP_DATABASE_NAME : option string;
  APP_SCHEMA_NAME : option string;
  RDS_HOST : string
}.

(** The handler's return value, [{ message }]. *)
Record Response : Type := { message : string }.

(** An optional string as a JavaScript value, and as the text a string
    context coerces it to ([JSON.parse(undefined)] parses the text
    [undefined]). *)
Definition js_of (o : option string) : JsValue :=
  match o with Some s => JStr s | None => JUndefined end.

Definition text_of (o : option string) : string := toString (js_of o).

(** ** The monad of the handler *)

Section Monad.

Variable W : Type.

(** A computation runs in a world and yields its completion, the world
    it leaves and the calls it made, oldest first. *)
Definition M (A : Type) : Type := W -> Completion A * W * list Event.

Definition ret {A : Type} (a : A) : M A := fun w => (Normal a, w, []).

Definition lift {A : Type} (c : Completion A) : M A := fun w => (c, w, []).

Definition bind {A B : Type} (m : M A) (f : A -> M B) : M B :=
  fun w =>
    match m w with
    | (Normal a, w1, t1) =>
        match f a w1 with
        | (r, w2, t2) => (r, w2, (t1 ++ t2)%list)
        end
    | (Throw e, w1, t1) => (Throw e, w1, t1)
    end.

(** [try { body } finally { fin }]: [fin] runs however [body] completed;
    the statement completes as [body] did unless [fin] itself throws. *)
Definition try_finally {A : Type} (body : M A) (fin : M unit) : M A :=
  fun w =>
    match body w with
    | (r, w1, t1) =>
        match fin w1 with
        | (Normal _, w2, t2) => (r, w2, (t1 ++ t2)%list)
        | (Throw e, w2, t2) => (Throw e, w2, (t1 ++ t2)%list)
        end
    end.

Definition result {A : Type} (o : Completion A * W * list Event) : Completion A :=
  fst (fst o).

Definition events {A : Type} (o : Completion A * W * list Event) : list Event :=
  snd o.

Definition world {A : Type} (o : Completion A * W * list Event) : W := snd (fst o).

Variable R : Runtime W.

Definition send (secretId : string) : M (option string) :=
  fun w => match secretClient_send R secretId w with
           | (r, w') => (r, w', [EvSend secretId r])
           end.

Definition connect (c : Client) : M unit :=
  fun w => match client_connect R c w with
           | (r, w') => (r, w', [EvConnect c r])
           end.

Definition end_ (c : Client) : M unit :=
  fun w => match client_end R c w with
           | (r, w') => (r, w', [EvEnd c r])
           end.

Definition console_log (line : string) : M unit :=
  fun w => (Normal tt, w, [EvLog line]).

Definition client_query_ (c : Client) (statement : string) : M (list JsValue) :=
  fun w => match client_query R c statement w with
           | (r, w') => (r, w', [EvQuery c statement r])
           end.

(** The line [query] prints: [`[${connection.database}] ${statement}`]. *)
Definition log_line (c : Client) (statement : string) : string :=
  "[" ++ client_database R c ++ "] " ++ statement.

(** [query(connection, statement)]: log the statement, then submit it. *)
Definition query (c : Client) (statement : string) : M (list JsValue) :=
  bind (console_log (log_line c statement))
       (fun _ => client_query_ c statement).

End Monad.

Arguments ret {W A} a.
Arguments lift {W A} c.

Declare Scope js_scope.
Delimit Scope js_scope with js.
Notation "x <- m ;; k" := (bind m (fun x => k))
  (at level 61, m at next level, right associativity) : js_scope.
Notation "m ;; k" := (bind m (fun _ => k))
  (at level 61, right associativity) : js_scope.
Local Open Scope js_scope.

(** [rows: [{ exists: x }]] of a query result: the [exists] property of
    the first row; destructuring a missing or [null] row throws. *)
Definition first_row_exists (rows : list JsValue) : Completion JsValue :=
  get (match rows with [] => JUndefined | row :: _ => row end) "exists".

(** ** The statements *)

Definition select_database_exists (database : string) : string :=
  "SELECT exists(SELECT FROM pg_catalog.pg_database WHERE lower(datname) = lower('"
    ++ database ++ "'))".

Definition create_database (database : string) : string :=
  "CREATE DATABASE " ++ database.

Definition select_role_exists (username : JsValue) : string :=
  "SELECT exists(SELECT FROM pg_roles WHERE rolname='" ++ toString username ++ "')".

Definition create_user (username password : JsValue) : string :=
  "CREATE USER " ++ toString username ++ " WITH ENCRYPTED PASSWORD '"
    ++ toString password ++ "'".

Definition create_schema (schema : JsValue) : string :=
  "CREATE SCHEMA IF NOT EXISTS " ++ toString schema.

Definition create_extension (extension : string) (schema : JsValue) : string :=
  "CREATE EXTENSION IF NOT EXISTS " ++ extension ++ " SCHEMA " ++ toString schema
    ++ " CASCADE".

Definition grant_connect (database : string) (username : JsValue) : string :=
  "GRANT CONNECT ON DATABASE " ++ database ++ " TO " ++ toString username.

Definition grant_create (database : string) (username : JsValue) : string :=
  "GRANT CREATE ON DATABASE " ++ database ++ " TO " ++ toString username.

Definition revoke_public_schema : string :=
  "REVOKE CREATE ON SCHEMA public FROM PUBLIC".

Definition revoke_public_database (database : string) : string :=
  "REVOKE ALL ON DATABASE " ++ database ++ " FROM PUBLIC".

Definition grant_schema (schema username : JsValue) : string :=
  "GRANT USAGE, CREATE ON SCHEMA " ++ toString schema ++ " TO " ++ toString username.

Definition alter_default_privileges (schema username : JsValue) : string :=
  "ALTER DEFAULT PRIVILEGES IN SCHEMA " ++ toString schema
    ++ " GRANT ALL PRIVILEGES ON TABLES TO " ++ toString username.

Definition grant_all (database : string) (username : JsValue) : string :=
  "GRANT ALL PRIVILEGES on DATABASE " ++ database ++ " to " ++ toString username.

Definition alter_owner (database : string) (username : JsValue) : string :=
  "ALTER DATABASE " ++ database ++ " OWNER TO " ++ toString username.

Definition grant_select (schema username : JsValue) : string :=
  "GRANT SELECT ON ALL TABLES IN SCHEMA " ++ toString schema ++ " TO "
    ++ toString username.

Definition grant_replication (username : JsValue) : string :=
  "GRANT rds_replication, rds_superuser TO " ++ toString username.

Definition create_publication : string :=
  "CREATE PUBLICATION IF NOT EXISTS cdc_publication FOR ALL TABLES".

Definition skip_message : string :=
  "CDC_USER_SECRET not set; skipping CDC user/publication setup.".

Definition ready_message (database usrMsg : string) : string :=
  "Database '" ++ database ++ "' for username(s) '" ++ usrMsg
    ++ "' is ready for use!".

(** [new Client({ database, user, password, host, port: 5432 })]. *)
Definition new_Client (name : ClientName) (database : option string)
    (user password : JsValue) (host : string) : Client :=
  {| client_name := name;
     client_config := {| cfg_database := database; cfg_user := user;
                         cfg_password := password; cfg_host := host;
                         cfg_port := 5432 |} |}.

(** [env.APP_DATABASE_NAME ?? serviceSecret.username.replace('_user', '')]:
    the right operand is evaluated only when the variable is undefined. *)
Definition database_name (env : Env) (serviceSecret : JsValue) : Completion string :=
  match APP_DATABASE_NAME env with
  | Some name => Normal name
  | None =>
      match get serviceSecret "username" with
      | Normal u => call_replace u "_user" ""
      | Throw e => Throw e
      end
  end.

(** [env.APP_SCHEMA_NAME ?? serviceSecret.username]. *)
Definition schema_name (env : Env) (serviceSecret : JsValue) : Completion JsValue :=
  match APP_SCHEMA_NAME env with
  | Some name => Normal (JStr name)
  | None => get serviceSecret "username"
  end.

(** [v?.k]. *)
Definition get_optional (v : JsValue) (k : string) : JsValue :=
  match v with
  | JObj props => match assoc k props with Some x => x | None => JUndefined end
  | _ => JUndefined
  end.

(** ** Phases, sessions and scripts *)

(** The handlers are built from one shape, repeated: connect a client,
    run statements on it inside [try], end it in [finally].  The
    definitions below name that shape and the traces it can leave, so
    that the properties of a run are read off the structure of its trace
    instead of being re-derived call by call. *)

(** A statement submitted and how the client answered. *)
Definition Exchange : Type := string * Completion (list JsValue).

(** What a [try] block may do on its connection: the exchanges it makes
    and how it completes. *)
Definition Script : Type := list Exchange -> Completion unit -> Prop.

(** A [try] block that submits [stmts] one after the other. *)
Inductive straight : list string -> Script :=
| straight_done : straight [] [] (Normal tt)
| straight_next s rows stmts qs r :
    straight stmts qs r -> straight (s :: stmts) ((s, Normal rows) :: qs) r
| straight_fail s e stmts : straight (s :: stmts) [(s, Throw e)] (Throw e).

(** The existence check of an entity followed, when the answer is falsy,
    by its creation. *)
Inductive ensure (check create : string) : Script :=
| ensure_check_failed e : ensure check create [(check, Throw e)] (Throw e)
| ensure_no_row rows e :
    first_row_exists rows = Throw e ->
    ensure check create [(check, Normal rows)] (Throw e)
| ensure_present rows v :
    first_row_exists rows = Normal v -> truthy v = true ->
    ensure check create [(check, Normal rows)] (Normal tt)
| ensure_create_failed rows v e :
    first_row_exists rows = Normal v -> truthy v = false ->
    ensure check create [(check, Normal rows); (create, Throw e)] (Throw e)
| ensure_created rows v rows' :
    first_row_exists rows = Normal v -> truthy v = false ->
    ensure check create [(check, Normal rows); (create, Normal rows')] (Normal tt).

(** One script, then, if it completed normally, another. *)
Inductive then_ (S1 S2 : Script) : Script :=
| then_stop qs e : S1 qs (Throw e) -> then_ S1 S2 qs (Throw e)
| then_go qs1 qs2 r :
    S1 qs1 (Normal tt) -> S2 qs2 r -> then_ S1 S2 (qs1 ++ qs2)%list r.

(** A block that throws [e] by itself, without submitting anything. *)
Inductive halt (e : Exn) : Script :=
| halt_now : halt e [] (Throw e).

(** In a script that keeps order a statement that throws is the last one
    submitted, and the block completes with what it threw. *)
Definition orderly (S : Script) : Prop :=
  forall qs r, S qs r ->
  forall pre s e post, qs = (pre ++ (s, Throw e) :: post)%list ->
  post = [] /\ r = Throw e.

(** Every statement a script submits satisfies [P]. *)
Definition every (P : string -> Prop) (S : Script) : Prop :=
  forall qs r, S qs r -> Forall (fun q => P (fst q)) qs.

(** A script submits at most [n] statements that [f] accepts. *)
Definition at_most (f : string -> bool) (n : nat) (S : Script) : Prop :=
  forall qs r, S qs r -> length (filter f (map fst qs)) <= n.

Section Phases.

Variable W : Type.
Variable R : Runtime W.

(** Two computations that behave alike in every world. *)
Definition same {A : Type} (m m' : M W A) : Prop := forall w, m w = m' w.

(** [await connection.connect(); try { body } finally { await connection.end(); }] *)
Definition phase (c : Client) (body : M W unit) : M W unit :=
  connect R c ;; try_finally body (end_ R c).

(** [await query(c, s1); ...; await query(c, sn);] *)
Definition run_all (c : Client) (stmts : list string) : M W unit :=
  fold_right (fun s k => query R c s ;; k) (ret tt) stmts.

(** The check-then-create block the handlers repeat for the database
    and for each role. *)
Definition ensure_body (c : Client) (check create : string) : M W unit :=
  rows <- query R c check ;;
  found <- lift (first_row_exists rows) ;;
  if negb (truthy found) then query R c create ;; ret tt else ret tt.

(** Phases one after the other. *)
Definition run_phases (l : list (Client * M W unit)) : M W unit :=
  fold_right (fun cb k => phase (fst cb) (snd cb) ;; k) (ret tt) l.

(** The events of one [query] call, and of a sequence of them. *)
Definition exchange (c : Client) (q : Exchange) : list Event :=
  [EvLog (log_line R c (fst q)); EvQuery c (fst q) (snd q)].

Definition session (c : Client) (qs : list Exchange) : list Event :=
  flat_map (exchange c) qs.

(** [body] only talks to [c], and does so as [S] says. *)
Definition obeys (c : Client) (body : M W unit) (S : Script) : Prop :=
  forall w, exists qs,
    events (body w) = session c qs /\ S qs (result (body w)).

(** The trace of a phase and its completion: the connection is refused,
    or the block runs and the connection is ended; an [end] that throws
    replaces the block's completion. *)
Inductive in_phase (c : Client) (S : Script) : list Event -> Completion unit -> Prop :=
| phase_refused e : in_phase c S [EvConnect c (Throw e)] (Throw e)
| phase_closed qs r :
    S qs r ->
    in_phase c S (EvConnect c (Normal tt) :: session c qs ++ [EvEnd c (Normal tt)])%list r
| phase_not_closed qs r e :
    S qs r ->
    in_phase c S (EvConnect c (Normal tt) :: session c qs ++ [EvEnd c (Throw e)])%list
             (Throw e).

(** Phases in sequence, stopping at the first that throws. *)
Inductive in_phases : list (Client * Script) -> list Event -> Completion unit -> Prop :=
| phases_done : in_phases [] [] (Normal tt)
| phases_stop c S rest t e :
    in_phase c S t (Throw e) -> in_phases ((c, S) :: rest) t (Throw e)
| phases_go c S rest t t' r :
    in_phase c S t (Normal tt) -> in_phases rest t' r ->
    in_phases ((c, S) :: rest) (t ++ t')%list r.

End Phases.

(** ** Reading a trace *)

(** The statements submitted, in order. *)
Fixpoint statements (t : list Event) : list string :=
  match t with
  | [] => []
  | EvQuery _ s _ :: t' => s :: statements t'
  | _ :: t' => statements t'
  end.

Definition name_eqb (a b : ClientName) : bool :=
  match a, b with
  | MainConn, MainConn | ServiceConn, ServiceConn | AdminConn, AdminConn
  | CdcDbConn, CdcDbConn | CdcConn, CdcConn => true
  | _, _ => false
  end.

(** The statements submitted on the client held by [name]. *)
Fixpoint statements_on (name : ClientName) (t : list Event) : list string :=
  match t with
  | [] => []
  | EvQuery c s _ :: t' =>
      if name_eqb name (client_name c) then s :: statements_on name t'
      else statements_on name t'
  | _ :: t' => statements_on name t'
  end.

(** The lines printed. *)
Fixpoint logged (t : list Event) : list string :=
  match t with
  | [] => []
  | EvLog line :: t' => line :: logged t'
  | _ :: t' => logged t'
  end.

(** The connections open after [t], given those open before it: a
    [connect] that resolved opens one, an [end] that resolved closes
    it. *)
Fixpoint open_after (open : list ClientName) (t : list Event) : list ClientName :=
  match t with
  | [] => open
  | EvConnect c (Normal _) :: t' => open_after (client_name c :: open) t'
  | EvEnd c (Normal _) :: t' =>
      open_after (filter (fun n => negb (name_eqb n (client_name c))) open) t'
  | _ :: t' => open_after open t'
  end.

(** How many times [end] was called on the client held by [name]. *)
Fixpoint ends_of (name : ClientName) (t : list Event) : nat :=
  match t with
  | [] => 0
  | EvEnd c _ :: t' =>
      if name_eqb name (client_name c) then S (ends_of name t') else ends_of name t'
  | _ :: t' => ends_of name t'
  end.

(** Events that neither open nor close a connection. *)
Definition quiet (ev : Event) : Prop :=
  match ev with EvLog _ | EvQuery _ _ _ | EvSend _ _ => True | _ => False end.

(** A trace on which connections follow one another: after any part of
    it at most one is open, and none is when the next one is opened. *)
Definition serial (t : list Event) : Prop :=
  forall pre post, t = (pre ++ post)%list ->
    length (open_after [] pre) <= 1 /\
    (forall c r post', post = EvConnect c r :: post' -> open_after [] pre = []).

(** The connections opened and ended, in order: [(name, true)] for a
    [connect] call, [(name, false)] for an [end] call. *)
Fixpoint lifecycle (t : list Event) : list (ClientName * bool) :=
  match t with
  | [] => []
  | EvConnect c _ :: t' => (client_name c, true) :: lifecycle t'
  | EvEnd c _ :: t' => (client_name c, false) :: lifecycle t'
  | _ :: t' => lifecycle t'
  end.

(** The events of a [query] call. *)
Definition exchange_event (ev : Event) : Prop :=
  match ev with EvLog _ | EvQuery _ _ _ => True | _ => False end.

(** Where an event of a [query] call sits in a run of phases: in the
    session [qs] of a phase [(c, S)] that was entered after the phases
    [ls1] completed; [fin] is how the phase's [end] went, and if the
    phase threw it was the last. *)
Inductive exchange_at {W : Type} (R : Runtime W) (ls : list (Client * Script))
    (r : Completion unit) (pre : list Event) (ev : Event) (post : list Event) : Prop :=
| Exchange_at ls1 c S ls2 t1 qs rb fin pre1 post1 post0 :
    ls = (ls1 ++ (c, S) :: ls2)%list ->
    in_phases R ls1 t1 (Normal tt) ->
    S qs rb ->
    session R c qs = (pre1 ++ ev :: post1)%list ->
    pre = (t1 ++ EvConnect c (Normal tt) :: pre1)%list ->
    post = (post1 ++ EvEnd c fin :: post0)%list ->
    (forall e, match fin with Normal _ => rb | Throw e' => Throw e' end = Throw e ->
               post0 = [] /\ r = Throw e) ->
    (match fin with Normal _ => rb | Throw e' => Throw e' end = Normal tt ->
     in_phases R ls2 post0 r) ->
    exchange_at R ls r pre ev post.

Definition is_send (ev : Event) : Prop :=
  match ev with EvSend _ _ => True | _ => False end.

(** ** [src/bootstrap_after_pr.ts] *)

Module AfterPr.

Section Handler.

Variable W : Type.
Variable R : Runtime W.

(** [handler], statement by statement. *)
Definition handler (env : Env) : M W Response :=
  (* Main credentials *)
  mainRaw <- send R (MASTER_USER_SECRET env) ;;
  mainSecret <- lift (JSON_parse R (text_of mainRaw)) ;;
  (* Service credentials *)
  serviceRaw <- send R (APP_USER_SECRET env) ;;
  serviceSecret <- lift (JSON_parse R (text_of serviceRaw)) ;;
  (* cdc credentials *)
  cdcUserSecret <-
    (if truthy (js_of (CDC_USER_SECRET env)) then
       cdcRaw <- send R (text_of (CDC_USER_SECRET env)) ;;
       if truthy (js_of cdcRaw) then lift (JSON_parse R (text_of cdcRaw))
       else ret JUndefined
     else ret JUndefined) ;;
  username <- lift (get serviceSecret "username") ;;
  password <- lift (get serviceSecret "password") ;;
  database <- lift (database_name env serviceSecret) ;;
  schema <- lift (schema_name env serviceSecret) ;;
  mainUser <- lift (get mainSecret "username") ;;
  mainPassword <- lift (get mainSecret "password") ;;
  let mainConn := new_Client MainConn None mainUser mainPassword (RDS_HOST env) in
  let serviceConn :=
    new_Client ServiceConn (Some database) mainUser mainPassword (RDS_HOST env) in
  connect R mainConn ;;
  try_finally
    (rows <- query R mainConn (select_database_exists database) ;;
     databaseExists <- lift (first_row_exists rows) ;;
     (if negb (truthy databaseExists)
      then query R mainConn (create_database database) ;; ret tt
      else ret tt) ;;
     rows <- query R mainConn (select_role_exists username) ;;
     userExists <- lift (first_row_exists rows) ;;
     (if negb (truthy userExists)
      then query R mainConn (create_user username password) ;; ret tt
      else ret tt))
    (end_ R mainConn) ;;
  connect R serviceConn ;;
  try_finally
    (query R serviceConn (create_extension "pg_trgm" schema) ;;
     query R serviceConn (create_extension "intarray" schema) ;;
     query R serviceConn (grant_connect database username) ;;
     query R serviceConn (grant_create database username) ;;
     query R serviceConn (create_schema schema) ;;
     query R serviceConn revoke_public_schema ;;
     query R serviceConn (revoke_public_database database) ;;
     query R serviceConn (grant_schema schema username) ;;
     query R serviceConn (alter_default_privileges schema username) ;;
     query R serviceConn (grant_all database username) ;;
     query R serviceConn (alter_owner database username) ;;
     ret tt)
    (end_ R serviceConn) ;;
  (* --- CDC user on the cdc existing app database --- *)
  if truthy cdcUserSecret then
    cdcUsername <- lift (get cdcUserSecret "username") ;;
    cdcPassword <- lift (get cdcUserSecret "password") ;;
    let adminConn := new_Client AdminConn None mainUser mainPassword (RDS_HOST env) in
    connect R adminConn ;;
    try_finally
      (rows <- query R adminConn (select_role_exists cdcUsername) ;;
       userExists <- lift (first_row_exists rows) ;;
       (if negb (truthy userExists)
        then query R adminConn (create_user cdcUsername cdcPassword) ;; ret tt
        else ret tt))
      (end_ R adminConn) ;;
    let cdcDbConn :=
      new_Client CdcDbConn (Some database) mainUser mainPassword (RDS_HOST env) in
    connect R cdcDbConn ;;
    try_finally
      (query R cdcDbConn (grant_connect database cdcUsername) ;;
       query R cdcDbConn (grant_select schema cdcUsername) ;;
       query R cdcDbConn (grant_replication cdcUsername) ;;
       query R cdcDbConn create_publication ;;
       ret tt)
      (end_ R cdcDbConn) ;;
    serviceUsername <- lift (get serviceSecret "username") ;;
    let usrMsg :=
      join " & " (filter truthy [serviceUsername; get_optional cdcUserSecret "username"]) in
    ret {| message := ready_message database usrMsg |}
  else
    ret {| message := skip_message |}.

(** The handler in two parts.  What lines 19-75 resolve before any
    connection is made: *)
Record Plan : Type := {
  mainUser : JsValue;
  mainPassword : JsValue;
  username : JsValue;
  password : JsValue;
  database : string;
  schema : JsValue;
  cdcUserSecret : JsValue
}.

Definition mainConn (env : Env) (p : Plan) : Client :=
  new_Client MainConn None (mainUser p) (mainPassword p) (RDS_HOST env).

Definition serviceConn (env : Env) (p : Plan) : Client :=
  new_Client ServiceConn (Some (database p)) (mainUser p) (mainPassword p) (RDS_HOST env).

Definition adminConn (env : Env) (p : Plan) : Client :=
  new_Client AdminConn None (mainUser p) (mainPassword p) (RDS_HOST env).

Definition cdcDbConn (env : Env) (p : Plan) : Client :=
  new_Client CdcDbConn (Some (database p)) (mainUser p) (mainPassword p) (RDS_HOST env).

(** The CDC secret as lines 41-55 leave it: [undefined] unless the
    variable is set and the store returns a non-empty payload, which is
    then parsed. *)
Definition resolve_cdc (env : Env) : M W JsValue :=
  if truthy (js_of (CDC_USER_SECRET env)) then
    cdcRaw <- send R (text_of (CDC_USER_SECRET env)) ;;
    if truthy (js_of cdcRaw) then lift (JSON_parse R (text_of cdcRaw))
    else ret JUndefined
  else ret JUndefined.

Definition resolve (env : Env) : M W Plan :=
  mainRaw <- send R (MASTER_USER_SECRET env) ;;
  mainSecret <- lift (JSON_parse R (text_of mainRaw)) ;;
  serviceRaw <- send R (APP_USER_SECRET env) ;;
  serviceSecret <- lift (JSON_parse R (text_of serviceRaw)) ;;
  cdc <- resolve_cdc env ;;
  user <- lift (get serviceSecret "username") ;;
  pass <- lift (get serviceSecret "password") ;;
  db <- lift (database_name env serviceSecret) ;;
  sch <- lift (schema_name env serviceSecret) ;;
  mUser <- lift (get mainSecret "username") ;;
  mPassword <- lift (get mainSecret "password") ;;
  ret {| mainUser := mUser; mainPassword := mPassword; username := user;
         password := pass; database := db; schema := sch; cdcUserSecret := cdc |}.

(** The statements of the four [try] blocks. *)
Definition service_statements (p : Plan) : list string :=
  [ create_extension "pg_trgm" (schema p);
    create_extension "intarray" (schema p);
    grant_connect (database p) (username p);
    grant_create (database p) (username p);
    create_schema (schema p);
    revoke_public_schema;
    revoke_public_database (database p);
    grant_schema (schema p) (username p);
    alter_default_privileges (schema p) (username p);
    grant_all (database p) (username p);
    alter_owner (database p) (username p) ].

Definition cdcUsername (p : Plan) : JsValue := get_optional (cdcUserSecret p) "username".

Definition cdcPassword (p : Plan) : JsValue := get_optional (cdcUserSecret p) "password".

Definition cdc_statements (p : Plan) : list string :=
  [ grant_connect (database p) (cdcUsername p);
    grant_select (schema p) (cdcUsername p);
    grant_replication (cdcUsername p);
    create_publication ].

Definition usrMsg (p : Plan) : string :=
  join " & " (filter truthy [username p; cdcUsername p]).

(** And the phases that follow, lines 77-217. *)
Definition provision (env : Env) (p : Plan) : M W Response :=
  phase R (mainConn env p)
    (ensure_body R (mainConn env p)
       (select_database_exists (database p)) (create_database (database p)) ;;
     ensure_body R (mainConn env p)
       (select_role_exists (username p)) (create_user (username p) (password p))) ;;
  phase R (serviceConn env p) (run_all R (serviceConn env p) (service_statements p)) ;;
  if truthy (cdcUserSecret p) then
    phase R (adminConn env p)
      (ensure_body R (adminConn env p)
         (select_role_exists (cdcUsername p))
         (create_user (cdcUsername p) (cdcPassword p))) ;;
    phase R (cdcDbConn env p) (run_all R (cdcDbConn env p) (cdc_statements p)) ;;
    ret {| message := ready_message (database p) (usrMsg p) |}
  else
    ret {| message := skip_message |}.

(** The [try] blocks of a run, with the client of each. *)
Definition admin_body (env : Env) (p : Plan) : M W unit :=
  ensure_body R (mainConn env p)
    (select_database_exists (database p)) (create_database (database p)) ;;
  ensure_body R (mainConn env p)
    (select_role_exists (username p)) (create_user (username p) (password p)).

Definition cdc_role_body (env : Env) (p : Plan) : M W unit :=
  ensure_body R (adminConn env p)
    (select_role_exists (cdcUsername p)) (create_user (cdcUsername p) (cdcPassword p)).

Definition bodies (env : Env) (p : Plan) : list (Client * M W unit) :=
  [ (mainConn env p, admin_body env p);
    (serviceConn env p, run_all R (serviceConn env p) (service_statements p)) ]
  ++ (if truthy (cdcUserSecret p)
      then [ (adminConn env p, cdc_role_body env p);
             (cdcDbConn env p, run_all R (cdcDbConn env p) (cdc_statements p)) ]
      else [])%list.

(** The scripts of the phases. *)
Definition admin_script (p : Plan) : Script :=
  then_ (ensure (select_database_exists (database p)) (create_database (database p)))
        (ensure (select_role_exists (username p))
                (create_user (username p) (password p))).

Definition cdc_role_script (p : Plan) : Script :=
  ensure (select_role_exists (cdcUsername p))
         (create_user (cdcUsername p) (cdcPassword p)).

Definition service_phases (env : Env) (p : Plan) : list (Client * Script) :=
  [ (mainConn env p, admin_script p);
    (serviceConn env p, straight (service_statements p)) ].

Definition cdc_phases (env : Env) (p : Plan) : list (Client * Script) :=
  [ (adminConn env p, cdc_role_script p);
    (cdcDbConn env p, straight (cdc_statements p)) ].

(** The phases a run goes through: the CDC pair only when the CDC secret
    is truthy. *)
Definition phases (env : Env) (p : Plan) : list (Client * Script) :=
  (service_phases env p
   ++ (if truthy (cdcUserSecret p) then cdc_phases env p else []))%list.

(** The message of a run whose phases all completed. *)
Definition answer (p : Plan) : Response :=
  if truthy (cdcUserSecret p)
  then {| message := ready_message (database p) (usrMsg p) |}
  else {| message := skip_message |}.

End Handler.

End AfterPr.

(** ** [src/bootstrap.ts] *)

(** The older handler: the CDC secret is required, the CDC role gets a
    database and schema of its own named after it, and the main client
    is connected a second time for the CDC pass. *)
Module Original.

Section Handler.

Variable W : Type.
Variable R : Runtime W.

Definition usernames_message (database : string) (cdcUsername serviceUsername : JsValue)
  : string :=
  "Database '" ++ database ++ "' for usernames '" ++ toString cdcUsername ++ " & "
    ++ toString serviceUsername ++ "' &  is ready for use!".

Definition alter_user_replication (username : JsValue) : string :=
  "ALTER USER " ++ toString username ++ " WITH REPLICATION".

Definition handler (env : Env) : M W Response :=
  (* Main credentials *)
  mainRaw <- send R (MASTER_USER_SECRET env) ;;
  mainSecret <- lift (JSON_parse R (text_of mainRaw)) ;;
  (* Service credentials *)
  serviceRaw <- send R (APP_USER_SECRET env) ;;
  serviceSecret <- lift (JSON_parse R (text_of serviceRaw)) ;;
  (* cdc credentials *)
  cdcRaw <- send R (text_of (CDC_USER_SECRET env)) ;;
  cdcUserSecret <- lift (JSON_parse R (text_of cdcRaw)) ;;
  username <- lift (get serviceSecret "username") ;;
  password <- lift (get serviceSecret "password") ;;
  database <- lift (database_name env serviceSecret) ;;
  schema <- lift (schema_name env serviceSecret) ;;
  mainUser <- lift (get mainSecret "username") ;;
  mainPassword <- lift (get mainSecret "password") ;;
  let mainConn := new_Client MainConn None mainUser mainPassword (RDS_HOST env) in
  let serviceConn :=
    new_Client ServiceConn (Some database) mainUser mainPassword (RDS_HOST env) in
  connect R mainConn ;;
  try_finally
    (rows <- query R mainConn (select_database_exists database) ;;
     databaseExists <- lift (first_row_exists rows) ;;
     (if negb (truthy databaseExists)
      then query R mainConn (create_database database) ;; ret tt
      else ret tt) ;;
     rows <- query R mainConn (select_role_exists username) ;;
     userExists <- lift (first_row_exists rows) ;;
     (if negb (truthy userExists)
      then query R mainConn (create_user username password) ;; ret tt
      else ret tt))
    (end_ R mainConn) ;;
  connect R serviceConn ;;
  try_finally
    (query R serviceConn (create_schema schema) ;;
     query R serviceConn (create_extension "pg_trgm" schema) ;;
     query R serviceConn (create_extension "intarray" schema) ;;
     query R serviceConn (grant_connect database username) ;;
     query R serviceConn (grant_create database username) ;;
     query R serviceConn (create_schema schema) ;;
     query R serviceConn revoke_public_schema ;;
     query R serviceConn (revoke_public_database database) ;;
     query R serviceConn (grant_schema schema username) ;;
     query R serviceConn (alter_default_privileges schema username) ;;
     query R serviceConn (grant_all database username) ;;
     query R serviceConn (alter_owner database username) ;;
     ret tt)
    (end_ R serviceConn) ;;
  cdcUser <- lift (get cdcUserSecret "username") ;;
  cdcPassword <- lift (get cdcUserSecret "password") ;;
  let cdcConn := new_Client CdcConn (Some database) cdcUser cdcPassword (RDS_HOST env) in
  (* ({ username, password } = cdcUserSecret); database and schema are
     assigned anew from the CDC secret *)
  let username := cdcUser in
  let password := cdcPassword in
  database <- lift (database_name env cdcUserSecret) ;;
  schema <- lift (schema_name env cdcUserSecret) ;;
  connect R mainConn ;;
  try_finally
    (rows <- query R mainConn (select_database_exists database) ;;
     databaseExists <- lift (first_row_exists rows) ;;
     (if negb (truthy databaseExists)
      then query R mainConn (create_database database) ;; ret tt
      else ret tt) ;;
     rows <- query R mainConn (select_role_exists username) ;;
     userExists <- lift (first_row_exists rows) ;;
     (if negb (truthy userExists)
      then query R mainConn (create_user username password) ;; ret tt
      else ret tt))
    (end_ R mainConn) ;;
  connect R cdcConn ;;
  try_finally
    (query R cdcConn (create_schema schema) ;;
     query R cdcConn (create_extension "pg_trgm" schema) ;;
     query R cdcConn (create_extension "intarray" schema) ;;
     query R cdcConn (grant_connect database username) ;;
     query R cdcConn (grant_create database username) ;;
     query R cdcConn (create_schema schema) ;;
     query R cdcConn revoke_public_schema ;;
     query R cdcConn (revoke_public_database database) ;;
     query R cdcConn (grant_schema schema username) ;;
     query R cdcConn (alter_default_privileges schema username) ;;
     query R cdcConn (grant_all database username) ;;
     query R cdcConn (alter_owner database username) ;;
     query R cdcConn (alter_user_replication username) ;;
     ret tt)
    (end_ R cdcConn) ;;
  cdcName <- lift (get cdcUserSecret "username") ;;
  serviceName <- lift (get serviceSecret "username") ;;
  ret {| message := usernames_message database cdcName serviceName |}.

(** The handler in parts.  What lines 14-65 resolve: *)
Record Plan : Type := {
  mainUser : JsValue;
  mainPassword : JsValue;
  username : JsValue;
  password : JsValue;
  database : string;
  schema : JsValue;
  cdcUserSecret : JsValue
}.

Definition resolve (env : Env) : M W Plan :=
  mainRaw <- send R (MASTER_USER_SECRET env) ;;
  mainSecret <- lift (JSON_parse R (text_of mainRaw)) ;;
  serviceRaw <- send R (APP_USER_SECRET env) ;;
  serviceSecret <- lift (JSON_parse R (text_of serviceRaw)) ;;
  cdcRaw <- send R (text_of (CDC_USER_SECRET env)) ;;
  cdc <- lift (JSON_parse R (text_of cdcRaw)) ;;
  user <- lift (get serviceSecret "username") ;;
  pass <- lift (get serviceSecret "password") ;;
  db <- lift (database_name env serviceSecret) ;;
  sch <- lift (schema_name env serviceSecret) ;;
  mUser <- lift (get mainSecret "username") ;;
  mPassword <- lift (get mainSecret "password") ;;
  ret {| mainUser := mUser; mainPassword := mPassword; username := user;
         password := pass; database := db; schema := sch; cdcUserSecret := cdc |}.

(** And what lines 135-146 derive from the CDC secret, once the service
    phase is over. *)
Record CdcPlan : Type := {
  cdcUser : JsValue;
  cdcPassword : JsValue;
  cdcDatabase : string;
  cdcSchema : JsValue
}.

Definition resolve_cdc (env : Env) (p : Plan) : M W CdcPlan :=
  user <- lift (get (cdcUserSecret p) "username") ;;
  pass <- lift (get (cdcUserSecret p) "password") ;;
  db <- lift (database_name env (cdcUserSecret p)) ;;
  sch <- lift (schema_name env (cdcUserSecret p)) ;;
  ret {| cdcUser := user; cdcPassword := pass; cdcDatabase := db; cdcSchema := sch |}.

Definition mainConn (env : Env) (p : Plan) : Client :=
  new_Client MainConn None (mainUser p) (mainPassword p) (RDS_HOST env).

Definition serviceConn (env : Env) (p : Plan) : Client :=
  new_Client ServiceConn (Some (database p)) (mainUser p) (mainPassword p) (RDS_HOST env).

Definition cdcConn (env : Env) (p : Plan) (q : CdcPlan) : Client :=
  new_Client CdcConn (Some (database p)) (cdcUser q) (cdcPassword q) (RDS_HOST env).

(** The statements both the service and the CDC connection receive, for
    the role and names of each. *)
Definition role_statements (database : string) (schema username : JsValue) : list string :=
  [ create_schema schema;
    create_extension "pg_trgm" schema;
    create_extension "intarray" schema;
    grant_connect database username;
    grant_create database username;
    create_schema schema;
    revoke_public_schema;
    revoke_public_database database;
    grant_schema schema username;
    alter_default_privileges schema username;
    grant_all database username;
    alter_owner database username ].

Definition admin_body (c : Client) (database : string) (username password : JsValue)
  : M W unit :=
  ensure_body R c (select_database_exists database) (create_database database) ;;
  ensure_body R c (select_role_exists username) (create_user username password).

Definition admin_script (database : string) (username password : JsValue) : Script :=
  then_ (ensure (select_database_exists database) (create_database database))
        (ensure (select_role_exists username) (create_user username password)).

Definition service_bodies (env : Env) (p : Plan) : list (Client * M W unit) :=
  [ (mainConn env p, admin_body (mainConn env p) (database p) (username p) (password p));
    (serviceConn env p,
     run_all R (serviceConn env p) (role_statements (database p) (schema p) (username p))) ].

Definition cdc_bodies (env : Env) (p : Plan) (q : CdcPlan) : list (Client * M W unit) :=
  [ (mainConn env p,
     admin_body (mainConn env p) (cdcDatabase q) (cdcUser q) (cdcPassword q));
    (cdcConn env p q,
     run_all R (cdcConn env p q)
       (role_statements (cdcDatabase q) (cdcSchema q) (cdcUser q)
        ++ [alter_user_replication (cdcUser q)])) ].

Definition service_phases (env : Env) (p : Plan) : list (Client * Script) :=
  [ (mainConn env p, admin_script (database p) (username p) (password p));
    (serviceConn env p, straight (role_statements (database p) (schema p) (username p))) ].

Definition cdc_phases (env : Env) (p : Plan) (q : CdcPlan) : list (Client * Script) :=
  [ (mainConn env p, admin_script (cdcDatabase q) (cdcUser q) (cdcPassword q));
    (cdcConn env p q,
     straight (role_statements (cdcDatabase q) (cdcSchema q) (cdcUser q)
               ++ [alter_user_replication (cdcUser q)])) ].

Definition answer (p : Plan) (q : CdcPlan) : Response :=
  {| message := usernames_message (cdcDatabase q) (cdcUser q) (username p) |}.

Definition staged (env : Env) : M W Response :=
  p <- resolve env ;;
  run_phases R (service_bodies env p) ;;
  q <- resolve_cdc env p ;;
  run_phases R (cdc_bodies env p q) ;;
  ret (answer p q).

End Handler.

End Original.

(** ** What the specification talks about *)

(** The statements that create a database or a role, the checks that
    guard them, and which creation belongs to which check. *)
Definition is_creation (statement : string) : bool :=
  String.prefix "CREATE DATABASE " statement || String.prefix "CREATE USER " statement.

Definition is_check (statement : string) : bool :=
  String.prefix "SELECT exists(" statement.

Definition is_drop (statement : string) : bool :=
  String.prefix "DROP" statement.

(** The check of an entity and the statement that creates it, by their
    texts: the database named [database], the role named [role]. *)
Inductive creation_for : string -> string -> Prop :=
| creates_database database :
    creation_for
      ("SELECT exists(SELECT FROM pg_catalog.pg_database WHERE lower(datname) = lower('"
         ++ database ++ "'))")
      ("CREATE DATABASE " ++ database)
| creates_role role password :
    creation_for
      ("SELECT exists(SELECT FROM pg_roles WHERE rolname='" ++ role ++ "')")
      ("CREATE USER " ++ role ++ " WITH ENCRYPTED PASSWORD '" ++ password ++ "'").

(** The answer to a check, as the specification reads it: whether there
    is a first row to look at (one that is neither [null] nor
    [undefined]), and the [exists] column of that row. *)
Definition has_row (rows : list JsValue) : bool :=
  match rows with
  | [] | JUndefined :: _ | JNull :: _ => false
  | _ :: _ => true
  end.

Definition exists_column (rows : list JsValue) : JsValue :=
  match rows with
  | JObj props :: _ =>
      match assoc "exists" props with Some v => v | None => JUndefined end
  | _ => JUndefined
  end.

(** In a guarded script a creation comes right after the check of the
    same entity, answered with a falsy [exists]; in a prompt one such an
    answer to a check is followed at once by the creation. *)
Definition guarded (S : Script) : Prop :=
  forall qs r, S qs r ->
  forall pre s a post, qs = (pre ++ (s, a) :: post)%list -> is_creation s = true ->
  exists pre' check rows,
    pre = (pre' ++ [(check, Normal rows)])%list /\ creation_for check s /\
    has_row rows = true /\ truthy (exists_column rows) = false.

Definition prompt (S : Script) : Prop :=
  forall qs r, S qs r ->
  forall pre s rows post, qs = (pre ++ (s, Normal rows) :: post)%list ->
  is_check s = true -> has_row rows = true -> truthy (exists_column rows) = false ->
  exists create a post', post = (create, a) :: post' /\ creation_for s create.

(** A call that went well: it did not throw and, if it is an existence
    check, its answer has a first row.  A run is unfailing when every
    call of it went well. *)
Definition went_well (ev : Event) : bool :=
  match ev with
  | EvSend _ (Throw _) | EvConnect _ (Throw _) | EvEnd _ (Throw _)
  | EvQuery _ _ (Throw _) => false
  | EvQuery _ s (Normal rows) => if is_check s then has_row rows else true
  | _ => true
  end.

Definition unfailing (t : list Event) : bool := forallb went_well t.

(** A statement of the CDC kind, by the words the specification picks. *)
Definition mentions_cdc (statement : string) : bool :=
  includes "rds_replication" statement || includes "CREATE PUBLICATION" statement.

(** A configured name that does not itself spell those words. *)
Definition plain (name : string) : bool :=
  negb (includes "rds_replication" name) && negb (includes "PUBLICATION" name).



(** The payload the store returned for the CDC secret, when the variable
    is set and the payload is not empty: the secret is the third one the
    handler of [src/bootstrap_after_pr.ts] fetches. *)
Definition cdc_payload (env : Env) (t : list Event) : option string :=
  if truthy (js_of (CDC_USER_SECRET env)) then
    match nth_error t 2 with
    | Some (EvSend _ (Normal (Some raw))) => if truthy (JStr raw) then Some raw else None
    | _ => None
    end
  else None.

(** Collaborators that never fail: connections open and close, and every
    statement is answered with at least one row. *)
Definition healthy {W : Type} (R : Runtime W) : Prop :=
  (forall c w, fst (client_connect R c w) = Normal tt) /\
  (forall c w, fst (client_end R c w) = Normal tt) /\
  (forall c s w, exists row rest, fst (client_query R c s w) = Normal (JObj row :: rest)).

(** A required secret that cannot be had: the store rejects the fetch of
    the master or of the service secret, or its payload does not parse. *)
Inductive required_secret_fault {W : Type} (R : Runtime W) (env : Env) (w : W)
  : Exn -> Prop :=
| master_missing e w1 :
    secretClient_send R (MASTER_USER_SECRET env) w = (Throw e, w1) ->
    required_secret_fault R env w e
| master_malformed raw w1 e :
    secretClient_send R (MASTER_USER_SECRET env) w = (Normal raw, w1) ->
    JSON_parse R (text_of raw) = Throw e ->
    required_secret_fault R env w e
| service_missing raw w1 mainSecret e w2 :
    secretClient_send R (MASTER_USER_SECRET env) w = (Normal raw, w1) ->
    JSON_parse R (text_of raw) = Normal mainSecret ->
    secretClient_send R (APP_USER_SECRET env) w1 = (Throw e, w2) ->
    required_secret_fault R env w e
| service_malformed raw w1 mainSecret raw' w2 e :
    secretClient_send R (MASTER_USER_SECRET env) w = (Normal raw, w1) ->
    JSON_parse R (text_of raw) = Normal mainSecret ->
    secretClient_send R (APP_USER_SECRET env) w1 = (Normal raw', w2) ->
    JSON_parse R (text_of raw') = Throw e ->
    required_secret_fault R env w e.

(** The default database name as the specification words it: the
    username with a trailing [_user] suffix stripped. *)
Definition strip_trailing (suffix s : string) : string :=
  if endsWith suffix s
  then String.substring 0 (String.length s - String.length suffix) s
  else s.

(** ** A stub runtime *)

(** The collaborators as the test suite stubs them: a secret store that
    is a table, clients whose [connect] and [end] resolve, and a [query]
    that answers from a function of the client and the statement.  The
    main and admin clients report the database [postgres], the others the
    one they were built with. *)
Module Stub.

Definition dq : string := String (ascii_of_nat 34) "".

(** The text [JSON.stringify({ username, password })]. *)
Definition credentials_json (username password : string) : string :=
  "{" ++ dq ++ "username" ++ dq ++ ":" ++ dq ++ username ++ dq ++ ","
      ++ dq ++ "password" ++ dq ++ ":" ++ dq ++ password ++ dq ++ "}".

Definition credentials (username password : string) : JsValue :=
  JObj [("username", JStr username); ("password", JStr password)].

(** [JSON.parse] on the payloads of the test suite: the three
    credential documents, the empty object, and a syntax error for any
    other text. *)
Definition parse (payload : string) : Completion JsValue :=
  if String.eqb payload (credentials_json "admin_user" "admin_password")
  then Normal (credentials "admin_user" "admin_password")
  else if String.eqb payload (credentials_json "myapp_user" "myapp_password")
  then Normal (credentials "myapp_user" "myapp_password")
  else if String.eqb payload (credentials_json "cdc_user" "cdc_password")
  then Normal (credentials "cdc_user" "cdc_password")
  else if String.eqb payload "{}" then Normal (JObj [])
  else Throw (SyntaxError "Unexpected token in JSON").

Definition database_label (c : Client) : string :=
  match cfg_database (client_config c) with
  | Some database => database
  | None => "postgres"
  end.

Definition runtime (secrets : string -> Completion (option string))
    (answer : Client -> string -> Completion (list JsValue)) : Runtime unit :=
  {| secretClient_send := fun secretId w => (secrets secretId, w);
     client_connect := fun _ w => (Normal tt, w);
     client_query := fun c statement w => (answer c statement, w);
     client_end := fun _ w => (Normal tt, w);
     client_database := database_label;
     JSON_parse := parse |}.

(** The secrets of the test suite's [setUp]; [cdc] is the [SecretString]
    stored under [cdc-test]. *)
Definition secrets (cdc : option string) (secretId : string)
  : Completion (option string) :=
  if String.eqb secretId "master-test"
  then Normal (Some (credentials_json "admin_user" "admin_password"))
  else if String.eqb secretId "app-test"
  then Normal (Some (credentials_json "myapp_user" "myapp_password"))
  else if String.eqb secretId "cdc-test" then Normal cdc
  else Throw (Rejected "ResourceNotFoundException").

(** [query: sinon.stub().resolves({ rows: [{}] })]. *)
Definition empty_row (_ : Client) (_ : string) : Completion (list JsValue) :=
  Normal [JObj []].

(** A target that is already provisioned: every [SELECT exists]
    answers [true]. *)
Definition all_exist (_ : Client) (statement : string) : Completion (list JsValue) :=
  if String.prefix "SELECT exists" statement
  then Normal [JObj [("exists", JBool true)]]
  else Normal [JObj []].

(** A [query] that rejects one statement and answers the others with an
    empty row. *)
Definition failing_on (bad : string) (_ : Client) (statement : string)
  : Completion (list JsValue) :=
  if String.eqb statement bad then Throw (Rejected "boom") else Normal [JObj []].

Definition env (cdc : option string) (database schema : option string) : Env :=
  {| MASTER_USER_SECRET := "master-test";
     APP_USER_SECRET := "app-test";
     CDC_USER_SECRET := cdc;
     APP_DATABASE_NAME := database;
     APP_SCHEMA_NAME := schema;
     RDS_HOST := "example" |}.

End Stub.

(** ** [src/PT_bootstrap_v2.ts] *)

(** A third handler, written with a single admin connection: the CDC
    role is to be checked on the main connection, the CDC steps are to
    run only when the CDC secret holds both a [username] and a
    [password], and nothing is returned.  The identifiers [username] and
    [password] that lines 82-152 interpolate are declared nowhere, in
    this file or in the global scope, so evaluating either of them
    throws a [ReferenceError]: the first time at line 82, inside the
    first [try]. *)

(** An identifier that no scope binds. *)
Definition unbound (name : string) : Completion JsValue :=
  Throw (ReferenceError (name ++ " is not defined")).

Module PT.

Section Handler.

Variable W : Type.
Variable R : Runtime W.

Definition handler (env : Env) : M W unit :=
  (* Main credentials *)
  mainRaw <- send R (MASTER_USER_SECRET env) ;;
  mainSecret <- lift (JSON_parse R (text_of mainRaw)) ;;
  (* Service credentials *)
  serviceRaw <- send R (APP_USER_SECRET env) ;;
  serviceSecret <- lift (JSON_parse R (text_of serviceRaw)) ;;
  cdcUserSecret <-
    (if truthy (js_of (CDC_USER_SECRET env)) then
       cdcRaw <- send R (text_of (CDC_USER_SECRET env)) ;;
       if truthy (js_of cdcRaw) then lift (JSON_parse R (text_of cdcRaw))
       else ret JUndefined
     else ret JUndefined) ;;
  database <- lift (database_name env serviceSecret) ;;
  schema <- lift (schema_name env serviceSecret) ;;
  mainUser <- lift (get mainSecret "username") ;;
  mainPassword <- lift (get mainSecret "password") ;;
  let mainConn := new_Client MainConn None mainUser mainPassword (RDS_HOST env) in
  connect R mainConn ;;
  try_finally
    (rows <- query R mainConn (select_database_exists database) ;;
     databaseExists <- lift (first_row_exists rows) ;;
     (if negb (truthy databaseExists)
      then query R mainConn (create_database database) ;; ret tt
      else ret tt) ;;
     (* Validate the service user *)
     username <- lift (unbound "username") ;;
     rows <- query R mainConn (select_role_exists username) ;;
     serviceUserExists <- lift (first_row_exists rows) ;;
     (if negb (truthy serviceUserExists)
      then
        username <- lift (unbound "username") ;;
        password <- lift (unbound "password") ;;
        query R mainConn (create_user username password) ;; ret tt
      else ret tt) ;;
     (* Validate the cdc user *)
     if truthy (get_optional cdcUserSecret "username")
        && truthy (get_optional cdcUserSecret "password")
     then
       cdcUsername <- lift (get cdcUserSecret "username") ;;
       rows <- query R mainConn (select_role_exists cdcUsername) ;;
       cdcUserExists <- lift (first_row_exists rows) ;;
       if negb (truthy cdcUserExists)
       then
         cdcPassword <- lift (get cdcUserSecret "password") ;;
         query R mainConn (create_user cdcUsername cdcPassword) ;; ret tt
       else ret tt
     else ret tt)
    (end_ R mainConn) ;;
  let serviceConn :=
    new_Client ServiceConn (Some database) mainUser mainPassword (RDS_HOST env) in
  connect R serviceConn ;;
  try_finally
    ((* Granting privileges to the service user *)
     query R serviceConn (create_schema schema) ;;
     query R serviceConn (create_extension "pg_trgm" schema) ;;
     query R serviceConn (create_extension "intarray" schema) ;;
     username <- lift (unbound "username") ;;
     query R serviceConn (grant_connect database username) ;;
     username <- lift (unbound "username") ;;
     query R serviceConn (grant_create database username) ;;
     query R serviceConn (create_schema schema) ;;
     query R serviceConn revoke_public_schema ;;
     query R serviceConn (revoke_public_database database) ;;
     username <- lift (unbound "username") ;;
     query R serviceConn (grant_schema schema username) ;;
     username <- lift (unbound "username") ;;
     query R serviceConn (alter_default_privileges schema username) ;;
     username <- lift (unbound "username") ;;
     query R serviceConn (grant_all database username) ;;
     username <- lift (unbound "username") ;;
     query R serviceConn (alter_owner database username) ;;
     ret tt)
    (end_ R serviceConn) ;;
  if truthy (get_optional cdcUserSecret "username")
     && truthy (get_optional cdcUserSecret "password")
  then
    (* Minimal DB-level grants for CDC user on the PG DB *)
    let cdcDbConn :=
      new_Client CdcDbConn (Some database) mainUser mainPassword (RDS_HOST env) in
    connect R cdcDbConn ;;
    try_finally
      (cdcUsername <- lift (get cdcUserSecret "username") ;;
       query R cdcDbConn (grant_connect database cdcUsername) ;;
       query R cdcDbConn (grant_select schema cdcUsername) ;;
       query R cdcDbConn (grant_replication cdcUsername) ;;
       query R cdcDbConn create_publication ;;
       ret tt)
      (end_ R cdcDbConn)
  else ret tt.

(** The handler in two parts.  What lines 18-63 resolve: *)
Record Plan : Type := {
  mainUser : JsValue;
  mainPassword : JsValue;
  database : string;
  schema : JsValue;
  cdcUserSecret : JsValue
}.

Definition resolve (env : Env) : M W Plan :=
  mainRaw <- send R (MASTER_USER_SECRET env) ;;
  mainSecret <- lift (JSON_parse R (text_of mainRaw)) ;;
  serviceRaw <- send R (APP_USER_SECRET env) ;;
  serviceSecret <- lift (JSON_parse R (text_of serviceRaw)) ;;
  cdc <- AfterPr.resolve_cdc R env ;;
  db <- lift (database_name env serviceSecret) ;;
  sch <- lift (schema_name env serviceSecret) ;;
  mUser <- lift (get mainSecret "username") ;;
  mPassword <- lift (get mainSecret "password") ;;
  ret {| mainUser := mUser; mainPassword := mPassword; database := db;
         schema := sch; cdcUserSecret := cdc |}.

Definition mainConn (env : Env) (p : Plan) : Client :=
  new_Client MainConn None (mainUser p) (mainPassword p) (RDS_HOST env).

(** And what a run can reach of lines 65-190: the first [try] block up
    to the first use of [username], on the main connection. *)
Definition admin_body (env : Env) (p : Plan) : M W unit :=
  ensure_body R (mainConn env p)
    (select_database_exists (database p)) (create_database (database p)) ;;
  lift (Throw (ReferenceError "username is not defined")).

Definition admin_script (p : Plan) : Script :=
  then_ (ensure (select_database_exists (database p)) (create_database (database p)))
        (halt (ReferenceError "username is not defined")).

Definition bodies (env : Env) (p : Plan) : list (Client * M W unit) :=
  [ (mainConn env p, admin_body env p) ].

Definition phases (env : Env) (p : Plan) : list (Client * Script) :=
  [ (mainConn env p, admin_script p) ].

Definition staged (env : Env) : M W unit :=
  p <- resolve env ;; run_phases R (bodies env p).

End Handler.

End PT.

(** ** More to read off a trace *)

(** The secrets fetched, in order, by the identifier asked for. *)
Fixpoint fetched (t : list Event) : list string :=
  match t with
  | [] => []
  | EvSend secretId _ :: t' => secretId :: fetched t'
  | _ :: t' => fetched t'
  end.

(** The secrets the handler of [src/bootstrap_after_pr.ts] wants: the
    CDC one only when [CDC_USER_SECRET] is set and not empty. *)
Definition wanted_secrets (env : Env) : list string :=
  MASTER_USER_SECRET env :: APP_USER_SECRET env
  :: match CDC_USER_SECRET env with
     | Some secretId => if String.eqb secretId "" then [] else [secretId]
     | None => []
     end.

(** In a strict script an existence check that is answered without a
    usable first row is the last statement, and the block throws what
    reading the row threw. *)
Definition strict (S : Script) : Prop :=
  forall qs r, S qs r ->
  forall pre s rows e post, qs = (pre ++ (s, Normal rows) :: post)%list ->
  is_check s = true -> first_row_exists rows = Throw e ->
  post = [] /\ r = Throw e.

(** What all the scripts of the handlers have in common. *)
Definition tidy (S : Script) : Prop :=
  orderly S /\ guarded S /\ prompt S /\ strict S /\
  every (fun s => is_drop s = false) S.

(** An exchange that went well, and the scripts that account for their
    failures: the block throws only if a statement of it threw or a
    check of it came back without a first row. *)
Definition answered (q : Exchange) : bool :=
  match snd q with
  | Throw _ => false
  | Normal rows => if is_check (fst q) then has_row rows else true
  end.

Definition accountable (S : Script) : Prop :=
  forall qs r, S qs r -> forallb answered qs = true -> r = Normal tt.

(** Fetching and parsing the secrets [ids] in that order, one of them
    cannot be had: the store rejects the fetch or the payload does not
    parse. *)
Inductive fetch_fault {W : Type} (R : Runtime W) : list string -> W -> Exn -> Prop :=
| fetch_rejected secretId ids w e w1 :
    secretClient_send R secretId w = (Throw e, w1) ->
    fetch_fault R (secretId :: ids) w e
| fetch_malformed secretId ids w raw w1 e :
    secretClient_send R secretId w = (Normal raw, w1) ->
    JSON_parse R (text_of raw) = Throw e ->
    fetch_fault R (secretId :: ids) w e
| fetch_later secretId ids w raw w1 v e :
    secretClient_send R secretId w = (Normal raw, w1) ->
    JSON_parse R (text_of raw) = Normal v ->
    fetch_fault R ids w1 e ->
    fetch_fault R (secretId :: ids) w e.

(** The two required secrets resolve to [mainSecret] and
    [serviceSecret], leaving the world [w2]. *)
Inductive required_secrets {W : Type} (R : Runtime W) (env : Env) (w : W)
    (mainSecret serviceSecret : JsValue) (w2 : W) : Prop :=
| Required_secrets raw w1 raw' :
    secretClient_send R (MASTER_USER_SECRET env) w = (Normal raw, w1) ->
    JSON_parse R (text_of raw) = Normal mainSecret ->
    secretClient_send R (APP_USER_SECRET env) w1 = (Normal raw', w2) ->
    JSON_parse R (text_of raw') = Normal serviceSecret ->
    required_secrets R env w mainSecret serviceSecret w2.

(** ** Stub collaborators that fail *)

Module Faulty.

(** [R], with a [connect] that rejects on the client held by [name]. *)
Definition refusing (name : ClientName) (R : Runtime unit) : Runtime unit :=
  {| secretClient_send := secretClient_send R;
     client_connect := fun c w =>
       if name_eqb name (client_name c) then (Throw (Rejected "ECONNREFUSED"), w)
       else client_connect R c w;
     client_query := client_query R;
     client_end := client_end R;
     client_database := client_database R;
     JSON_parse := JSON_parse R |}.

(** [R], with an [end] that rejects on the client held by [name]. *)
Definition not_ending (name : ClientName) (R : Runtime unit) : Runtime unit :=
  {| secretClient_send := secretClient_send R;
     client_connect := client_connect R;
     client_query := client_query R;
     client_end := fun c w =>
       if name_eqb name (client_name c) then (Throw (Rejected "socket hang up"), w)
       else client_end R c w;
     client_database := client_database R;
     JSON_parse := JSON_parse R |}.

(** [R], with a [JSON.parse] that also knows the text [null]. *)
Definition parsing_null (R : Runtime unit) : Runtime unit :=
  {| secretClient_send := secretClient_send R;
     client_connect := client_connect R;
     client_query := client_query R;
     client_end := client_end R;
     client_database := client_database R;
     JSON_parse := fun payload =>
       if String.eqb payload "null" then Normal JNull else JSON_parse R payload |}.

(** A [query] that resolves with no rows at all. *)
Definition no_rows (_ : Client) (_ : string) : Completion (list JsValue) := Normal [].

(** A server that answers like Postgres: a row with [exists: false] to
    a [SELECT exists], no rows to anything else. *)
Definition no_rows_for_ddl (_ : Client) (statement : string)
  : Completion (list JsValue) :=
  if String.prefix "SELECT exists" statement
  then Normal [JObj [("exists", JBool false)]]
  else Normal [].

(** A secret store that holds [payload] under [app-test] and is
    otherwise [Stub.secrets]. *)
Definition service_payload (payload : string) (cdc : option string) (secretId : string)
  : Completion (option string) :=
  if String.eqb secretId "app-test" then Normal (Some payload)
  else Stub.secrets cdc secretId.

End Faulty.

(** * Proofs *)

(** ** The monad *)

Section MonadFacts.

Variable W : Type.
Variable R : Runtime W.

Lemma same_refl {A : Type} (m : M W A) : same m m.
Proof. intro w. reflexivity. Qed.

Lemma same_sym {A : Type} (m m' : M W A) : same m m' -> same m' m.
Proof. intros H w. symmetry. apply H. Qed.

Lemma same_trans {A : Type} (m1 m2 m3 : M W A) :
  same m1 m2 -> same m2 m3 -> same m1 m3.
Proof. intros H1 H2 w. rewrite H1. apply H2. Qed.

Lemma bind_same {A B : Type} (m m' : M W A) (f g : A -> M W B) :
  same m m' -> (forall a, same (f a) (g a)) -> same (bind m f) (bind m' g).
Proof.
  intros Hm Hf w. unfold bind. rewrite Hm.
  destruct (m' w) as [[[a | e] w1] t1]; [ | reflexivity ].
  rewrite Hf. reflexivity.
Qed.

Lemma bind_assoc {A B C : Type} (m : M W A) (f : A -> M W B) (g : B -> M W C) :
  same (bind (bind m f) g) (bind m (fun x => bind (f x) g)).
Proof.
  intro w. unfold bind.
  destruct (m w) as [[[a | e] w1] t1]; [ | reflexivity ].
  destruct (f a w1) as [[[b | e] w2] t2]; [ | reflexivity ].
  destruct (g b w2) as [[r w3] t3].
  rewrite app_assoc. reflexivity.
Qed.

Lemma bind_ret_l {A B : Type} (a : A) (f : A -> M W B) : same (bind (ret a) f) (f a).
Proof.
  intro w. unfold bind, ret.
  destruct (f a w) as [[r w1] t1]. reflexivity.
Qed.

Lemma try_finally_same {A : Type} (body body' : M W A) (fin : M W unit) :
  same body body' -> same (try_finally body fin) (try_finally body' fin).
Proof. intros H w. unfold try_finally. rewrite H. reflexivity. Qed.

(** How [bind] runs, in terms of the run of its first part. *)
Lemma bind_run {A B : Type} (m : M W A) (f : A -> M W B) (w : W) :
  bind m f w =
  match result (m w) with
  | Normal a =>
      (result (f a (world (m w))), world (f a (world (m w))),
       (events (m w) ++ events (f a (world (m w))))%list)
  | Throw e => (Throw e, world (m w), events (m w))
  end.
Proof.
  unfold bind, result, world, events.
  destruct (m w) as [[[a | e] w1] t1]; simpl; [ | reflexivity ].
  destruct (f a w1) as [[r w2] t2]. reflexivity.
Qed.

Lemma lift_run {A : Type} (c : Completion A) (w : W) : lift c w = (c, w, []).
Proof. reflexivity. Qed.

(** Under a pure step the rest may use what the step returned. *)
Lemma bind_lift_same {A B : Type} (c : Completion A) (f g : A -> M W B) :
  (forall a, c = Normal a -> same (f a) (g a)) ->
  same (bind (lift c) f) (bind (lift c) g).
Proof.
  intros H w. unfold bind, lift.
  destruct c as [a | e]; [ | reflexivity ].
  rewrite (H a eq_refl). reflexivity.
Qed.

Lemma get_truthy (v : JsValue) (k : string) :
  truthy v = true -> get v k = Normal (get_optional v k).
Proof. destruct v; simpl; intros H; try discriminate; reflexivity. Qed.

End MonadFacts.

(** Brings the right-hand side of a [same] goal, a [bind] of a [bind],
    into step with the left-hand one and moves under the first binder. *)
Ltac assoc_step :=
  eapply same_trans; [ | apply same_sym; apply bind_assoc ];
  first [ apply bind_lift_same; intros ? ?
        | apply bind_same; [ apply same_refl | intro ] ].

Section AfterPrStructure.

Variable W : Type.
Variable R : Runtime W.

(** The handler is its two parts in sequence. *)
Lemma handler_resolve_provision (env : Env) :
  same (AfterPr.handler R env)
       (bind (AfterPr.resolve R env) (AfterPr.provision R env)).
Proof.
  unfold AfterPr.handler, AfterPr.resolve.
  do 11 assoc_step.
  eapply same_trans; [ | apply same_sym; apply bind_ret_l ].
  unfold AfterPr.provision, phase.
  assoc_step.
  apply bind_same.
  { apply try_finally_same. unfold ensure_body.
    assoc_step. assoc_step. apply same_refl. }
  intros _. assoc_step.
  apply bind_same; [ apply same_refl | intros _ ].
  cbn [AfterPr.cdcUserSecret].
  match goal with
  | |- context [truthy ?v] => destruct (truthy v) eqn:Hcdc; [ | apply same_refl ];
      rewrite (@get_truthy v "username" Hcdc), (@get_truthy v "password" Hcdc)
  end.
  eapply same_trans; [ apply bind_ret_l | ].
  eapply same_trans; [ apply bind_ret_l | ].
  assoc_step.
  apply bind_same.
  { apply try_finally_same. apply same_refl. }
  intros _. assoc_step.
  apply bind_same; [ apply same_refl | intros _ ].
  match goal with H : get _ "username" = Normal _ |- _ => rewrite H end.
  eapply same_trans; [ apply bind_ret_l | ].
  apply same_refl.
Qed.

End AfterPrStructure.

(** ** Blocks obey their scripts *)

Section PhaseFacts.

Variable W : Type.
Variable R : Runtime W.

Lemma session_app (c : Client) (qs1 qs2 : list Exchange) :
  session R c (qs1 ++ qs2) = (session R c qs1 ++ session R c qs2)%list.
Proof. unfold session. apply flat_map_app. Qed.

Lemma query_run (c : Client) (s : string) (w : W) :
  query R c s w =
  (fst (client_query R c s w), snd (client_query R c s w),
   exchange R c (s, fst (client_query R c s w))).
Proof.
  unfold query, bind, console_log, client_query_, exchange.
  destruct (client_query R c s w) as [r w1]. reflexivity.
Qed.

Lemma obeys_same (c : Client) (body body' : M W unit) (S : Script) :
  same body body' -> obeys R c body' S -> obeys R c body S.
Proof. intros Hs H w. rewrite Hs. apply H. Qed.

Lemma obeys_run_all (c : Client) (stmts : list string) :
  obeys R c (run_all R c stmts) (straight stmts).
Proof.
  induction stmts as [ | s stmts IH ]; intro w.
  - exists []. split; [ reflexivity | constructor ].
  - cbn [run_all fold_right]. fold (run_all R c stmts).
    rewrite bind_run, query_run.
    destruct (client_query R c s w) as [[rows | e] w1]; cbn [result events world fst snd].
    + destruct (IH w1) as (qs & Hev & Hs).
      exists ((s, Normal rows) :: qs). split.
      * rewrite Hev. reflexivity.
      * constructor. exact Hs.
    + exists [(s, Throw e)]. split; [ reflexivity | constructor ].
Qed.

Lemma obeys_ensure (c : Client) (check create : string) :
  obeys R c (ensure_body R c check create) (ensure check create).
Proof.
  intro w. unfold ensure_body.
  rewrite bind_run, query_run.
  destruct (client_query R c check w) as [[rows | e] w1]; cbn [result events world fst snd].
  2:{ exists [(check, Throw e)]. split; [ reflexivity | constructor ]. }
  rewrite bind_run, lift_run. cbn [result events world fst snd].
  destruct (first_row_exists rows) as [v | e] eqn:Hrow.
  2:{ exists [(check, Normal rows)]. split; [ reflexivity | ].
      apply ensure_no_row. exact Hrow. }
  destruct (truthy v) eqn:Hv; cbn [negb].
  { exists [(check, Normal rows)]. split; [ reflexivity | ].
    eapply ensure_present; eassumption. }
  rewrite bind_run, query_run.
  destruct (client_query R c create w1) as [[rows' | e] w2]; cbn [result events world fst snd].
  - exists [(check, Normal rows); (create, Normal rows')]. split; [ reflexivity | ].
    eapply ensure_created; eassumption.
  - exists [(check, Normal rows); (create, Throw e)]. split; [ reflexivity | ].
    eapply ensure_create_failed; eassumption.
Qed.

Lemma obeys_then (c : Client) (m1 m2 : M W unit) (S1 S2 : Script) :
  obeys R c m1 S1 -> obeys R c m2 S2 -> obeys R c (m1 ;; m2) (then_ S1 S2).
Proof.
  intros H1 H2 w. rewrite bind_run.
  destruct (H1 w) as (qs1 & Hev1 & Hs1).
  destruct (result (m1 w)) as [[] | e] eqn:Hr; cbn [result events world fst snd].
  - destruct (H2 (world (m1 w))) as (qs2 & Hev2 & Hs2).
    exists (qs1 ++ qs2)%list. split.
    + rewrite session_app, Hev1, Hev2. reflexivity.
    + apply then_go; assumption.
  - exists qs1. split; [ exact Hev1 | ]. apply then_stop. exact Hs1.
Qed.

(** A phase leaves the trace of a phase. *)
Lemma phase_spec (c : Client) (body : M W unit) (S : Script) :
  obeys R c body S ->
  forall w, in_phase R c S (events (phase R c body w)) (result (phase R c body w)).
Proof.
  intros H w. unfold phase, bind, connect, try_finally, end_.
  destruct (client_connect R c w) as [[[] | e] w1]; cbn [result events fst snd].
  2:{ constructor. }
  destruct (H w1) as (qs & Hev & Hs).
  unfold events, result in Hev, Hs.
  destruct (body w1) as [[r w2] t1]. cbn [fst snd] in Hev, Hs. subst t1.
  destruct (client_end R c w2) as [[[] | e] w3]; cbn [result events fst snd app].
  - apply phase_closed. exact Hs.
  - apply phase_not_closed with (r := r). exact Hs.
Qed.

(** Phases in sequence leave the traces of phases in sequence. *)
Lemma run_phases_spec (l : list (Client * M W unit)) (ls : list (Client * Script)) :
  Forall2 (fun cb cs => fst cb = fst cs /\ obeys R (fst cb) (snd cb) (snd cs)) l ls ->
  forall w, in_phases R ls (events (run_phases R l w)) (result (run_phases R l w)).
Proof.
  induction 1 as [ | [c body] [c' S] l ls [Hc Hb] _ IH ]; intro w.
  - constructor.
  - cbn [fst snd] in Hc, Hb. subst c'.
    cbn [run_phases fold_right fst snd]. fold (run_phases R l).
    rewrite bind_run.
    pose proof (phase_spec Hb w) as Hp.
    destruct (result (phase R c body w)) as [[] | e]; cbn [result events fst snd].
    + apply phases_go; [ exact Hp | apply IH ].
    + apply phases_stop. exact Hp.
Qed.

End PhaseFacts.

(** ** The shape of a run of [src/bootstrap_after_pr.ts] *)

Section AfterPrRun.

Variable W : Type.
Variable R : Runtime W.

Lemma provision_run_phases (env : Env) (p : AfterPr.Plan) :
  same (AfterPr.provision R env p)
       (run_phases R (AfterPr.bodies R env p) ;; ret (AfterPr.answer p)).
Proof.
  unfold AfterPr.provision, AfterPr.bodies, AfterPr.answer.
  destruct (truthy (AfterPr.cdcUserSecret p));
    cbn [run_phases fold_right app fst snd];
    repeat assoc_step;
    (eapply same_trans; [ | apply same_sym; apply bind_ret_l ]); apply same_refl.
Qed.

Lemma bodies_obey (env : Env) (p : AfterPr.Plan) :
  Forall2 (fun cb cs => fst cb = fst cs /\ obeys R (fst cb) (snd cb) (snd cs))
          (AfterPr.bodies R env p) (AfterPr.phases env p).
Proof.
  unfold AfterPr.bodies, AfterPr.phases, AfterPr.service_phases, AfterPr.cdc_phases.
  destruct (truthy (AfterPr.cdcUserSecret p)); cbn [app];
    repeat (constructor; cbn [fst snd]);
    try apply obeys_run_all; try apply obeys_ensure;
    apply obeys_then; apply obeys_ensure.
Qed.

(** Every run: the secrets are resolved; if that throws, so does the
    handler, having done nothing else; otherwise the phases of the plan
    follow, and the handler returns the plan's message if they all
    complete and throws what the failing one threw if not. *)
Lemma handler_run (env : Env) (w : W) :
  match result (AfterPr.resolve R env w) with
  | Throw e =>
      result (AfterPr.handler R env w) = Throw e /\
      events (AfterPr.handler R env w) = events (AfterPr.resolve R env w)
  | Normal p =>
      exists t r,
        in_phases R (AfterPr.phases env p) t r /\
        events (AfterPr.handler R env w) = (events (AfterPr.resolve R env w) ++ t)%list /\
        result (AfterPr.handler R env w) =
          match r with Normal _ => Normal (AfterPr.answer p) | Throw e => Throw e end
  end.
Proof.
  rewrite handler_resolve_provision, bind_run.
  destruct (result (AfterPr.resolve R env w)) as [p | e]; cbn [result events fst snd].
  2:{ split; reflexivity. }
  rewrite provision_run_phases, bind_run.
  pose proof (run_phases_spec (bodies_obey env p) (world (AfterPr.resolve R env w))) as Hp.
  eexists. eexists. split; [ exact Hp | ].
  destruct (result (run_phases R (AfterPr.bodies R env p) (world (AfterPr.resolve R env w))));
    cbn [result events fst snd ret]; rewrite ?app_nil_r; split; reflexivity.
Qed.

End AfterPrRun.

(** ** Secrets *)

Section Secrets.

Variable W : Type.
Variable R : Runtime W.

Lemma bind_Forall {A B : Type} (P : Event -> Prop) (m : M W A) (f : A -> M W B) (w : W) :
  Forall P (events (m w)) ->
  (forall a w', Forall P (events (f a w'))) ->
  Forall P (events (bind m f w)).
Proof.
  intros Hm Hf. rewrite bind_run.
  destruct (result (m w)); cbn [events snd]; [ | exact Hm ].
  apply Forall_app. split; [ exact Hm | apply Hf ].
Qed.

Lemma send_is_send (secretId : string) (w : W) :
  Forall is_send (events (send R secretId w)).
Proof.
  unfold send. destruct (secretClient_send R secretId w).
  repeat constructor.
Qed.

(** Resolving the secrets only talks to the secret store. *)
Lemma resolve_sends (env : Env) (w : W) :
  Forall is_send (events (AfterPr.resolve R env w)).
Proof.
  unfold AfterPr.resolve, AfterPr.resolve_cdc.
  repeat (apply bind_Forall; [ | intros ]);
    try apply send_is_send; try (constructor; fail).
  destruct (truthy (js_of (CDC_USER_SECRET env))); [ | constructor ].
  apply bind_Forall; [ apply send_is_send | intros ].
  match goal with
  | |- context [truthy (js_of ?raw)] => destruct (truthy (js_of raw)); constructor
  end.
Qed.

Lemma resolve_fault (env : Env) (w : W) (e : Exn) :
  required_secret_fault R env w e ->
  result (AfterPr.resolve R env w) = Throw e.
Proof.
  intros H. unfold AfterPr.resolve, bind, send, lift.
  destruct H as [e w1 H1 | raw w1 e H1 H2 | raw w1 v e w2 H1 H2 H3
                | raw w1 v raw' w2 e H1 H2 H3 H4];
    rewrite H1; try rewrite H2; try rewrite H3; try rewrite H4; reflexivity.
Qed.

End Secrets.

(** C5. If the store rejects the fetch of the master or of the service
    secret, or the payload of either does not parse as JSON, the handler
    throws that very error, and by then it has only talked to the secret
    store: no connection was opened, so none is left to close. *)
Theorem required_secret_fault_aborts_before_connect
    (W : Type) (R : Runtime W) (env : Env) (w : W) (e : Exn) :
  required_secret_fault R env w e ->
  result (AfterPr.handler R env w) = Throw e /\
  Forall is_send (events (AfterPr.handler R env w)) /\
  (forall c r, ~ In (EvConnect c r) (events (AfterPr.handler R env w))) /\
  open_after [] (events (AfterPr.handler R env w)) = [].
Proof.
  intros Hf.
  pose proof (handler_run R env w) as Hrun.
  rewrite (resolve_fault Hf) in Hrun. destruct Hrun as [Hres Hev].
  pose proof (resolve_sends R env w) as Hs. rewrite <- Hev in Hs.
  split; [ exact Hres | ]. split; [ exact Hs | ].
  split.
  - intros c r Hin. rewrite Forall_forall in Hs. exact (Hs _ Hin).
  - clear - Hs. induction Hs as [ | ev t Hev _ IH ]; [ reflexivity | ].
    destruct ev; try contradiction. exact IH.
Qed.

Lemma required_secret_fault_aborts_witness :
  let R := Stub.runtime (Stub.secrets None) Stub.empty_row in
  let env := {| MASTER_USER_SECRET := "master-test"; APP_USER_SECRET := "deleted";
                CDC_USER_SECRET := None; APP_DATABASE_NAME := None;
                APP_SCHEMA_NAME := None; RDS_HOST := "example" |} in
  result (AfterPr.handler R env tt) = Throw (Rejected "ResourceNotFoundException") /\
  Forall is_send (events (AfterPr.handler R env tt)) /\
  (forall c r, ~ In (EvConnect c r) (events (AfterPr.handler R env tt))) /\
  open_after [] (events (AfterPr.handler R env tt)) = [].
Proof.
  intros R env.
  apply (@required_secret_fault_aborts_before_connect unit R env tt).
  eapply service_missing; reflexivity.
Defined.

(** ** Default names *)

Lemma includes_cons_false (pat : string) (c : ascii) (s : string) :
  includes pat (String c s) = false ->
  String.prefix pat (String c s) = false /\ includes pat s = false.
Proof.
  cbn [includes]. destruct (String.prefix pat (String c s)); [ discriminate | auto ].
Qed.

(** A username that matched [_user] only once [_user] was appended
    would have to end in a proper, non-empty prefix of [_user] that
    [_user] continues; it has none. *)
Lemma prefix_user_app (s : string) :
  s <> EmptyString ->
  String.prefix "_user" s = false ->
  String.prefix "_user" (s ++ "_user") = false.
Proof.
  intros Hne H.
  destruct s as [ | c0 s ]; [ congruence | clear Hne ].
  cbn [String.prefix append] in H |- *.
  destruct (ascii_dec "_" c0); [ | reflexivity ].
  destruct s as [ | c1 s ]; [ reflexivity | cbn [String.prefix append] in H |- * ].
  destruct (ascii_dec "u" c1); [ | reflexivity ].
  destruct s as [ | c2 s ]; [ reflexivity | cbn [String.prefix append] in H |- * ].
  destruct (ascii_dec "s" c2); [ | reflexivity ].
  destruct s as [ | c3 s ]; [ reflexivity | cbn [String.prefix append] in H |- * ].
  destruct (ascii_dec "e" c3); [ | reflexivity ].
  destruct s as [ | c4 s ]; [ reflexivity | cbn [String.prefix append] in H |- * ].
  destruct (ascii_dec "r" c4); [ destruct s; discriminate | reflexivity ].
Qed.

Lemma replace_trailing_user (base : string) :
  includes "_user" base = false ->
  replace "_user" "" (base ++ "_user") = base.
Proof.
  induction base as [ | c base IH ]; intros H; [ reflexivity | ].
  apply includes_cons_false in H. destruct H as [Hp Hi].
  change (String c base ++ "_user") with (String c (base ++ "_user")).
  cbn [replace].
  change (String c (base ++ "_user")) with (String c base ++ "_user") at 1.
  rewrite (prefix_user_app (s := String c base)); [ | discriminate | exact Hp ].
  rewrite (IH Hi). reflexivity.
Qed.

Lemma endsWith_app (base suffix : string) : endsWith suffix (base ++ suffix) = true.
Proof.
  induction base as [ | c base IH ].
  - destruct suffix; cbn [append endsWith]; rewrite String.eqb_refl; reflexivity.
  - change (String c base ++ suffix) with (String c (base ++ suffix)).
    cbn [endsWith]. rewrite IH.
    destruct (String.eqb suffix (String c (base ++ suffix))); reflexivity.
Qed.

Lemma string_length_app (a b : string) :
  String.length (a ++ b) = String.length a + String.length b.
Proof. induction a as [ | c a IH ]; cbn; [ reflexivity | rewrite IH; reflexivity ]. Qed.

Lemma substring_app_l (a b : string) : String.substring 0 (String.length a) (a ++ b) = a.
Proof.
  induction a as [ | c a IH ]; cbn.
  - destruct b; reflexivity.
  - rewrite IH. reflexivity.
Qed.

Lemma strip_trailing_app (base suffix : string) :
  strip_trailing suffix (base ++ suffix) = base.
Proof.
  unfold strip_trailing. rewrite endsWith_app, string_length_app, Nat.add_sub.
  apply substring_app_l.
Qed.

(** ** Traces of phases *)

Section TraceFacts.

Variable W : Type.
Variable R : Runtime W.

Lemma session_quiet (c : Client) (qs : list Exchange) : Forall quiet (session R c qs).
Proof.
  induction qs as [ | q qs IH ]; [ constructor | ].
  cbn [session flat_map exchange app]. repeat constructor. exact IH.
Qed.

Lemma sends_quiet (t : list Event) : Forall is_send t -> Forall quiet t.
Proof.
  intros H. eapply Forall_impl; [ | exact H ].
  intros [ | | | | ]; simpl; auto.
Qed.

Lemma open_after_app (o : list ClientName) (a b : list Event) :
  open_after o (a ++ b) = open_after (open_after o a) b.
Proof.
  revert o. induction a as [ | ev a IH ]; intro o; [ reflexivity | ].
  destruct ev as [ | c [ | ] | | | c [ | ] ]; cbn [open_after app]; apply IH.
Qed.

Lemma open_after_quiet (o : list ClientName) (t : list Event) :
  Forall quiet t -> open_after o t = o.
Proof.
  induction 1 as [ | ev t Hev _ IH ]; [ reflexivity | ].
  destruct ev; try contradiction; exact IH.
Qed.

Lemma Forall_app_l {A : Type} (P : A -> Prop) (a b : list A) :
  Forall P (a ++ b) -> Forall P a.
Proof. intros H. apply Forall_app in H. tauto. Qed.

Lemma serial_quiet (t : list Event) : Forall quiet t -> serial t.
Proof.
  intros H pre post E. subst t.
  rewrite (open_after_quiet [] (Forall_app_l _ _ H)). split; [ simpl; lia | reflexivity ].
Qed.

Lemma serial_app (a b : list Event) :
  serial a -> open_after [] a = [] -> serial b -> serial (a ++ b).
Proof.
  intros Ha Hclosed Hb pre post E.
  apply app_eq_app in E. destruct E as (l & [[E1 E2] | [E1 E2]]).
  - destruct l as [ | ev l ].
    + rewrite app_nil_r in E1. subst pre. cbn [app] in E2. subst post.
      rewrite Hclosed. split; [ simpl; lia | reflexivity ].
    + destruct (Ha pre (ev :: l) E1) as [Hlen Hconn].
      split; [ exact Hlen | ].
      intros c r post' Ep. subst post. cbn [app] in Ep.
      injection Ep as Eev _. eapply Hconn. rewrite Eev. reflexivity.
  - subst pre. rewrite open_after_app, Hclosed. apply Hb. exact E2.
Qed.

Lemma name_eqb_refl (n : ClientName) : name_eqb n n = true.
Proof. destruct n; reflexivity. Qed.

Lemma phase_closed_after (c : Client) (S : Script) (t : list Event) :
  in_phase R c S t (Normal tt) -> open_after [] t = [].
Proof.
  intros H. inversion H as [ | qs r Hs | ]; subst.
  cbn [open_after]. rewrite open_after_app, (open_after_quiet _ (session_quiet c qs)).
  cbn [open_after filter]. rewrite name_eqb_refl. reflexivity.
Qed.

Lemma serial_phase (c : Client) (S : Script) (t : list Event) (r : Completion unit) :
  in_phase R c S t r -> serial t.
Proof.
  intros H.
  assert (Hshape : exists rc tl, t = EvConnect c rc :: tl /\
                                 forall pre post, tl = (pre ++ post)%list ->
                                   length (open_after [client_name c] pre) <= 1 /\
                                   forall c' r' post', post <> EvConnect c' r' :: post').
  { assert (Hbody : forall qs fin pre post,
               (session R c qs ++ [EvEnd c fin])%list = (pre ++ post)%list ->
               length (open_after [client_name c] pre) <= 1 /\
               forall c' r' post', post <> EvConnect c' r' :: post').
    { intros qs fin pre post E.
      apply app_eq_app in E. destruct E as (l & [[E1 E2] | [E1 E2]]).
      - symmetry in E1. pose proof (session_quiet c qs) as Hq. rewrite <- E1 in Hq.
        rewrite (open_after_quiet _ (Forall_app_l _ _ Hq)). split; [ simpl; lia | ].
        intros c' r' post' Ep. subst post.
        apply Forall_app in Hq. destruct Hq as [_ Hl].
        destruct l as [ | ev l ]; cbn [app] in Ep.
        + discriminate.
        + injection Ep as Eev _. subst ev. inversion Hl as [ | ? ? Hev _ ]. exact Hev.
      - subst pre. rewrite open_after_app, (open_after_quiet _ (session_quiet c qs)).
        destruct l as [ | ev l ].
        + split; [ simpl; lia | ]. cbn [app] in E2. subst post. discriminate.
        + cbn [app] in E2. injection E2 as Eev El.
          destruct l; [ | discriminate ]. destruct post; [ | discriminate ].
          split; [ | discriminate ].
          subst ev. destruct fin; cbn [open_after filter];
            rewrite ?name_eqb_refl; simpl; lia. }
    inversion H as [ e | qs r' Hs | qs r' e Hs ]; subst.
    - exists (Throw e), []. split; [ reflexivity | ].
      intros pre post E. destruct pre; [ | discriminate ]. destruct post; [ | discriminate ].
      split; [ simpl; lia | discriminate ].
    - eexists. eexists. split; [ reflexivity | ]. apply Hbody.
    - eexists. eexists. split; [ reflexivity | ]. apply Hbody. }
  destruct Hshape as (rc & tl & Et & Htl). subst t.
  intros pre post E. destruct pre as [ | ev pre ].
  - split; [ simpl; lia | reflexivity ].
  - cbn [app] in E. injection E as Eev Etl. subst ev.
    destruct (Htl pre post Etl) as [Hlen Hno].
    destruct rc as [ [] | e ]; cbn [open_after].
    + split; [ exact Hlen | ]. intros c' r' post' Ep. destruct (Hno c' r' post' Ep).
    + inversion H; subst.
      destruct pre; [ | discriminate ]. split; [ simpl; lia | ].
      intros c' r' post' Ep. destruct (Hno c' r' post' Ep).
Qed.

Lemma serial_phases (ls : list (Client * Script)) (t : list Event) (r : Completion unit) :
  in_phases R ls t r -> serial t /\ (r = Normal tt -> open_after [] t = []).
Proof.
  induction 1 as [ | c S rest t e Hp | c S rest t t' r Hp Hrest [IHs IHc] ].
  - split; [ apply serial_quiet; constructor | reflexivity ].
  - split; [ eapply serial_phase; exact Hp | discriminate ].
  - split.
    + apply serial_app; [ eapply serial_phase; exact Hp
                        | eapply phase_closed_after; exact Hp | exact IHs ].
    + intros Hr. rewrite open_after_app, (phase_closed_after Hp). auto.
Qed.

End TraceFacts.

(** ** One connection at a time *)

Section Lifecycle.

Variable W : Type.
Variable R : Runtime W.

Lemma lifecycle_app (a b : list Event) :
  lifecycle (a ++ b) = (lifecycle a ++ lifecycle b)%list.
Proof.
  induction a as [ | ev a IH ]; [ reflexivity | ].
  destruct ev; cbn [lifecycle app]; rewrite IH; reflexivity.
Qed.

Lemma lifecycle_quiet (t : list Event) : Forall quiet t -> lifecycle t = [].
Proof.
  induction 1 as [ | ev t Hev _ IH ]; [ reflexivity | ].
  destruct ev; try contradiction; exact IH.
Qed.

Lemma lifecycle_phases (ls : list (Client * Script)) (t : list Event) :
  in_phases R ls t (Normal tt) ->
  lifecycle t =
  flat_map (fun cs => [(client_name (fst cs), true); (client_name (fst cs), false)]) ls.
Proof.
  intros H. remember (Normal tt) as r eqn:Er.
  induction H as [ | c S rest t e Hp | c S rest t t' r Hp Hrest IH ];
    [ reflexivity | discriminate | ].
  rewrite lifecycle_app, (IH Er). cbn [flat_map fst app].
  inversion Hp as [ | qs r' Hs | ]; subst.
  cbn [lifecycle]. rewrite lifecycle_app, (lifecycle_quiet (session_quiet R c qs)).
  reflexivity.
Qed.

(** Every run of the handler is the secrets, then phases. *)
Lemma handler_serial (env : Env) (w : W) : serial (events (AfterPr.handler R env w)).
Proof.
  pose proof (handler_run R env w) as Hrun.
  pose proof (resolve_sends R env w) as Hs. apply sends_quiet in Hs.
  destruct (result (AfterPr.resolve R env w)) as [p | e].
  - destruct Hrun as (t & r & Hp & Hev & _). rewrite Hev.
    apply serial_app; [ apply serial_quiet; exact Hs | apply open_after_quiet; exact Hs | ].
    apply (serial_phases Hp).
  - destruct Hrun as [_ Hev]. rewrite Hev. apply serial_quiet. exact Hs.
Qed.

End Lifecycle.

(** ** The shape of a run of [src/bootstrap.ts] *)

Ltac reassoc := eapply same_trans; [ | apply same_sym; apply bind_assoc ].
Ltac ret_r := eapply same_trans; [ | apply same_sym; apply bind_ret_l ].

Section OriginalRun.

Variable W : Type.
Variable R : Runtime W.

(** The handler is its four phases, with the CDC names derived in
    between. *)
Lemma original_staged (env : Env) : same (Original.handler R env) (Original.staged R env).
Proof.
  unfold Original.handler, Original.staged, Original.resolve.
  do 12 assoc_step.
  ret_r.
  cbn [Original.service_bodies run_phases fold_right fst snd]. unfold phase.
  reassoc. assoc_step.
  apply bind_same.
  { apply try_finally_same. unfold Original.admin_body, ensure_body.
    assoc_step. assoc_step. apply same_refl. }
  intros _. reassoc. assoc_step.
  apply bind_same; [ apply same_refl | intros _ ].
  ret_r.
  unfold Original.resolve_cdc. cbn [Original.cdcUserSecret].
  do 4 assoc_step. ret_r.
  cbn [Original.cdc_bodies run_phases fold_right fst snd]. unfold phase.
  reassoc. assoc_step.
  apply bind_same.
  { apply try_finally_same. unfold Original.admin_body, ensure_body.
    assoc_step. assoc_step. apply same_refl. }
  intros _. reassoc. assoc_step.
  apply bind_same; [ apply same_refl | intros _ ].
  ret_r.
  repeat match goal with
         | H : ?c = Normal _ |- context [lift ?c] => rewrite H
         end.
  eapply same_trans; [ apply bind_ret_l | ].
  eapply same_trans; [ apply bind_ret_l | ].
  apply same_refl.
Qed.

Lemma original_service_obey (env : Env) (p : Original.Plan) :
  Forall2 (fun cb cs => fst cb = fst cs /\ obeys R (fst cb) (snd cb) (snd cs))
          (Original.service_bodies R env p) (Original.service_phases env p).
Proof.
  unfold Original.service_bodies, Original.service_phases.
  repeat (constructor; cbn [fst snd]);
    try apply obeys_run_all; apply obeys_then; apply obeys_ensure.
Qed.

Lemma original_cdc_obey (env : Env) (p : Original.Plan) (q : Original.CdcPlan) :
  Forall2 (fun cb cs => fst cb = fst cs /\ obeys R (fst cb) (snd cb) (snd cs))
          (Original.cdc_bodies R env p q) (Original.cdc_phases env p q).
Proof.
  unfold Original.cdc_bodies, Original.cdc_phases.
  repeat (constructor; cbn [fst snd]);
    try apply obeys_run_all; apply obeys_then; apply obeys_ensure.
Qed.

Lemma original_resolve_sends (env : Env) (w : W) :
  Forall is_send (events (Original.resolve R env w)).
Proof.
  unfold Original.resolve.
  repeat (apply bind_Forall; [ | intros ]);
    try apply send_is_send; constructor.
Qed.

(** Deriving the CDC names touches nothing and depends on nothing but
    the plan. *)
Lemma original_resolve_cdc_run (env : Env) (p : Original.Plan) (w : W) :
  events (@Original.resolve_cdc W env p w) = [] /\
  world (@Original.resolve_cdc W env p w) = w /\
  forall w', result (@Original.resolve_cdc W env p w') = result (@Original.resolve_cdc W env p w).
Proof.
  unfold Original.resolve_cdc, bind, lift, ret.
  destruct (get (Original.cdcUserSecret p) "username"); [ | repeat split ].
  destruct (get (Original.cdcUserSecret p) "password"); [ | repeat split ].
  destruct (database_name env (Original.cdcUserSecret p)); [ | repeat split ].
  destruct (schema_name env (Original.cdcUserSecret p)); repeat split.
Qed.

Lemma in_phases_app (ls1 ls2 : list (Client * Script)) (t1 t2 : list Event)
    (r : Completion unit) :
  in_phases R ls1 t1 (Normal tt) -> in_phases R ls2 t2 r ->
  in_phases R (ls1 ++ ls2) (t1 ++ t2) r.
Proof.
  intros H1 H2. remember (Normal tt) as r1 eqn:Er.
  induction H1 as [ | c S rest t e Hp | c S rest t t' r' Hp Hrest IH ].
  - exact H2.
  - discriminate.
  - rewrite <- app_assoc. cbn [app]. apply phases_go; [ exact Hp | apply IH; exact Er ].
Qed.

(** Every run: the three secrets are fetched; then phases follow, and a
    run that returns has gone through the service phases and the CDC
    phases of its plans. *)
Lemma original_run (env : Env) (w : W) :
  exists sends ls t r,
    events (Original.handler R env w) = (sends ++ t)%list /\
    Forall is_send sends /\
    in_phases R ls t r /\
    (forall response, result (Original.handler R env w) = Normal response ->
       r = Normal tt /\
       exists p q,
         result (Original.resolve R env w) = Normal p /\
         result (@Original.resolve_cdc W env p w) = Normal q /\
         ls = (Original.service_phases env p ++ Original.cdc_phases env p q)%list /\
         response = Original.answer p q).
Proof.
  rewrite original_staged. unfold Original.staged.
  rewrite bind_run.
  pose proof (original_resolve_sends env w) as Hs.
  exists (events (Original.resolve R env w)).
  destruct (result (Original.resolve R env w)) as [p | e]; cbn [result events fst snd].
  2:{ exists [], [], (Normal tt). rewrite app_nil_r.
      split; [ reflexivity | ]. split; [ exact Hs | ].
      split; [ apply phases_done | discriminate ]. }
  set (w1 := world (Original.resolve R env w)).
  rewrite bind_run.
  pose proof (run_phases_spec (original_service_obey env p) w1) as H1.
  destruct (result (run_phases R (Original.service_bodies R env p) w1)) as [ [] | e ];
    cbn [result events fst snd].
  2:{ exists (Original.service_phases env p),
             (events (run_phases R (Original.service_bodies R env p) w1)), (Throw e).
      split; [ reflexivity | ]. split; [ exact Hs | ].
      split; [ exact H1 | discriminate ]. }
  set (w2 := world (run_phases R (Original.service_bodies R env p) w1)).
  rewrite bind_run.
  destruct (original_resolve_cdc_run env p w2) as (Hev & Hw & Hpure).
  rewrite Hev, Hw.
  destruct (result (@Original.resolve_cdc W env p w2)) as [q | e] eqn:Hq;
    cbn [result events fst snd].
  2:{ exists (Original.service_phases env p),
             (events (run_phases R (Original.service_bodies R env p) w1)), (Normal tt).
      rewrite app_nil_r.
      split; [ reflexivity | ]. split; [ exact Hs | ].
      split; [ exact H1 | discriminate ]. }
  rewrite bind_run.
  pose proof (run_phases_spec (original_cdc_obey env p q) w2) as H2.
  exists (Original.service_phases env p ++ Original.cdc_phases env p q)%list.
  destruct (result (run_phases R (Original.cdc_bodies R env p q) w2)) as [ [] | e ];
    cbn [result events fst snd ret]; rewrite ?app_nil_r.
  - eexists. exists (Normal tt). cbn [app].
    split; [ reflexivity | ]. split; [ exact Hs | ].
    split; [ apply in_phases_app; [ exact H1 | exact H2 ] | ].
    intros response Hr. injection Hr as <-. split; [ reflexivity | ].
    exists p, q. split; [ reflexivity | ].
    split; [ rewrite (Hpure w); reflexivity | ]. split; reflexivity.
  - eexists. exists (Throw e).
    split; [ reflexivity | ]. split; [ exact Hs | ].
    split; [ apply in_phases_app; [ exact H1 | exact H2 ] | ].
    discriminate.
Qed.

Lemma original_serial (env : Env) (w : W) : serial (events (Original.handler R env w)).
Proof.
  destruct (original_run env w) as (sends & ls & t & r & Hev & Hs & Hp & _).
  rewrite Hev. apply sends_quiet in Hs.
  apply serial_app; [ apply serial_quiet; exact Hs | apply open_after_quiet; exact Hs | ].
  apply (serial_phases Hp).
Qed.

End OriginalRun.

(** C8. In every run of either handler, after any initial part of the
    trace at most one connection is open, and whenever a connection is
    opened every connection opened before it has been ended.  A run of
    [src/bootstrap_after_pr.ts] that returns has opened and ended the
    main connection, then the service one, then, if the CDC phase runs,
    the second admin one and the CDC one; a run of [src/bootstrap.ts]
    that returns the main one, the service one, the main one again and
    the CDC one; each is ended before the next is opened. *)
Theorem connections_never_overlap
    (W : Type) (R : Runtime W) (env : Env) (w : W)
    (run : Completion Response * W * list Event) (pre post : list Event) :
  run = AfterPr.handler R env w \/ run = Original.handler R env w ->
  events run = (pre ++ post)%list ->
  length (open_after [] pre) <= 1 /\
  (forall c r post', post = EvConnect c r :: post' -> open_after [] pre = []) /\
  (forall response, result run = Normal response ->
     let service := [(MainConn, true); (MainConn, false);
                     (ServiceConn, true); (ServiceConn, false)] in
     let cdc := [(AdminConn, true); (AdminConn, false);
                 (CdcDbConn, true); (CdcDbConn, false)] in
     let again := [(MainConn, true); (MainConn, false);
                   (CdcConn, true); (CdcConn, false)] in
     (run = AfterPr.handler R env w ->
      lifecycle (events run) = service \/ lifecycle (events run) = (service ++ cdc)%list) /\
     (run = Original.handler R env w ->
      lifecycle (events run) = (service ++ again)%list)).
Proof.
  intros Hrun E.
  assert (Hserial : serial (events run)).
  { destruct Hrun as [-> | ->]; [ apply handler_serial | apply original_serial ]. }
  destruct (Hserial _ _ E) as [Hlen Hconn].
  split; [ exact Hlen | ]. split; [ exact Hconn | ].
  clear Hrun. intros response Hres service cdc again. subst service cdc again. split; intros ->.
  - pose proof (handler_run R env w) as Hrun.
    pose proof (resolve_sends R env w) as Hs. apply sends_quiet in Hs.
    destruct (result (AfterPr.resolve R env w)) as [p | e].
    2:{ destruct Hrun as [Hr _]. rewrite Hr in Hres. discriminate. }
    destruct Hrun as (t & r & Hp & Hev & Hr).
    rewrite Hr in Hres. destruct r as [ [] | e ]; [ | discriminate ].
    rewrite Hev, lifecycle_app, (lifecycle_quiet Hs), (lifecycle_phases Hp).
    unfold AfterPr.phases, AfterPr.service_phases, AfterPr.cdc_phases.
    destruct (truthy (AfterPr.cdcUserSecret p)); [ right | left ]; reflexivity.
  - destruct (original_run R env w) as (sends & ls & t & r & Hev & Hs & Hp & Hret).
    destruct (Hret response Hres) as (-> & p & q & _ & _ & -> & _).
    apply sends_quiet in Hs.
    rewrite Hev, lifecycle_app, (lifecycle_quiet Hs), (lifecycle_phases Hp).
    reflexivity.
Qed.

Lemma connections_never_overlap_witness :
  let R := Stub.runtime (Stub.secrets (Some (Stub.credentials_json "cdc_user" "cdc_password")))
                        Stub.empty_row in
  let env := Stub.env (Some "cdc-test") (Some "app_database") (Some "app_schema") in
  let run := AfterPr.handler R env tt in
  length (open_after [] (firstn 40 (events run))) <= 1 /\
  (forall c r post',
     skipn 40 (events run) = EvConnect c r :: post' ->
     open_after [] (firstn 40 (events run)) = []) /\
  (forall response, result run = Normal response ->
     let service := [(MainConn, true); (MainConn, false);
                     (ServiceConn, true); (ServiceConn, false)] in
     let cdc := [(AdminConn, true); (AdminConn, false);
                 (CdcDbConn, true); (CdcDbConn, false)] in
     let again := [(MainConn, true); (MainConn, false);
                   (CdcConn, true); (CdcConn, false)] in
     (run = AfterPr.handler R env tt ->
      lifecycle (events run) = service \/ lifecycle (events run) = (service ++ cdc)%list) /\
     (run = Original.handler R env tt ->
      lifecycle (events run) = (service ++ again)%list)).
Proof.
  intros R env run.
  apply (@connections_never_overlap unit R env tt run
           (firstn 40 (events run)) (skipn 40 (events run))).
  - left. reflexivity.
  - symmetry. apply firstn_skipn.
Defined.

(** ** Finding a statement in a run *)

Section Locate.

Variable W : Type.
Variable R : Runtime W.

(** An event of a session is the log line or the submission of one of
    its exchanges. *)
Lemma session_locate (c : Client) (qs : list Exchange) (pre : list Event) (ev : Event)
    (post : list Event) :
  session R c qs = (pre ++ ev :: post)%list ->
  exists qs1 q qs2,
    qs = (qs1 ++ q :: qs2)%list /\
    ((ev = EvLog (log_line R c (fst q)) /\ pre = session R c qs1 /\
      post = EvQuery c (fst q) (snd q) :: session R c qs2) \/
     (ev = EvQuery c (fst q) (snd q) /\
      pre = (session R c qs1 ++ [EvLog (log_line R c (fst q))])%list /\
      post = session R c qs2)).
Proof.
  revert pre. induction qs as [ | q qs IH ]; intros pre E.
  - destruct pre; discriminate.
  - cbn [session flat_map exchange app] in E. fold (session R c qs) in E.
    destruct pre as [ | x pre ].
    + cbn [app] in E. injection E as Eev Epost.
      exists [], q, qs. split; [ reflexivity | ]. left. auto.
    + cbn [app] in E. injection E as Ex E.
      destruct pre as [ | y pre ].
      * cbn [app] in E. injection E as Eev Epost.
        exists [], q, qs. split; [ reflexivity | ]. right. subst. auto.
      * cbn [app] in E. injection E as Ey E.
        destruct (IH pre E) as (qs1 & q' & qs2 & Eqs & Hcase).
        exists (q :: qs1), q', qs2. split; [ subst qs; reflexivity | ].
        cbn [session flat_map exchange app]. fold (session R c qs1).
        destruct Hcase as [(Eev & Epre & Epost) | (Eev & Epre & Epost)];
          [ left | right ]; subst; auto.
Qed.

Lemma in_phase_exchange (c : Client) (S : Script) (tp : list Event) (rp : Completion unit)
    (pre : list Event) (ev : Event) (post : list Event) :
  in_phase R c S tp rp ->
  tp = (pre ++ ev :: post)%list ->
  exchange_event ev ->
  exists qs rb fin pre1 post1,
    S qs rb /\
    session R c qs = (pre1 ++ ev :: post1)%list /\
    pre = EvConnect c (Normal tt) :: pre1 /\
    post = (post1 ++ [EvEnd c fin])%list /\
    rp = match fin with Normal _ => rb | Throw e => Throw e end.
Proof.
  intros Hp E Hev. subst tp.
  assert (Hbody : forall qs fin,
             (EvConnect c (Normal tt) :: session R c qs ++ [EvEnd c fin])%list
               = (pre ++ ev :: post)%list ->
             exists pre1 post1,
               session R c qs = (pre1 ++ ev :: post1)%list /\
               pre = EvConnect c (Normal tt) :: pre1 /\
               post = (post1 ++ [EvEnd c fin])%list).
  { intros qs fin E.
    destruct pre as [ | x pre ]; cbn [app] in E.
    { injection E as Eev _. subst ev. contradiction. }
    injection E as Ex E'. subst x.
    apply app_eq_app in E'. destruct E' as (l & [[E1 E2] | [E1 E2]]).
    - destruct l as [ | x l ]; cbn [app] in E2.
      + injection E2 as Eev _. subst ev. contradiction.
      + injection E2 as Ex El. subst x.
        exists pre, l. subst. auto.
    - destruct l as [ | x l ]; cbn [app] in E2.
      + injection E2 as Eev _. subst ev. contradiction.
      + injection E2 as _ El. destruct l; discriminate. }
  inversion Hp as [ e Ht | qs r Hs Ht | qs r e Hs Ht ]; subst rp.
  - destruct pre as [ | x pre ]; cbn [app] in Ht.
    + injection Ht as Eev. subst ev. contradiction.
    + injection Ht as _ Ht. destruct pre; discriminate.
  - destruct (Hbody qs (Normal tt) Ht) as (pre1 & post1 & E1 & E2 & E3).
    exists qs, r, (Normal tt), pre1, post1. auto.
  - destruct (Hbody qs (Throw e) Ht) as (pre1 & post1 & E1 & E2 & E3).
    exists qs, r, (Throw e), pre1, post1. auto.
Qed.

Lemma exchange_at_later (c : Client) (S : Script) (rest : list (Client * Script))
    (t : list Event) (r : Completion unit) (pre : list Event) (ev : Event)
    (post : list Event) :
  in_phase R c S t (Normal tt) ->
  exchange_at R rest r pre ev post ->
  exchange_at R ((c, S) :: rest) r (t ++ pre) ev post.
Proof.
  intros Hp [ls1 c' S' ls2 t1 qs rb fin pre1 post1 post0 Els H1 Hs Es Epre Epost Hthrow Hgo].
  apply Exchange_at with (ls1 := (c, S) :: ls1) (c := c') (S := S') (ls2 := ls2)
                         (t1 := (t ++ t1)%list) (qs := qs) (rb := rb) (fin := fin)
                         (pre1 := pre1) (post1 := post1) (post0 := post0); auto.
  - subst rest. reflexivity.
  - apply phases_go; assumption.
  - subst pre. rewrite app_assoc. reflexivity.
Qed.

(** Every event of a [query] call in a run of phases has its place. *)
Lemma in_phases_exchange (ls : list (Client * Script)) (t : list Event)
    (r : Completion unit) (pre : list Event) (ev : Event) (post : list Event) :
  in_phases R ls t r ->
  t = (pre ++ ev :: post)%list ->
  exchange_event ev ->
  exchange_at R ls r pre ev post.
Proof.
  intros H. revert pre post.
  induction H as [ | c S rest t e Hp | c S rest t t' r Hp Hrest IH ]; intros pre post E Hev.
  - destruct pre; discriminate.
  - edestruct in_phase_exchange
      as (qs & rb & fin & pre1 & post1 & Hs & Es & Epre & Epost & Er);
      [ exact Hp | exact E | exact Hev | ].
    apply Exchange_at with (ls1 := []) (c := c) (S := S) (ls2 := rest) (t1 := [])
                           (qs := qs) (rb := rb) (fin := fin) (pre1 := pre1)
                           (post1 := post1) (post0 := []); auto.
    + constructor.
    + intros e' He'. rewrite <- Er in He'. auto.
    + intros Hn. rewrite <- Er in Hn. discriminate.
  - apply app_eq_app in E. destruct E as (l & [[E1 E2] | [E1 E2]]).
    + destruct l as [ | x l ]; cbn [app] in E2.
      * rewrite app_nil_r in E1. subst pre.
        rewrite <- (app_nil_r t). apply exchange_at_later; [ exact Hp | ].
        apply IH; [ | exact Hev ]. rewrite <- E2. reflexivity.
      * injection E2 as Ex El. subst x.
        edestruct in_phase_exchange
          as (qs & rb & fin & pre1 & post1 & Hs & Es & Epre & Epost & Er);
          [ exact Hp | exact E1 | exact Hev | ].
        apply Exchange_at with (ls1 := []) (c := c) (S := S) (ls2 := rest) (t1 := [])
                               (qs := qs) (rb := rb) (fin := fin) (pre1 := pre1)
                               (post1 := post1) (post0 := t'); auto.
        -- constructor.
        -- subst. rewrite <- app_assoc. reflexivity.
        -- intros e' He'. rewrite <- Er in He'. discriminate.
    + subst pre. apply exchange_at_later; [ exact Hp | ].
      apply IH; assumption.
Qed.

Lemma sends_split (a t pre post : list Event) (ev : Event) :
  Forall is_send a ->
  (a ++ t)%list = (pre ++ ev :: post)%list ->
  ~ is_send ev ->
  exists pre', pre = (a ++ pre')%list /\ t = (pre' ++ ev :: post)%list.
Proof.
  intros Ha E Hev.
  apply app_eq_app in E. destruct E as (l & [[E1 E2] | [E1 E2]]).
  - destruct l as [ | x l ]; cbn [app] in E2.
    + exists []. rewrite app_nil_r in E1. subst. rewrite app_nil_r. auto.
    + injection E2 as Ex _. subst x. rewrite E1 in Ha.
      apply Forall_app in Ha. destruct Ha as [_ Ha].
      inversion Ha; subst. contradiction.
  - exists l. auto.
Qed.

(** The same, for the handler: an event of a [query] call only occurs
    once the secrets are resolved, in one of the phases of the plan. *)
Lemma handler_exchange (env : Env) (w : W) (pre : list Event) (ev : Event)
    (post : list Event) :
  events (AfterPr.handler R env w) = (pre ++ ev :: post)%list ->
  exchange_event ev ->
  exists p r pre',
    result (AfterPr.resolve R env w) = Normal p /\
    pre = (events (AfterPr.resolve R env w) ++ pre')%list /\
    exchange_at R (AfterPr.phases env p) r pre' ev post /\
    result (AfterPr.handler R env w) =
      match r with Normal _ => Normal (AfterPr.answer p) | Throw e => Throw e end.
Proof.
  intros E Hev.
  pose proof (handler_run R env w) as Hrun.
  pose proof (resolve_sends R env w) as Hs.
  destruct (result (AfterPr.resolve R env w)) as [p | e].
  - destruct Hrun as (t & r & Hp & Et & Hr). rewrite Et in E.
    edestruct sends_split as (pre' & Epre & Et'); [ exact Hs | exact E | | ].
    { destruct ev; simpl in Hev |- *; auto. }
    exists p, r, pre'. repeat split; auto.
    eapply in_phases_exchange; eauto.
  - destruct Hrun as [_ Et]. rewrite Et in E. rewrite E in Hs.
    apply Forall_app in Hs. destruct Hs as [_ Hs]. inversion Hs; subst.
    destruct ev; simpl in *; contradiction.
Qed.

End Locate.

(** ** Scripts keep order *)

Lemma orderly_straight (stmts : list string) : orderly (straight stmts).
Proof.
  intros qs r H. induction H as [ | s0 rows stmts qs r H IH | s0 e0 stmts ];
    intros pre s e post E.
  - destruct pre; discriminate.
  - destruct pre as [ | x pre ]; cbn [app] in E.
    + discriminate.
    + injection E as _ E. eapply IH. exact E.
  - destruct pre as [ | x pre ]; cbn [app] in E.
    + injection E as _ Ee Epost. subst. auto.
    + injection E as _ E. destruct pre; discriminate.
Qed.

Lemma orderly_ensure (check create : string) : orderly (ensure check create).
Proof.
  intros qs r H pre s e post E.
  destruct H;
    repeat (destruct pre as [ | ? pre ]; cbn [app] in E; try discriminate);
    injection E as; subst; auto.
Qed.

Lemma orderly_then (S1 S2 : Script) : orderly S1 -> orderly S2 -> orderly (then_ S1 S2).
Proof.
  intros H1 H2 qs r H pre s e post E.
  destruct H as [ qs e0 Hs | qs1 qs2 r Hs1 Hs2 ].
  - eapply H1; eauto.
  - apply app_eq_app in E. destruct E as (l & [[E1 E2] | [E1 E2]]).
    + destruct l as [ | x l ]; cbn [app] in E2.
      * apply (H2 _ _ Hs2 [] s e post). rewrite <- E2. reflexivity.
      * injection E2 as Ex El. subst x.
        destruct (H1 _ _ Hs1 _ _ _ _ E1) as [_ Hr]. discriminate.
    + eapply H2; eauto.
Qed.

Lemma after_pr_phases_orderly (env : Env) (p : AfterPr.Plan) :
  Forall (fun cs => orderly (snd cs)) (AfterPr.phases env p).
Proof.
  unfold AfterPr.phases, AfterPr.service_phases, AfterPr.cdc_phases,
    AfterPr.admin_script, AfterPr.cdc_role_script.
  destruct (truthy (AfterPr.cdcUserSecret p)); cbn [app];
    repeat (apply Forall_cons;
            [ cbn [snd];
              repeat first [ apply orderly_straight | apply orderly_ensure
                           | apply orderly_then ] | ]);
    apply Forall_nil.
Qed.

Lemma after_pr_phases_names (env : Env) (p : AfterPr.Plan) :
  NoDup (map (fun cs => client_name (fst cs)) (AfterPr.phases env p)).
Proof.
  unfold AfterPr.phases, AfterPr.service_phases, AfterPr.cdc_phases.
  destruct (truthy (AfterPr.cdcUserSecret p)); cbn [app map fst client_name
    AfterPr.mainConn AfterPr.serviceConn AfterPr.adminConn AfterPr.cdcDbConn new_Client];
    repeat constructor; simpl; intuition discriminate.
Qed.

Section Ends.

Variable W : Type.
Variable R : Runtime W.

Lemma ends_of_app (n : ClientName) (a b : list Event) :
  ends_of n (a ++ b) = ends_of n a + ends_of n b.
Proof.
  induction a as [ | ev a IH ]; [ reflexivity | ].
  destruct ev; cbn [ends_of app]; try exact IH.
  destruct (name_eqb n (client_name c)); rewrite IH; reflexivity.
Qed.

Lemma ends_of_quiet (n : ClientName) (t : list Event) : Forall quiet t -> ends_of n t = 0.
Proof.
  induction 1 as [ | ev t Hev _ IH ]; [ reflexivity | ].
  destruct ev; try contradiction; exact IH.
Qed.

Lemma name_eqb_eq (a b : ClientName) : name_eqb a b = true -> a = b.
Proof. destruct a, b; simpl; congruence. Qed.

Lemma ends_of_phase (n : ClientName) (c : Client) (S : Script) (t : list Event)
    (r : Completion unit) :
  in_phase R c S t r -> n <> client_name c -> ends_of n t = 0.
Proof.
  intros H Hn.
  assert (Hneq : name_eqb n (client_name c) = false).
  { destruct (name_eqb n (client_name c)) eqn:E; [ | reflexivity ].
    apply name_eqb_eq in E. contradiction. }
  inversion H; subst; cbn [ends_of]; [ reflexivity | | ];
    rewrite ends_of_app, (ends_of_quiet _ (session_quiet R c qs));
    cbn [ends_of]; rewrite Hneq; reflexivity.
Qed.

Lemma ends_of_phases (n : ClientName) (ls : list (Client * Script)) (t : list Event)
    (r : Completion unit) :
  in_phases R ls t r ->
  ~ In n (map (fun cs => client_name (fst cs)) ls) ->
  ends_of n t = 0.
Proof.
  induction 1 as [ | c S rest t e Hp | c S rest t t' r Hp Hrest IH ]; intros Hn.
  - reflexivity.
  - eapply ends_of_phase; [ exact Hp | ]. intros E. apply Hn. left. auto.
  - rewrite ends_of_app, (ends_of_phase (n := n) Hp), IH; [ reflexivity | | ].
    + intros Hin. apply Hn. right. exact Hin.
    + intros E. apply Hn. left. auto.
Qed.

End Ends.

(** C4, as the code has it.  Whenever a statement throws on a
    connection, the only thing the handler still does is call [end] on
    that connection, once: nothing else follows in the trace (no retry,
    no rollback, no other statement), that [end] is the only one that
    connection sees in the whole run, and the handler then throws: the
    statement's error, or the error of [end] if [end] throws too. *)
Theorem end_called_once_after_failed_statement
    (W : Type) (R : Runtime W) (env : Env) (w : W)
    (pre : list Event) (c : Client) (s : string) (e : Exn) (post : list Event) :
  events (AfterPr.handler R env w) = (pre ++ EvQuery c s (Throw e) :: post)%list ->
  (exists fin,
     post = [EvEnd c fin] /\
     result (AfterPr.handler R env w) =
       Throw match fin with Normal _ => e | Throw e' => e' end) /\
  statements post = [] /\
  ends_of (client_name c) (events (AfterPr.handler R env w)) = 1.
Proof.
  intros E.
  destruct (handler_exchange R env w _ _ _ E I)
    as (p & r & pre' & Hres & Epre & Hat & Hr).
  destruct Hat as [ls1 c0 S ls2 t1 qs rb fin pre1 post1 post0 Els H1 Hs Es Epre' Epost Hthrow _].
  destruct (session_locate _ _ _ _ _ _ Es) as (qs1 & q & qs2 & Eqs & Hcase).
  destruct Hcase as [(Eev & _) | (Eev & Epre1 & Epost1)]; [ discriminate | ].
  injection Eev as Ec Eq1 Eq2. subst c0.
  assert (Eq : q = (s, Throw e)) by (destruct q; cbn [fst snd] in *; congruence).
  subst q. clear Eq1 Eq2.
  assert (Hord : orderly S).
  { pose proof (after_pr_phases_orderly env p) as Ho. rewrite Forall_forall in Ho.
    apply (Ho (c, S)). rewrite Els. apply in_elt. }
  destruct (Hord _ _ Hs _ _ _ _ Eqs) as [Eqs2 Erb]. subst qs2 rb.
  assert (Hfin : match fin with Normal _ => Throw e | Throw e' => Throw e' end
                 = Throw match fin with Normal _ => e | Throw e' => e' end :> Completion unit)
    by (destruct fin; reflexivity).
  destruct (Hthrow _ Hfin) as [Epost0 Er]. subst post0 r post1.
  cbn [session flat_map app] in Epost. subst post.
  split; [ exists fin; split; [ reflexivity | exact Hr ] | ].
  split; [ reflexivity | ].
  rewrite E, Epre, Epre', Epre1.
  pose proof (resolve_sends R env w) as Hsends. apply sends_quiet in Hsends.
  assert (Hn : ~ In (client_name c) (map (fun cs => client_name (fst cs)) ls1)).
  { pose proof (after_pr_phases_names env p) as Hnd. rewrite Els, map_app in Hnd.
    cbn [map fst] in Hnd. apply NoDup_remove_2 in Hnd.
    intros Hin. apply Hnd. apply in_or_app. left. exact Hin. }
  rewrite !ends_of_app, (ends_of_quiet _ Hsends), (ends_of_phases (client_name c) H1 Hn).
  cbn [ends_of]. rewrite ends_of_app, (ends_of_quiet _ (session_quiet R c qs1)).
  cbn [ends_of]. rewrite name_eqb_refl. reflexivity.
Qed.

Lemma end_called_once_after_failed_statement_witness :
  let R := Stub.runtime (Stub.secrets None)
             (Stub.failing_on "GRANT CREATE ON DATABASE app_database TO myapp_user") in
  let env := Stub.env (Some "cdc-test") (Some "app_database") (Some "app_schema") in
  let t := events (AfterPr.handler R env tt) in
  let c := new_Client ServiceConn (Some "app_database") (JStr "admin_user")
             (JStr "admin_password") "example" in
  (exists fin,
     skipn 22 t = [EvEnd c fin] /\
     result (AfterPr.handler R env tt) =
       Throw match fin with Normal _ => Rejected "boom" | Throw e' => e' end) /\
  statements (skipn 22 t) = [] /\
  ends_of (client_name c) t = 1.
Proof.
  intros R env t c.
  apply (@end_called_once_after_failed_statement unit R env tt (firstn 21 t) c
           "GRANT CREATE ON DATABASE app_database TO myapp_user" (Rejected "boom")
           (skipn 22 t)).
  reflexivity.
Defined.

(** C4, as the specification words it, fails when [end] throws too:
    [end] is called once, but the error that then reaches the caller is
    the one of [end], and the statement's error is lost. *)
Lemma statement_error_lost_when_end_throws :
  let R := Faulty.not_ending ServiceConn
             (Stub.runtime (Stub.secrets None)
                (Stub.failing_on "GRANT CREATE ON DATABASE app_database TO myapp_user")) in
  let env := Stub.env (Some "cdc-test") (Some "app_database") (Some "app_schema") in
  let o := AfterPr.handler R env tt in
  let c := new_Client ServiceConn (Some "app_database") (JStr "admin_user")
             (JStr "admin_password") "example" in
  nth_error (events o) 21
    = Some (EvQuery c "GRANT CREATE ON DATABASE app_database TO myapp_user"
              (Throw (Rejected "boom"))) /\
  skipn 22 (events o) = [EvEnd c (Throw (Rejected "socket hang up"))] /\
  ends_of ServiceConn (events o) = 1 /\
  result o = Throw (Rejected "socket hang up") /\
  result o <> Throw (Rejected "boom").
Proof. repeat split. discriminate. Qed.

(** ** Logging and the order of the checks *)

Section Logging.

Variable W : Type.
Variable R : Runtime W.

Lemma logged_app (a b : list Event) : logged (a ++ b) = (logged a ++ logged b)%list.
Proof.
  induction a as [ | ev a IH ]; [ reflexivity | ].
  destruct ev; cbn [logged app]; rewrite IH; reflexivity.
Qed.

Lemma statements_on_app (n : ClientName) (a b : list Event) :
  statements_on n (a ++ b) = (statements_on n a ++ statements_on n b)%list.
Proof.
  induction a as [ | ev a IH ]; [ reflexivity | ].
  destruct ev; cbn [statements_on app]; try exact IH.
  destruct (name_eqb n (client_name c)); rewrite IH; reflexivity.
Qed.

Lemma statements_app (a b : list Event) :
  statements (a ++ b) = (statements a ++ statements b)%list.
Proof.
  induction a as [ | ev a IH ]; [ reflexivity | ].
  destruct ev; cbn [statements app]; rewrite IH; reflexivity.
Qed.

Lemma sends_logged (t : list Event) : Forall is_send t -> logged t = [].
Proof.
  induction 1 as [ | ev t Hev _ IH ]; [ reflexivity | ].
  destruct ev; try contradiction; exact IH.
Qed.

Lemma sends_statements_on (n : ClientName) (t : list Event) :
  Forall is_send t -> statements_on n t = [].
Proof.
  induction 1 as [ | ev t Hev _ IH ]; [ reflexivity | ].
  destruct ev; try contradiction; exact IH.
Qed.

Lemma sends_statements (t : list Event) : Forall is_send t -> statements t = [].
Proof.
  induction 1 as [ | ev t Hev _ IH ]; [ reflexivity | ].
  destruct ev; try contradiction; exact IH.
Qed.

(** In every run a statement is submitted right after its log line, and
    a log line is followed at once by the submission it announces. *)
Lemma statement_logged_first (env : Env) (w : W) (pre : list Event) (c : Client)
    (s : string) (r : Completion (list JsValue)) (post : list Event) :
  events (AfterPr.handler R env w) = (pre ++ EvQuery c s r :: post)%list ->
  exists pre', pre = (pre' ++ [EvLog (log_line R c s)])%list.
Proof.
  intros E.
  destruct (handler_exchange R env w _ _ _ E I) as (p & r0 & pre' & _ & Epre & Hat & _).
  destruct Hat as [ls1 c0 S ls2 t1 qs rb fin pre1 post1 post0 _ _ _ Es Epre' _ _ _].
  destruct (session_locate _ _ _ _ _ _ Es) as (qs1 & q & qs2 & _ & Hcase).
  destruct Hcase as [(Eev & _) | (Eev & Epre1 & _)]; [ discriminate | ].
  injection Eev as Ec Es' _. subst c0 s.
  eexists. rewrite Epre, Epre', Epre1.
  rewrite !app_assoc, app_comm_cons, !app_assoc. reflexivity.
Qed.

Lemma log_line_announces (env : Env) (w : W) (pre : list Event) (line : string)
    (post : list Event) :
  events (AfterPr.handler R env w) = (pre ++ EvLog line :: post)%list ->
  exists c s r post', line = log_line R c s /\ post = EvQuery c s r :: post'.
Proof.
  intros E.
  destruct (handler_exchange R env w _ _ _ E I) as (p & r0 & pre' & _ & Epre & Hat & _).
  destruct Hat as [ls1 c0 S ls2 t1 qs rb fin pre1 post1 post0 _ _ _ Es _ Epost _ _].
  destruct (session_locate _ _ _ _ _ _ Es) as (qs1 & q & qs2 & _ & Hcase).
  destruct Hcase as [(Eev & _ & Epost1) | (Eev & _)]; [ | discriminate ].
  injection Eev as El. subst line post post1.
  do 4 eexists. split; reflexivity.
Qed.

Lemma session_cons (c : Client) (q : Exchange) (qs : list Exchange) :
  session R c (q :: qs) =
  EvLog (log_line R c (fst q)) :: EvQuery c (fst q) (snd q) :: session R c qs.
Proof. reflexivity. Qed.

Lemma ensure_normal (check create : string) (qs : list Exchange) :
  ensure check create qs (Normal tt) ->
  exists rows tl, qs = (check, Normal rows) :: tl /\
    (tl = [] \/ exists rows', tl = [(create, Normal rows')]).
Proof.
  intros H. inversion H; subst; do 2 eexists; split; try reflexivity; eauto.
Qed.

End Logging.

(** C9. In a run that returns, every statement is logged, as
    [[database] statement] with the database of its connection and its
    text, immediately before it is submitted, and nothing comes between
    a log line and its statement; the first line logged is the
    database-existence check, the service-role-existence check is logged
    after it, and no statement of the CDC phase (none on its admin
    connection, none on its database connection) is submitted before
    that. *)
Theorem checks_logged_in_phase_order
    (W : Type) (R : Runtime W) (env : Env) (w : W) (response : Response) :
  result (AfterPr.handler R env w) = Normal response ->
  (forall pre c s r post,
     events (AfterPr.handler R env w) = (pre ++ EvQuery c s r :: post)%list ->
     exists pre', pre = (pre' ++ [EvLog ("[" ++ client_database R c ++ "] " ++ s)])%list) /\
  (forall pre line post,
     events (AfterPr.handler R env w) = (pre ++ EvLog line :: post)%list ->
     exists c s r post',
       line = "[" ++ client_database R c ++ "] " ++ s /\ post = EvQuery c s r :: post') /\
  (exists p pre mid post,
     result (AfterPr.resolve R env w) = Normal p /\
     events (AfterPr.handler R env w) =
       (pre
        ++ EvLog ("[" ++ client_database R (AfterPr.mainConn env p) ++ "] "
                  ++ "SELECT exists(SELECT FROM pg_catalog.pg_database WHERE lower(datname) = lower('"
                  ++ AfterPr.database p ++ "'))")
        :: mid
        ++ EvLog ("[" ++ client_database R (AfterPr.mainConn env p) ++ "] "
                  ++ "SELECT exists(SELECT FROM pg_roles WHERE rolname='"
                  ++ toString (AfterPr.username p) ++ "')")
        :: post)%list /\
     logged pre = [] /\
     statements_on AdminConn (pre ++ mid) = [] /\
     statements_on CdcDbConn (pre ++ mid) = []).
Proof.
  intros Hres.
  split; [ intros; eapply statement_logged_first; eauto | ].
  split; [ intros; eapply log_line_announces; eauto | ].
  pose proof (handler_run R env w) as Hrun.
  pose proof (resolve_sends R env w) as Hs.
  destruct (result (AfterPr.resolve R env w)) as [p | e].
  2:{ destruct Hrun as [Hr _]. rewrite Hr in Hres. discriminate. }
  destruct Hrun as (t & r & Hp & Hev & Hr).
  rewrite Hr in Hres. destruct r as [ [] | e ]; [ | discriminate ].
  unfold AfterPr.phases, AfterPr.service_phases in Hp. cbn [app] in Hp.
  inversion Hp as [ | | c S rest t1 t' r Hp1 Hrest ]; subst.
  inversion Hp1 as [ | qs r' Hs1 | ]; subst.
  inversion Hs1 as [ | qs1 qs2 r' Hdb Hrole ]; subst.
  destruct (ensure_normal Hdb) as (rows & tl & Eq1 & Htl).
  destruct (ensure_normal Hrole) as (rows2 & tl2 & Eq2 & _).
  subst qs1 qs2.
  exists p, (events (AfterPr.resolve R env w) ++ [EvConnect (AfterPr.mainConn env p) (Normal tt)])%list,
    (EvQuery (AfterPr.mainConn env p) (select_database_exists (AfterPr.database p))
       (Normal rows) :: session R (AfterPr.mainConn env p) tl),
    (EvQuery (AfterPr.mainConn env p) (select_role_exists (AfterPr.username p))
       (Normal rows2)
     :: session R (AfterPr.mainConn env p) tl2
        ++ [EvEnd (AfterPr.mainConn env p) (Normal tt)] ++ t')%list.
  split; [ reflexivity | ]. split.
  { rewrite Hev, session_app, !session_cons. cbn [fst snd].
    repeat first [ rewrite <- app_assoc | progress cbn [app] ]. reflexivity. }
  split.
  { rewrite logged_app, (sends_logged Hs). reflexivity. }
  split.
  - rewrite <- app_assoc, !statements_on_app, (sends_statements_on _ Hs).
    destruct Htl as [ -> | (rows' & ->) ]; reflexivity.
  - rewrite <- app_assoc, !statements_on_app, (sends_statements_on _ Hs).
    destruct Htl as [ -> | (rows' & ->) ]; reflexivity.
Qed.

Lemma checks_logged_in_phase_order_witness :
  let R := Stub.runtime (Stub.secrets (Some (Stub.credentials_json "cdc_user" "cdc_password")))
                        Stub.empty_row in
  let env := Stub.env (Some "cdc-test") (Some "app_database") (Some "app_schema") in
  let t := events (AfterPr.handler R env tt) in
  result (AfterPr.handler R env tt) =
    Normal {| message := "Database 'app_database' for username(s) 'myapp_user & cdc_user' is ready for use!" |} /\
  firstn 8 (logged t)
    = [ "[postgres] SELECT exists(SELECT FROM pg_catalog.pg_database WHERE lower(datname) = lower('app_database'))";
        "[postgres] CREATE DATABASE app_database";
        "[postgres] SELECT exists(SELECT FROM pg_roles WHERE rolname='myapp_user')";
        "[postgres] CREATE USER myapp_user WITH ENCRYPTED PASSWORD 'myapp_password'";
        "[app_database] CREATE EXTENSION IF NOT EXISTS pg_trgm SCHEMA app_schema CASCADE";
        "[app_database] CREATE EXTENSION IF NOT EXISTS intarray SCHEMA app_schema CASCADE";
        "[app_database] GRANT CONNECT ON DATABASE app_database TO myapp_user";
        "[app_database] GRANT CREATE ON DATABASE app_database TO myapp_user" ] /\
  (forall pre c s r post,
     t = (pre ++ EvQuery c s r :: post)%list ->
     exists pre', pre = (pre' ++ [EvLog ("[" ++ client_database R c ++ "] " ++ s)])%list) /\
  (forall pre line post,
     t = (pre ++ EvLog line :: post)%list ->
     exists c s r post',
       line = "[" ++ client_database R c ++ "] " ++ s /\ post = EvQuery c s r :: post') /\
  (exists p pre mid post,
     result (AfterPr.resolve R env tt) = Normal p /\
     t = (pre
          ++ EvLog ("[" ++ client_database R (AfterPr.mainConn env p) ++ "] "
                    ++ "SELECT exists(SELECT FROM pg_catalog.pg_database WHERE lower(datname) = lower('"
                    ++ AfterPr.database p ++ "'))")
          :: mid
          ++ EvLog ("[" ++ client_database R (AfterPr.mainConn env p) ++ "] "
                    ++ "SELECT exists(SELECT FROM pg_roles WHERE rolname='"
                    ++ toString (AfterPr.username p) ++ "')")
          :: post)%list /\
     logged pre = [] /\
     statements_on AdminConn (pre ++ mid) = [] /\
     statements_on CdcDbConn (pre ++ mid) = []).
Proof.
  intros R env t.
  split; [ reflexivity | ]. split; [ reflexivity | ].
  apply (@checks_logged_in_phase_order unit R env tt
           {| message := "Database 'app_database' for username(s) 'myapp_user & cdc_user' is ready for use!" |}).
  reflexivity.
Defined.

(** ** What scripts submit *)

Lemma straight_In (stmts : list string) (qs : list Exchange) (r : Completion unit) :
  straight stmts qs r -> forall q, In q qs -> In (fst q) stmts.
Proof.
  induction 1 as [ | s0 rows stmts qs r H IH | s0 e0 stmts ]; intros q Hin.
  - destruct Hin.
  - destruct Hin as [ <- | Hin ]; [ left; reflexivity | right; auto ].
  - destruct Hin as [ <- | [] ]. left. reflexivity.
Qed.

Lemma every_straight (P : string -> Prop) (stmts : list string) :
  Forall P stmts -> every P (straight stmts).
Proof.
  intros HP qs r H. apply Forall_forall. intros q Hin.
  rewrite Forall_forall in HP. apply HP. eapply straight_In; eauto.
Qed.

Lemma every_ensure (P : string -> Prop) (check create : string) :
  P check -> P create -> every P (ensure check create).
Proof. intros Hc Hk qs r H. destruct H; repeat constructor; assumption. Qed.

Lemma every_then (P : string -> Prop) (S1 S2 : Script) :
  every P S1 -> every P S2 -> every P (then_ S1 S2).
Proof.
  intros H1 H2 qs r H. destruct H as [ qs e Hs | qs1 qs2 r Hs1 Hs2 ].
  - eapply H1; eauto.
  - apply Forall_app. split; [ eapply H1 | eapply H2 ]; eauto.
Qed.

Lemma at_most_none (f : string -> bool) (S : Script) :
  every (fun s => f s = false) S -> at_most f 0 S.
Proof.
  intros H qs r Hs. specialize (H qs r Hs). clear Hs.
  induction H as [ | q qs Hq _ IH ]; [ simpl; lia | ].
  cbn [map filter]. rewrite Hq. exact IH.
Qed.

Lemma at_most_ensure (f : string -> bool) (check create : string) :
  f check = false -> at_most f 1 (ensure check create).
Proof.
  intros Hc qs r H. destruct H; cbn [map filter fst]; rewrite Hc;
    try destruct (f create); cbn [length]; auto with arith.
Qed.

Lemma at_most_then (f : string -> bool) (n1 n2 : nat) (S1 S2 : Script) :
  at_most f n1 S1 -> at_most f n2 S2 -> at_most f (n1 + n2) (then_ S1 S2).
Proof.
  intros H1 H2 qs r H. destruct H as [ qs e Hs | qs1 qs2 r Hs1 Hs2 ].
  - apply Nat.le_trans with n1; [ exact (H1 _ _ Hs) | apply Nat.le_add_r ].
  - rewrite map_app, filter_app, List.length_app.
    apply Nat.add_le_mono; [ exact (H1 _ _ Hs1) | exact (H2 _ _ Hs2) ].
Qed.

(** The destructuring [rows: [{ exists }]] reads the [exists] column of
    the first row, and throws exactly when there is no first row. *)
Lemma first_row_read (rows : list JsValue) (v : JsValue) :
  first_row_exists rows = Normal v -> has_row rows = true /\ exists_column rows = v.
Proof.
  unfold first_row_exists.
  destruct rows as [ | [] rest ]; cbn [get has_row exists_column]; intros H;
    try discriminate; injection H as <-; auto.
Qed.

Lemma first_row_has (rows : list JsValue) :
  has_row rows = true -> first_row_exists rows = Normal (exists_column rows).
Proof.
  unfold first_row_exists.
  destruct rows as [ | [] rest ]; cbn [get has_row exists_column]; intros H;
    try discriminate; reflexivity.
Qed.

Lemma first_row_none (rows : list JsValue) (e : Exn) :
  first_row_exists rows = Throw e -> has_row rows = false.
Proof.
  intros H. destruct (has_row rows) eqn:E; [ | reflexivity ].
  rewrite (first_row_has _ E) in H. discriminate.
Qed.

Lemma guarded_none (S : Script) : every (fun s => is_creation s = false) S -> guarded S.
Proof.
  intros H qs r Hs pre s a post E Hc.
  specialize (H qs r Hs). rewrite E in H.
  apply Forall_app in H. destruct H as [_ H]. inversion H as [ | ? ? Hq _ ]; subst.
  cbn [fst] in Hq. congruence.
Qed.

Lemma guarded_ensure (check create : string) :
  is_creation check = false -> creation_for check create ->
  guarded (ensure check create).
Proof.
  intros Hcheck Hfor qs r H pre s a post E Hc.
  destruct H;
    repeat (destruct pre as [ | ? pre ]; cbn [app] in E; try discriminate);
    injection E as; subst; try congruence;
    match goal with
    | Hrow : first_row_exists _ = Normal _ |- _ =>
        destruct (first_row_read _ Hrow) as [Hhas <-]
    end;
    exists [], check; eexists; repeat split; eauto.
Qed.

Lemma guarded_then (S1 S2 : Script) : guarded S1 -> guarded S2 -> guarded (then_ S1 S2).
Proof.
  intros H1 H2 qs r H pre s a post E Hc.
  destruct H as [ qs e Hs | qs1 qs2 r Hs1 Hs2 ].
  - eapply H1; eauto.
  - apply app_eq_app in E. destruct E as (l & [[E1 E2] | [E1 E2]]).
    + destruct l as [ | x l ]; cbn [app] in E2.
      * rewrite app_nil_r in E1. subst pre.
        destruct (H2 _ _ Hs2 [] s a post (eq_sym E2) Hc) as (pre' & check & rows & E & _).
        destruct pre'; discriminate.
      * injection E2 as Ex El. subst x.
        eapply H1; eauto.
    + destruct (H2 _ _ Hs2 _ _ _ _ E2 Hc) as (pre' & check & rows & E & Hrest).
      exists (qs1 ++ pre')%list, check, rows. split; [ | exact Hrest ].
      subst. rewrite app_assoc. reflexivity.
Qed.

Lemma prompt_none (S : Script) : every (fun s => is_check s = false) S -> prompt S.
Proof.
  intros H qs r Hs pre s rows post E Hc.
  specialize (H qs r Hs). rewrite E in H.
  apply Forall_app in H. destruct H as [_ H]. inversion H as [ | ? ? Hq _ ]; subst.
  cbn [fst] in Hq. congruence.
Qed.

Lemma prompt_ensure (check create : string) :
  is_check create = false -> creation_for check create ->
  prompt (ensure check create).
Proof.
  intros Hcreate Hfor qs r H pre s rows post E Hc Hrow Hv.
  destruct H;
    repeat (destruct pre as [ | ? pre ]; cbn [app] in E; try discriminate);
    injection E as; subst; try congruence; eauto;
    match goal with
    | Hread : first_row_exists _ = _ |- _ =>
        rewrite (first_row_has _ Hrow) in Hread; congruence
    end.
Qed.

Lemma prompt_then (S1 S2 : Script) : prompt S1 -> prompt S2 -> prompt (then_ S1 S2).
Proof.
  intros H1 H2 qs r H pre s rows post E Hc Hrow Hv.
  destruct H as [ qs e Hs | qs1 qs2 r Hs1 Hs2 ].
  - eapply H1; eauto.
  - apply app_eq_app in E. destruct E as (l & [[E1 E2] | [E1 E2]]).
    + destruct l as [ | x l ]; cbn [app] in E2.
      * eapply (H2 _ _ Hs2 []); eauto.
      * injection E2 as Ex El. subst x.
        destruct (H1 _ _ Hs1 _ _ _ _ E1 Hc Hrow Hv) as (create & a & post' & E & Hfor).
        subst l post. exists create, a, (post' ++ qs2)%list. split; [ reflexivity | exact Hfor ].
    + eapply H2; eauto.
Qed.

(** ** The statements of [src/bootstrap_after_pr.ts] *)

(** Decides a property of every statement of a fixed list by running the
    test on the text that precedes the configured names. *)
Ltac by_template :=
  repeat (apply Forall_cons; [ reflexivity | ]); apply Forall_nil.

Ltac each_phase tac :=
  unfold AfterPr.phases, AfterPr.service_phases, AfterPr.cdc_phases,
    AfterPr.admin_script, AfterPr.cdc_role_script;
  match goal with
  | |- context [truthy ?v] => destruct (truthy v)
  end;
  cbn [app];
  repeat (apply Forall_cons; [ cbn [snd]; tac | ]); apply Forall_nil.

Lemma after_pr_phases_guarded (env : Env) (p : AfterPr.Plan) :
  Forall (fun cs => guarded (snd cs)) (AfterPr.phases env p).
Proof.
  each_phase ltac:(first
    [ apply guarded_then; apply guarded_ensure; first [ reflexivity | constructor ]
    | apply guarded_ensure; first [ reflexivity | constructor ]
    | apply guarded_none, every_straight; by_template ]).
Qed.

Lemma after_pr_phases_prompt (env : Env) (p : AfterPr.Plan) :
  Forall (fun cs => prompt (snd cs)) (AfterPr.phases env p).
Proof.
  each_phase ltac:(first
    [ apply prompt_then; apply prompt_ensure; first [ reflexivity | constructor ]
    | apply prompt_ensure; first [ reflexivity | constructor ]
    | apply prompt_none, every_straight; by_template ]).
Qed.

Lemma after_pr_phases_no_drop (env : Env) (p : AfterPr.Plan) :
  Forall (fun cs => every (fun s => is_drop s = false) (snd cs)) (AfterPr.phases env p).
Proof.
  each_phase ltac:(first
    [ apply every_then; apply every_ensure; reflexivity
    | apply every_ensure; reflexivity
    | apply every_straight; by_template ]).
Qed.

Lemma after_pr_phases_create_database (env : Env) (p : AfterPr.Plan) :
  exists ns, list_sum ns = 1 /\
    Forall2 (fun cs n => at_most (String.prefix "CREATE DATABASE ") n (snd cs))
            (AfterPr.phases env p) ns.
Proof.
  unfold AfterPr.phases, AfterPr.service_phases, AfterPr.cdc_phases,
    AfterPr.admin_script, AfterPr.cdc_role_script.
  destruct (truthy (AfterPr.cdcUserSecret p)); cbn [app];
    [ exists [1 + 0; 0; 0; 0] | exists [1 + 0; 0] ]; (split; [ reflexivity | ]);
    repeat (apply Forall2_cons; [ cbn [snd] | ]); try apply Forall2_nil;
    first [ apply at_most_then;
            [ apply at_most_ensure; reflexivity
            | apply at_most_none, every_ensure; reflexivity ]
          | apply at_most_none, every_ensure; reflexivity
          | apply at_most_none, every_straight; by_template ].
Qed.

Lemma after_pr_phases_create_user (env : Env) (p : AfterPr.Plan) :
  exists ns, list_sum ns <= 2 /\
    Forall2 (fun cs n => at_most (String.prefix "CREATE USER ") n (snd cs))
            (AfterPr.phases env p) ns.
Proof.
  unfold AfterPr.phases, AfterPr.service_phases, AfterPr.cdc_phases,
    AfterPr.admin_script, AfterPr.cdc_role_script.
  destruct (truthy (AfterPr.cdcUserSecret p)); cbn [app];
    [ exists [0 + 1; 0; 1; 0] | exists [0 + 1; 0] ];
    (split; [ simpl; lia | ]);
    repeat (apply Forall2_cons; [ cbn [snd] | ]); try apply Forall2_nil;
    first [ apply at_most_then;
            [ apply at_most_none, every_ensure; reflexivity
            | apply at_most_ensure; reflexivity ]
          | apply at_most_ensure; reflexivity
          | apply at_most_none, every_straight; by_template ].
Qed.

Section Statements.

Variable W : Type.
Variable R : Runtime W.

Lemma statements_session (c : Client) (qs : list Exchange) :
  statements (session R c qs) = map fst qs.
Proof.
  induction qs as [ | q qs IH ]; [ reflexivity | ].
  rewrite session_cons. cbn [statements map]. rewrite IH. reflexivity.
Qed.

Lemma statements_phase (c : Client) (S : Script) (t : list Event) (r : Completion unit) :
  in_phase R c S t r ->
  exists qs rb, S qs rb /\ statements t = map fst qs \/ statements t = [].
Proof.
  intros H. inversion H; subst.
  - exists [], (Normal tt). right. reflexivity.
  - exists qs, r. left. split; [ assumption | ].
    cbn [statements]. rewrite statements_app, statements_session.
    cbn [statements]. apply app_nil_r.
  - exists qs, r0. left. split; [ assumption | ].
    cbn [statements]. rewrite statements_app, statements_session.
    cbn [statements]. apply app_nil_r.
Qed.

Lemma every_phases (P : string -> Prop) (ls : list (Client * Script)) (t : list Event)
    (r : Completion unit) :
  in_phases R ls t r ->
  Forall (fun cs => every P (snd cs)) ls ->
  Forall P (statements t).
Proof.
  assert (Hone : forall c S t r, in_phase R c S t r -> every P S -> Forall P (statements t)).
  { intros c S t0 r0 Hp He.
    destruct (statements_phase Hp) as (qs & rb & [[Hs Et] | Et]); rewrite Et.
    - specialize (He _ _ Hs). clear - He.
      induction He; cbn [map]; constructor; auto.
    - constructor. }
  induction 1 as [ | c S rest t e Hp | c S rest t t' r Hp Hrest IH ]; intros Hall.
  - constructor.
  - inversion Hall; subst. eapply Hone; eauto.
  - inversion Hall; subst. rewrite statements_app. apply Forall_app. split.
    + eapply Hone; eauto.
    + apply IH. assumption.
Qed.

Lemma at_most_phases (f : string -> bool) (ls : list (Client * Script)) (ns : list nat)
    (t : list Event) (r : Completion unit) :
  in_phases R ls t r ->
  Forall2 (fun cs n => at_most f n (snd cs)) ls ns ->
  length (filter f (statements t)) <= list_sum ns.
Proof.
  assert (Hone : forall c S t r n, in_phase R c S t r -> at_most f n S ->
                                   length (filter f (statements t)) <= n).
  { intros c S t0 r0 n Hp Ha.
    destruct (statements_phase Hp) as (qs & rb & [[Hs Et] | Et]); rewrite Et.
    - exact (Ha _ _ Hs).
    - apply Nat.le_0_l. }
  intros H. revert ns.
  induction H as [ | c S rest t e Hp | c S rest t t' r Hp Hrest IH ]; intros ns Hall.
  - apply Nat.le_0_l.
  - inversion Hall; subst. cbn [list_sum].
    eapply Nat.le_trans; [ eapply Hone; eauto | apply Nat.le_add_r ].
  - inversion Hall; subst. cbn [list_sum].
    rewrite statements_app, filter_app, List.length_app.
    apply Nat.add_le_mono; [ eapply Hone; eauto | apply IH; assumption ].
Qed.

(** What holds of every statement of every phase of the plan holds of
    every statement of the run. *)
Lemma handler_statements (P : string -> Prop) (env : Env) (w : W) :
  (forall p, result (AfterPr.resolve R env w) = Normal p ->
             Forall (fun cs => every P (snd cs)) (AfterPr.phases env p)) ->
  Forall P (statements (events (AfterPr.handler R env w))).
Proof.
  intros H.
  pose proof (handler_run R env w) as Hrun.
  pose proof (resolve_sends R env w) as Hs.
  destruct (result (AfterPr.resolve R env w)) as [p | e].
  - destruct Hrun as (t & r & Hp & Hev & _).
    rewrite Hev, statements_app, (sends_statements Hs). cbn [app].
    eapply every_phases; eauto.
  - destruct Hrun as [_ Hev]. rewrite Hev, (sends_statements Hs). constructor.
Qed.

Lemma handler_at_most (f : string -> bool) (n : nat) (env : Env) (w : W) :
  (forall p, exists ns, list_sum ns <= n /\
     Forall2 (fun cs k => at_most f k (snd cs)) (AfterPr.phases env p) ns) ->
  length (filter f (statements (events (AfterPr.handler R env w)))) <= n.
Proof.
  intros H.
  pose proof (handler_run R env w) as Hrun.
  pose proof (resolve_sends R env w) as Hs.
  destruct (result (AfterPr.resolve R env w)) as [p | e].
  - destruct Hrun as (t & r & Hp & Hev & _).
    rewrite Hev, statements_app, (sends_statements Hs). cbn [app].
    destruct (H p) as (ns & Hsum & Hall).
    eapply Nat.le_trans; [ eapply at_most_phases; eauto | exact Hsum ].
  - destruct Hrun as [_ Hev]. rewrite Hev, (sends_statements Hs). apply Nat.le_0_l.
Qed.

End Statements.

Lemma creation_for_is_check (check create : string) :
  creation_for check create -> is_check check = true.
Proof. intros []; reflexivity. Qed.

(** ** What the secrets resolve to *)

(** Runs [resolve] call by call: each fetch and each pure step is split
    into the case where it returns and the case where it throws. *)
Ltac run_resolve :=
  unfold AfterPr.resolve, AfterPr.resolve_cdc, bind, send, lift, ret;
  repeat first
    [ progress cbn [result events world fst snd app nth_error] in *
    | match goal with
      | |- context [secretClient_send ?R ?id ?w] =>
          destruct (secretClient_send R id w) as [[? | ?] ?] eqn:?
      end
    | match goal with
      | |- context [if truthy (js_of ?v) then _ else _] =>
          destruct v; cbn [js_of text_of toString] in *;
          [ match goal with
            | |- context [if truthy (JStr ?s) then _ else _] =>
                destruct (truthy (JStr s)) eqn:?
            end
          | cbn [truthy] in * ]
      | |- context [JSON_parse ?R ?s] => destruct (JSON_parse R s) eqn:?
      | |- context [get ?v ?k] => destruct (get v k) eqn:?
      | |- context [database_name ?e ?v] => destruct (database_name e v) eqn:?
      | |- context [schema_name ?e ?v] => destruct (schema_name e v) eqn:?
      end ].

Section ResolveFacts.

Variable W : Type.
Variable R : Runtime W.

(** The CDC secret of the plan is [undefined] unless the store returned
    a payload for it, and then it is what the payload parses to; a
    payload that does not parse makes [resolve] throw. *)
Lemma resolve_cdc_payload (env : Env) (w : W) :
  match cdc_payload env (events (AfterPr.resolve R env w)) with
  | None => forall p, result (AfterPr.resolve R env w) = Normal p ->
                      AfterPr.cdcUserSecret p = JUndefined
  | Some raw =>
      match JSON_parse R raw with
      | Throw e => result (AfterPr.resolve R env w) = Throw e
      | Normal v => forall p, result (AfterPr.resolve R env w) = Normal p ->
                              AfterPr.cdcUserSecret p = v
      end
  end.
Proof.
  unfold cdc_payload. run_resolve.
  all: repeat match goal with H : ?x = _ |- context [?x] => rewrite H end.
  all: try (intros; discriminate).
  all: try (intros ? [= <-]; reflexivity).
  all: try reflexivity.
Qed.

(** Past the secrets the handler's trace and the trace of [resolve] no
    longer differ in what they say of the CDC payload. *)
Lemma handler_cdc_payload (env : Env) (w : W) :
  cdc_payload env (events (AfterPr.handler R env w)) =
  cdc_payload env (events (AfterPr.resolve R env w)).
Proof.
  pose proof (handler_run R env w) as Hrun. revert Hrun.
  generalize (events (AfterPr.handler R env w)) (result (AfterPr.handler R env w)).
  intros th rh. unfold cdc_payload. run_resolve.
  all: intros Hrun;
    try (destruct Hrun as (t & r & _ & Hev & _)); try (destruct Hrun as [_ Hev]);
    try rewrite Hev; reflexivity.
Qed.

(** What a plan holds was read from the two required secrets. *)
Lemma resolve_plan (env : Env) (w : W) (p : AfterPr.Plan) :
  result (AfterPr.resolve R env w) = Normal p ->
  exists mainSecret serviceSecret,
    get mainSecret "username" = Normal (AfterPr.mainUser p) /\
    get mainSecret "password" = Normal (AfterPr.mainPassword p) /\
    get serviceSecret "username" = Normal (AfterPr.username p) /\
    get serviceSecret "password" = Normal (AfterPr.password p) /\
    database_name env serviceSecret = Normal (AfterPr.database p) /\
    schema_name env serviceSecret = Normal (AfterPr.schema p).
Proof.
  run_resolve.
  all: try (intros; discriminate).
  all: intros [= <-]; do 2 eexists; cbn [AfterPr.mainUser AfterPr.mainPassword
         AfterPr.username AfterPr.password AfterPr.database AfterPr.schema];
       repeat split; eassumption.
Qed.

End ResolveFacts.

(** ** Collaborators that never fail *)

Section Healthy.

Variable W : Type.
Variable R : Runtime W.
Hypothesis Hhealthy : healthy R.

Lemma healthy_query (c : Client) (s : string) (w : W) :
  exists row rest, result (query R c s w) = Normal (JObj row :: rest).
Proof.
  destruct Hhealthy as (_ & _ & Hq). destruct (Hq c s w) as (row & rest & E).
  exists row, rest. rewrite query_run. exact E.
Qed.

Lemma healthy_run_all (c : Client) (stmts : list string) (w : W) :
  result (run_all R c stmts w) = Normal tt.
Proof.
  revert w. induction stmts as [ | s stmts IH ]; intro w; [ reflexivity | ].
  cbn [run_all fold_right]. fold (run_all R c stmts). rewrite bind_run.
  destruct (healthy_query c s w) as (row & rest & E). rewrite E.
  cbn [result fst]. apply IH.
Qed.

Lemma healthy_ensure (c : Client) (check create : string) (w : W) :
  result (ensure_body R c check create w) = Normal tt.
Proof.
  unfold ensure_body. rewrite bind_run.
  destruct (healthy_query c check w) as (row & rest & E). rewrite E.
  cbn [result fst]. rewrite bind_run, lift_run. cbn [result fst first_row_exists get].
  destruct (negb _); [ | reflexivity ].
  rewrite bind_run.
  match goal with
  | |- context [query R c create ?w'] =>
      destruct (healthy_query c create w') as (row' & rest' & E'); rewrite E'
  end.
  reflexivity.
Qed.

Lemma healthy_phase (c : Client) (body : M W unit) :
  (forall w, result (body w) = Normal tt) ->
  forall w, result (phase R c body w) = Normal tt.
Proof.
  intros Hb w. destruct Hhealthy as (Hc & He & _).
  unfold phase, bind, connect, try_finally, end_.
  specialize (Hc c w). destruct (client_connect R c w) as [rc w1].
  cbn [fst] in Hc. subst rc.
  specialize (Hb w1). unfold result in Hb.
  destruct (body w1) as [[rb w2] t1]. cbn [fst] in Hb. subst rb.
  specialize (He c w2). destruct (client_end R c w2) as [re w3].
  cbn [fst] in He. subst re. reflexivity.
Qed.

Lemma healthy_run_phases (l : list (Client * M W unit)) :
  Forall (fun cb => forall w, result (snd cb w) = Normal tt) l ->
  forall w, result (run_phases R l w) = Normal tt.
Proof.
  induction 1 as [ | [c body] l Hb _ IH ]; intro w; [ reflexivity | ].
  cbn [run_phases fold_right fst snd]. fold (run_phases R l).
  rewrite bind_run, (@healthy_phase c body Hb). cbn [result fst]. apply IH.
Qed.

(** With collaborators that never fail the handler returns as soon as
    the secrets resolve. *)
Lemma healthy_handler (env : Env) (w : W) (p : AfterPr.Plan) :
  result (AfterPr.resolve R env w) = Normal p ->
  result (AfterPr.handler R env w) = Normal (AfterPr.answer p).
Proof.
  intros Hres.
  rewrite handler_resolve_provision, bind_run, Hres. cbn [result fst].
  rewrite provision_run_phases, bind_run, healthy_run_phases; [ reflexivity | ].
  unfold AfterPr.bodies, AfterPr.admin_body, AfterPr.cdc_role_body.
  destruct (truthy (AfterPr.cdcUserSecret p)); cbn [app];
    repeat (apply Forall_cons; [ cbn [snd]; intro w' | ]); try apply Forall_nil;
    try apply healthy_run_all; try apply healthy_ensure.
  all: rewrite bind_run, healthy_ensure; cbn [result fst]; apply healthy_ensure.
Qed.

End Healthy.

(** ** Runs in which no call fails *)

Lemma accountable_straight (stmts : list string) : accountable (straight stmts).
Proof.
  intros qs r H. induction H as [ | s rows stmts qs r H IH | s e stmts ]; intros Hq.
  - reflexivity.
  - cbn [forallb] in Hq. apply andb_prop in Hq. apply IH. tauto.
  - discriminate.
Qed.

Lemma accountable_ensure (check create : string) :
  is_check check = true -> accountable (ensure check create).
Proof.
  intros Hc qs r H Hq. destruct H; try reflexivity;
    cbn [forallb answered fst snd andb] in Hq; try discriminate.
  - rewrite Hc, (first_row_none _ H) in Hq. discriminate.
  - apply andb_prop in Hq. destruct Hq as [_ Hq]. discriminate.
Qed.

Lemma accountable_then (S1 S2 : Script) :
  accountable S1 -> accountable S2 -> accountable (then_ S1 S2).
Proof.
  intros H1 H2 qs r H Hq. destruct H as [ qs e Hs | qs1 qs2 r Hs1 Hs2 ].
  - exact (H1 _ _ Hs Hq).
  - rewrite forallb_app in Hq. apply andb_prop in Hq. apply (H2 _ _ Hs2). tauto.
Qed.

Section Unfailing.

Variable W : Type.
Variable R : Runtime W.

Lemma unfailing_app (t1 t2 : list Event) :
  unfailing (t1 ++ t2) = unfailing t1 && unfailing t2.
Proof. apply forallb_app. Qed.

Lemma unfailing_session (c : Client) (qs : list Exchange) :
  unfailing (session R c qs) = forallb answered qs.
Proof.
  induction qs as [ | [s a] qs IH ]; [ reflexivity | ].
  unfold session in *. cbn [flat_map exchange fst snd app].
  unfold unfailing in *. cbn [forallb went_well]. rewrite IH.
  unfold answered. cbn [fst snd]. destruct a; reflexivity.
Qed.

Lemma unfailing_phase (c : Client) (S : Script) (t : list Event) (r : Completion unit) :
  in_phase R c S t r -> accountable S -> unfailing t = true -> r = Normal tt.
Proof.
  intros H Ha Ht. destruct H as [ e | qs r Hs | qs r e Hs ].
  - discriminate.
  - unfold unfailing in Ht. cbn [forallb went_well andb] in Ht.
    fold (unfailing (session R c qs ++ [EvEnd c (Normal tt)])) in Ht.
    rewrite unfailing_app, unfailing_session in Ht.
    apply andb_prop in Ht. apply (Ha _ _ Hs). tauto.
  - unfold unfailing in Ht. cbn [forallb went_well andb] in Ht.
    fold (unfailing (session R c qs ++ [EvEnd c (Throw e)])) in Ht.
    rewrite unfailing_app in Ht. apply andb_prop in Ht. destruct Ht as [_ Ht].
    discriminate.
Qed.

Lemma unfailing_phases (ls : list (Client * Script)) (t : list Event)
    (r : Completion unit) :
  in_phases R ls t r -> Forall (fun cs => accountable (snd cs)) ls ->
  unfailing t = true -> r = Normal tt.
Proof.
  induction 1 as [ | c S rest t e Hp | c S rest t t' r Hp Hrest IH ]; intros Hall Ht.
  - reflexivity.
  - inversion Hall; subst. eapply unfailing_phase; eauto.
  - inversion Hall; subst. rewrite unfailing_app in Ht. apply andb_prop in Ht.
    apply IH; tauto.
Qed.

Lemma after_pr_phases_accountable (env : Env) (p : AfterPr.Plan) :
  Forall (fun cs => accountable (snd cs)) (AfterPr.phases env p).
Proof.
  unfold AfterPr.phases, AfterPr.service_phases, AfterPr.cdc_phases,
    AfterPr.admin_script, AfterPr.cdc_role_script.
  destruct (truthy (AfterPr.cdcUserSecret p)); cbn [app];
    repeat (apply Forall_cons; [ cbn [snd] | ]); try apply Forall_nil;
    repeat first [ apply accountable_then
                 | apply accountable_ensure; reflexivity
                 | apply accountable_straight ].
Qed.

(** Once the secrets resolve, a run in which every call went well
    returns. *)
Lemma unfailing_handler (env : Env) (w : W) (p : AfterPr.Plan) :
  result (AfterPr.resolve R env w) = Normal p ->
  unfailing (events (AfterPr.handler R env w)) = true ->
  result (AfterPr.handler R env w) = Normal (AfterPr.answer p).
Proof.
  intros Hres Ht.
  pose proof (handler_run R env w) as Hrun. rewrite Hres in Hrun.
  destruct Hrun as (t & r & Hp & Hev & Hr).
  rewrite Hev, unfailing_app in Ht. apply andb_prop in Ht.
  rewrite Hr, (unfailing_phases Hp (after_pr_phases_accountable env p)); tauto.
Qed.

End Unfailing.

(** ** Runs that return *)

Section Returned.

Variable W : Type.
Variable R : Runtime W.

Lemma in_phases_nil_inv (t : list Event) (r : Completion unit) :
  in_phases R [] t r -> t = [] /\ r = Normal tt.
Proof. intros H. inversion H. auto. Qed.

Lemma in_phases_cons_normal (c : Client) (S : Script) (rest : list (Client * Script))
    (t : list Event) :
  in_phases R ((c, S) :: rest) t (Normal tt) ->
  exists qs t',
    S qs (Normal tt) /\ in_phases R rest t' (Normal tt) /\
    t = ((EvConnect c (Normal tt) :: session R c qs ++ [EvEnd c (Normal tt)]) ++ t')%list.
Proof.
  intros H. inversion H as [ | | c' S' rest' t1 t' r Hp Hrest ]; subst.
  inversion Hp as [ | qs r' Hs | ]; subst.
  exists qs, t'. auto.
Qed.

Lemma statements_on_session (n : ClientName) (c : Client) (qs : list Exchange) :
  statements_on n (session R c qs) =
  if name_eqb n (client_name c) then map fst qs else [].
Proof.
  induction qs as [ | q qs IH ].
  - destruct (name_eqb n (client_name c)); reflexivity.
  - rewrite session_cons. cbn [statements_on map]. rewrite IH.
    destruct (name_eqb n (client_name c)); reflexivity.
Qed.

Lemma statements_on_closed_phase (n : ClientName) (c : Client) (qs : list Exchange)
    (fin : Completion unit) :
  statements_on n (EvConnect c (Normal tt) :: session R c qs ++ [EvEnd c fin]) =
  if name_eqb n (client_name c) then map fst qs else [].
Proof.
  cbn [statements_on]. rewrite statements_on_app, statements_on_session.
  cbn [statements_on]. apply app_nil_r.
Qed.

Lemma straight_normal (stmts : list string) (qs : list Exchange) :
  straight stmts qs (Normal tt) -> map fst qs = stmts.
Proof.
  intros H. remember (Normal tt) as r eqn:Er.
  induction H as [ | s0 rows stmts qs r H IH | s0 e0 stmts ];
    [ reflexivity | | discriminate ].
  cbn [map fst]. rewrite (IH Er). reflexivity.
Qed.

Lemma statements_on_phases_other (n : ClientName) (ls : list (Client * Script))
    (t : list Event) (r : Completion unit) :
  in_phases R ls t r ->
  ~ In n (map (fun cs => client_name (fst cs)) ls) ->
  statements_on n t = [].
Proof.
  assert (Hone : forall c S t r, in_phase R c S t r -> n <> client_name c ->
                                 statements_on n t = []).
  { intros c S t0 r0 Hp Hn.
    assert (Hneq : name_eqb n (client_name c) = false).
    { destruct (name_eqb n (client_name c)) eqn:E; [ | reflexivity ].
      apply name_eqb_eq in E. contradiction. }
    inversion Hp; subst; [ reflexivity | | ];
      rewrite statements_on_closed_phase, Hneq; reflexivity. }
  induction 1 as [ | c S rest t e Hp | c S rest t t' r Hp Hrest IH ]; intros Hn.
  - reflexivity.
  - eapply Hone; [ exact Hp | ]. intros E. apply Hn. left. auto.
  - rewrite statements_on_app, (Hone _ _ _ _ Hp), IH; [ reflexivity | | ].
    + intros Hin. apply Hn. right. exact Hin.
    + intros E. apply Hn. left. auto.
Qed.

(** Only the clients of the phases are connected and ended. *)
Lemma lifecycle_phases_names (ls : list (Client * Script)) (t : list Event)
    (r : Completion unit) :
  in_phases R ls t r ->
  forall n b, In (n, b) (lifecycle t) -> In n (map (fun cs => client_name (fst cs)) ls).
Proof.
  assert (Hone : forall c S t r, in_phase R c S t r ->
            forall n b, In (n, b) (lifecycle t) -> n = client_name c).
  { intros c S t0 r0 Hp n b Hin.
    destruct Hp as [ e | qs r0 Hs | qs r0 e Hs ]; cbn [lifecycle In] in Hin.
    - destruct Hin as [[= <- _] | []]. reflexivity.
    - destruct Hin as [[= <- _] | Hin]; [ reflexivity | ].
      rewrite lifecycle_app, (lifecycle_quiet (session_quiet R c qs)) in Hin.
      destruct Hin as [[= <- _] | []]. reflexivity.
    - destruct Hin as [[= <- _] | Hin]; [ reflexivity | ].
      rewrite lifecycle_app, (lifecycle_quiet (session_quiet R c qs)) in Hin.
      destruct Hin as [[= <- _] | []]. reflexivity. }
  induction 1 as [ | c S rest t e Hp | c S rest t t' r Hp Hrest IH ]; intros n b Hin.
  - destruct Hin.
  - left. symmetry. exact (Hone _ _ _ _ Hp _ _ Hin).
  - rewrite lifecycle_app in Hin. apply in_app_or in Hin. destruct Hin as [Hin | Hin].
    + left. symmetry. exact (Hone _ _ _ _ Hp _ _ Hin).
    + right. exact (IH _ _ Hin).
Qed.

(** What a connection receives is what the scripts of its phases
    submit. *)
Lemma statements_on_phase (n : ClientName) (c : Client) (S : Script) (t : list Event)
    (r : Completion unit) :
  in_phase R c S t r ->
  statements_on n t = [] \/
  (name_eqb n (client_name c) = true /\
   exists qs rb, S qs rb /\ statements_on n t = map fst qs).
Proof.
  intros H. destruct H as [ e | qs r Hs | qs r e Hs ].
  - left. reflexivity.
  - rewrite statements_on_closed_phase.
    destruct (name_eqb n (client_name c)); [ right; eauto | left; reflexivity ].
  - rewrite statements_on_closed_phase.
    destruct (name_eqb n (client_name c)); [ right; eauto | left; reflexivity ].
Qed.

Lemma every_phases_on (n : ClientName) (P : string -> Prop) (ls : list (Client * Script))
    (t : list Event) (r : Completion unit) :
  in_phases R ls t r ->
  Forall (fun cs => name_eqb n (client_name (fst cs)) = true -> every P (snd cs)) ls ->
  Forall P (statements_on n t).
Proof.
  assert (Hone : forall c S t r, in_phase R c S t r ->
            (name_eqb n (client_name c) = true -> every P S) ->
            Forall P (statements_on n t)).
  { intros c S t0 r0 Hp He.
    destruct (statements_on_phase n Hp) as [-> | (Hn & qs & rb & Hs & ->)];
      [ constructor | ].
    specialize (He Hn _ _ Hs). clear - He.
    induction He; cbn [map]; constructor; auto. }
  induction 1 as [ | c S rest t e Hp | c S rest t t' r Hp Hrest IH ]; intros Hall.
  - constructor.
  - inversion Hall; subst. eapply Hone; eauto.
  - inversion Hall; subst. rewrite statements_on_app. apply Forall_app. split.
    + eapply Hone; eauto.
    + apply IH. assumption.
Qed.

Lemma at_most_phases_on (n : ClientName) (f : string -> bool)
    (ls : list (Client * Script)) (ns : list nat) (t : list Event) (r : Completion unit) :
  in_phases R ls t r ->
  Forall2 (fun cs k => name_eqb n (client_name (fst cs)) = true -> at_most f k (snd cs))
          ls ns ->
  length (filter f (statements_on n t)) <= list_sum ns.
Proof.
  assert (Hone : forall c S t r k, in_phase R c S t r ->
            (name_eqb n (client_name c) = true -> at_most f k S) ->
            length (filter f (statements_on n t)) <= k).
  { intros c S t0 r0 k Hp Ha.
    destruct (statements_on_phase n Hp) as [-> | (Hn & qs & rb & Hs & ->)];
      [ apply Nat.le_0_l | exact (Ha Hn _ _ Hs) ]. }
  intros H. revert ns.
  induction H as [ | c S rest t e Hp | c S rest t t' r Hp Hrest IH ]; intros ns Hall.
  - apply Nat.le_0_l.
  - inversion Hall; subst. cbn [list_sum].
    eapply Nat.le_trans; [ eapply Hone; eauto | apply Nat.le_add_r ].
  - inversion Hall; subst. cbn [list_sum].
    rewrite statements_on_app, filter_app, List.length_app.
    apply Nat.add_le_mono; [ eapply Hone; eauto | apply IH; assumption ].
Qed.

(** A run that returns went through every phase of its plan; what it
    submitted on the CDC connections is the CDC role check, the creation
    of the role if the check found nothing, and the four CDC statements. *)
Lemma returned_run (env : Env) (w : W) (response : Response) :
  result (AfterPr.handler R env w) = Normal response ->
  exists p,
    result (AfterPr.resolve R env w) = Normal p /\
    response = AfterPr.answer p /\
    statements_on ServiceConn (events (AfterPr.handler R env w))
      = AfterPr.service_statements p /\
    (truthy (AfterPr.cdcUserSecret p) = false ->
       statements_on AdminConn (events (AfterPr.handler R env w)) = [] /\
       statements_on CdcDbConn (events (AfterPr.handler R env w)) = []) /\
    (truthy (AfterPr.cdcUserSecret p) = true ->
       (exists rest,
          statements_on AdminConn (events (AfterPr.handler R env w))
            = select_role_exists (AfterPr.cdcUsername p) :: rest /\
          (rest = [] \/
           rest = [create_user (AfterPr.cdcUsername p) (AfterPr.cdcPassword p)])) /\
       statements_on CdcDbConn (events (AfterPr.handler R env w))
         = AfterPr.cdc_statements p).
Proof.
  intros Hres.
  pose proof (handler_run R env w) as Hrun.
  pose proof (resolve_sends R env w) as Hs.
  destruct (result (AfterPr.resolve R env w)) as [p | e].
  2:{ destruct Hrun as [Hr _]. rewrite Hr in Hres. discriminate. }
  destruct Hrun as (t & r & Hp & Hev & Hr).
  rewrite Hr in Hres. destruct r as [ [] | e ]; [ | discriminate ].
  injection Hres as Hres.
  exists p. split; [ reflexivity | ]. split; [ auto | ].
  rewrite Hev. unfold AfterPr.phases, AfterPr.service_phases, AfterPr.cdc_phases in Hp.
  cbn [app] in Hp.
  apply in_phases_cons_normal in Hp. destruct Hp as (qs1 & t1 & Hs1 & Hp & ->).
  apply in_phases_cons_normal in Hp. destruct Hp as (qs2 & t2 & Hs2 & Hp & ->).
  apply straight_normal in Hs2.
  destruct (truthy (AfterPr.cdcUserSecret p)) eqn:Hcdc.
  - apply in_phases_cons_normal in Hp. destruct Hp as (qs3 & t3 & Hs3 & Hp & ->).
    apply in_phases_cons_normal in Hp. destruct Hp as (qs4 & t4 & Hs4 & Hp & ->).
    apply in_phases_nil_inv in Hp. destruct Hp as [-> _].
    apply straight_normal in Hs4.
    destruct (ensure_normal Hs3) as (rows & tl & -> & Htl).
    rewrite !statements_on_app, !statements_on_closed_phase, !(sends_statements_on _ Hs).
    cbn [name_eqb client_name AfterPr.mainConn AfterPr.serviceConn AfterPr.adminConn
           AfterPr.cdcDbConn new_Client app map fst statements_on].
    rewrite ?app_nil_r.
    split; [ exact Hs2 | ]. split; [ discriminate | ]. intros _.
    split; [ | exact Hs4 ].
    exists (map fst tl). split; [ reflexivity | ].
    destruct Htl as [ -> | (rows' & ->) ]; [ left | right ]; reflexivity.
  - apply in_phases_nil_inv in Hp. destruct Hp as [-> _].
    rewrite !statements_on_app, !statements_on_closed_phase, !(sends_statements_on _ Hs).
    cbn [name_eqb client_name AfterPr.mainConn AfterPr.serviceConn new_Client app
           statements_on].
    rewrite ?app_nil_r.
    split; [ exact Hs2 | ]. split; [ auto | discriminate ].
Qed.

End Returned.

(** ** Text that does not mention the CDC statements *)

Lemma prefix_nil (s : string) : String.prefix "" s = true.
Proof. destruct s; reflexivity. Qed.

(** A pattern cannot run across a character it does not contain. *)
Lemma prefix_app_blocked (pat a : string) (c : ascii) (rest : string) :
  has_char c pat = false ->
  String.prefix pat (a ++ String c rest) = String.prefix pat a.
Proof.
  revert a. induction pat as [ | p pat IH ]; intros a Hc.
  - rewrite !prefix_nil. reflexivity.
  - cbn [has_char] in Hc. apply orb_false_iff in Hc. destruct Hc as [Hp Hc].
    destruct a as [ | h a ]; cbn [append String.prefix].
    + destruct (ascii_dec p c) as [ -> | _ ]; [ | reflexivity ].
      rewrite Ascii.eqb_refl in Hp. discriminate.
    + destruct (ascii_dec p h); [ apply IH; exact Hc | reflexivity ].
Qed.

Lemma includes_app_blocked (pat x : string) (c : ascii) (rest : string) :
  has_char c pat = false ->
  includes pat (x ++ String c rest) = includes pat x || includes pat (String c rest).
Proof.
  intros Hc. induction x as [ | h x IH ].
  - cbn [append]. destruct pat as [ | p pat ]; [ reflexivity | ].
    cbn [includes String.prefix orb]. reflexivity.
  - change (String h x ++ String c rest) with (String h (x ++ String c rest)).
    cbn [includes].
    change (String h (x ++ String c rest)) with (String h x ++ String c rest).
    rewrite (@prefix_app_blocked pat (String h x) c rest Hc), IH.
    destruct (String.prefix pat (String h x)); reflexivity.
Qed.

Lemma includes_skip (pat a s : string) :
  includes pat s = true -> includes pat (a ++ s) = true.
Proof.
  intros H. induction a as [ | h a IH ]; [ exact H | ].
  change (String h a ++ s) with (String h (a ++ s)). cbn [includes].
  rewrite IH. destruct (String.prefix pat (String h (a ++ s))); reflexivity.
Qed.

Lemma prefix_app_inv (a b s : string) :
  String.prefix (a ++ b) s = true ->
  exists s', s = a ++ s' /\ String.prefix b s' = true.
Proof.
  revert s. induction a as [ | h a IH ]; intros s H.
  - exists s. auto.
  - destruct s as [ | c s ]; cbn [append String.prefix] in H; [ discriminate | ].
    destruct (ascii_dec h c) as [ -> | ]; [ | discriminate ].
    destruct (IH s H) as (s' & -> & Hb). exists s'. auto.
Qed.

Lemma includes_prefix (pat s : string) : String.prefix pat s = true -> includes pat s = true.
Proof. intros H. destruct s; cbn [includes]; rewrite H; reflexivity. Qed.

(** A text that contains [a ++ b] contains [b]. *)
Lemma includes_tail (a b s : string) :
  includes (a ++ b) s = true -> includes b s = true.
Proof.
  induction s as [ | c s IH ]; intros H.
  - cbn [includes] in H.
    destruct (String.prefix (a ++ b) "") eqn:Hp; [ | discriminate ].
    destruct (@prefix_app_inv a b "" Hp) as (s' & E & Hb).
    rewrite E. apply includes_skip, includes_prefix. exact Hb.
  - cbn [includes] in H.
    destruct (String.prefix (a ++ b) (String c s)) eqn:Hp.
    + destruct (@prefix_app_inv a b (String c s) Hp) as (s' & E & Hb).
      rewrite E. apply includes_skip, includes_prefix. exact Hb.
    + cbn [includes]. rewrite (IH H).
      destruct (String.prefix b (String c s)); reflexivity.
Qed.

Lemma not_mentions_cdc (s : string) :
  includes "rds_replication" s = false -> includes "PUBLICATION" s = false ->
  mentions_cdc s = false.
Proof.
  intros H1 H2. unfold mentions_cdc. rewrite H1. cbn [orb].
  destruct (includes "CREATE PUBLICATION" s) eqn:E; [ | reflexivity ].
  change "CREATE PUBLICATION" with ("CREATE " ++ "PUBLICATION") in E.
  apply includes_tail in E. congruence.
Qed.

Lemma plain_inv (s : string) :
  plain s = true ->
  includes "rds_replication" s = false /\ includes "PUBLICATION" s = false.
Proof.
  unfold plain. intros H. apply andb_true_iff in H. destruct H as [H1 H2].
  apply negb_true_iff in H1. apply negb_true_iff in H2. auto.
Qed.

(** Walks a statement: the fixed text is decided by computation, a
    configured name by its hypothesis, and no occurrence runs across the
    space or quote that follows a name. *)
Ltac walk_statement :=
  repeat first
    [ reflexivity
    | rewrite includes_app_blocked by reflexivity
    | match goal with
      | H : includes ?pat ?x = false |- context [includes ?pat ?x] => rewrite H
      end
    | progress cbn [orb]
    | progress simpl ].

Lemma service_statements_plain (env : Env) (p : AfterPr.Plan) :
  plain (AfterPr.database p) = true ->
  plain (toString (AfterPr.username p)) = true ->
  plain (toString (AfterPr.password p)) = true ->
  plain (toString (AfterPr.schema p)) = true ->
  Forall (fun cs => every (fun s => mentions_cdc s = false) (snd cs))
         (AfterPr.service_phases env p).
Proof.
  intros Hd Hu Hp Hs.
  apply plain_inv in Hd, Hu, Hp, Hs.
  destruct Hd as [Hd1 Hd2], Hu as [Hu1 Hu2], Hp as [Hp1 Hp2], Hs as [Hs1 Hs2].
  unfold AfterPr.service_phases, AfterPr.admin_script.
  repeat (apply Forall_cons; [ cbn [snd] | ]); try apply Forall_nil.
  - apply every_then; apply every_ensure; apply not_mentions_cdc;
      unfold select_database_exists, create_database, select_role_exists, create_user;
      walk_statement.
  - apply every_straight. unfold AfterPr.service_statements.
    repeat (apply Forall_cons; [ apply not_mentions_cdc | ]); try apply Forall_nil;
      unfold create_extension, grant_connect, grant_create, create_schema,
        revoke_public_schema, revoke_public_database, grant_schema,
        alter_default_privileges, grant_all, alter_owner;
      walk_statement.
Qed.

(** ** Errors surface *)

Section Errors.

Variable W : Type.
Variable R : Runtime W.







End Errors.

(** ** The CDC gate *)

Lemma get_optional_truthy (v : JsValue) (k : string) :
  truthy (get_optional v k) = true -> truthy v = true.
Proof. destruct v; simpl; intros H; try discriminate; reflexivity. Qed.

(** C1, as the code has it.  Call the CDC payload of a run the
    non-empty [SecretString] the store returned for [CDC_USER_SECRET],
    if that variable is set and not empty.  The gate of the CDC phase
    is open when there is a CDC payload and it parses to a truthy value,
    whatever fields that value has.

    - With the gate closed (no CDC payload, or one that parses to
      [null], [false], [0] or the empty string) no run ever connects to
      or submits a statement on the two CDC connections; a run that
      returns reports that CDC was skipped; with configured names that do
      not themselves spell those words no statement contains
      [rds_replication] or [CREATE PUBLICATION]; and once the secrets
      resolve, a run in which every call went well does return with
      that report.
    - With the gate open, a run that returns has checked (and, if
      absent, created) the CDC role on the second admin connection and
      submitted the CDC grants and the publication on the CDC
      connection, and its message is the ready message; once the
      secrets resolve, a run in which every call went well does return
      so.
    - With a CDC payload that does not parse, the run throws the parse
      error having only talked to the secret store.
    - Only with the gate open does a run ever connect to, submit a
      statement on or end one of the two CDC connections. *)
Theorem cdc_phase_gate (W : Type) (R : Runtime W) (env : Env) (w : W) :
  let o := AfterPr.handler R env w in
  (cdc_payload env (events o) = None \/
   (exists raw v, cdc_payload env (events o) = Some raw /\
                  JSON_parse R raw = Normal v /\ truthy v = false) ->
     statements_on AdminConn (events o) = [] /\
     statements_on CdcDbConn (events o) = [] /\
     (forall b, ~ In (AdminConn, b) (lifecycle (events o))) /\
     (forall b, ~ In (CdcDbConn, b) (lifecycle (events o))) /\
     (forall response, result o = Normal response -> message response = skip_message) /\
     (forall p, result (AfterPr.resolve R env w) = Normal p ->
        plain (AfterPr.database p) = true ->
        plain (toString (AfterPr.username p)) = true ->
        plain (toString (AfterPr.password p)) = true ->
        plain (toString (AfterPr.schema p)) = true ->
        Forall (fun s => mentions_cdc s = false) (statements (events o))) /\
     (forall p, result (AfterPr.resolve R env w) = Normal p ->
        unfailing (events o) = true ->
        result o = Normal {| message := skip_message |})) /\
  (forall raw v,
     cdc_payload env (events o) = Some raw -> JSON_parse R raw = Normal v ->
     truthy v = true ->
     (forall response, result o = Normal response ->
        exists p rest,
          result (AfterPr.resolve R env w) = Normal p /\
          AfterPr.cdcUserSecret p = v /\
          statements_on AdminConn (events o)
            = select_role_exists (get_optional v "username") :: rest /\
          (rest = [] \/
           rest = [create_user (get_optional v "username") (get_optional v "password")]) /\
          statements_on CdcDbConn (events o)
            = [ grant_connect (AfterPr.database p) (get_optional v "username");
                grant_select (AfterPr.schema p) (get_optional v "username");
                grant_replication (get_optional v "username");
                create_publication ] /\
          message response = ready_message (AfterPr.database p) (AfterPr.usrMsg p)) /\
     (forall p, result (AfterPr.resolve R env w) = Normal p ->
        unfailing (events o) = true ->
        result o =
          Normal {| message := ready_message (AfterPr.database p) (AfterPr.usrMsg p) |})) /\
  (forall raw e,
     cdc_payload env (events o) = Some raw -> JSON_parse R raw = Throw e ->
     result o = Throw e /\ Forall is_send (events o)) /\
  (statements_on AdminConn (events o) <> [] \/
   statements_on CdcDbConn (events o) <> [] \/
   (exists b, In (AdminConn, b) (lifecycle (events o))) \/
   (exists b, In (CdcDbConn, b) (lifecycle (events o))) ->
   exists raw v, cdc_payload env (events o) = Some raw /\
                 JSON_parse R raw = Normal v /\ truthy v = true).
Proof.
  intros o. subst o.
  pose proof (resolve_cdc_payload R env w) as Hcdc.
  rewrite <- handler_cdc_payload in Hcdc.
  pose proof (handler_run R env w) as Hrun.
  pose proof (resolve_sends R env w) as Hsends.
  assert (Hclosed :
    (forall p, result (AfterPr.resolve R env w) = Normal p ->
               truthy (AfterPr.cdcUserSecret p) = false) ->
    statements_on AdminConn (events (AfterPr.handler R env w)) = [] /\
    statements_on CdcDbConn (events (AfterPr.handler R env w)) = [] /\
    (forall b, ~ In (AdminConn, b) (lifecycle (events (AfterPr.handler R env w)))) /\
    (forall b, ~ In (CdcDbConn, b) (lifecycle (events (AfterPr.handler R env w)))) /\
    (forall response, result (AfterPr.handler R env w) = Normal response ->
       message response = skip_message) /\
    (forall p, result (AfterPr.resolve R env w) = Normal p ->
       plain (AfterPr.database p) = true ->
       plain (toString (AfterPr.username p)) = true ->
       plain (toString (AfterPr.password p)) = true ->
       plain (toString (AfterPr.schema p)) = true ->
       Forall (fun s => mentions_cdc s = false)
              (statements (events (AfterPr.handler R env w)))) /\
    (forall p, result (AfterPr.resolve R env w) = Normal p ->
       unfailing (events (AfterPr.handler R env w)) = true ->
       result (AfterPr.handler R env w) = Normal {| message := skip_message |})).
  { intros Hfalsy.
    assert (Hphases : forall p, result (AfterPr.resolve R env w) = Normal p ->
              AfterPr.phases env p = AfterPr.service_phases env p /\
              AfterPr.answer p = {| message := skip_message |}).
    { intros p Hp. unfold AfterPr.phases, AfterPr.answer.
      rewrite (Hfalsy p Hp). rewrite app_nil_r. auto. }
    assert (Hother : forall n, n = AdminConn \/ n = CdcDbConn ->
              statements_on n (events (AfterPr.handler R env w)) = [] /\
              forall b, ~ In (n, b) (lifecycle (events (AfterPr.handler R env w)))).
    { intros n Hn.
      destruct (result (AfterPr.resolve R env w)) as [p | e].
      - destruct Hrun as (t & r & Hp & Hev & _).
        destruct (Hphases p eq_refl) as [Eph _]. rewrite Eph in Hp.
        assert (Hnot : ~ In n (map (fun cs => client_name (fst cs))
                                   (AfterPr.service_phases env p)))
          by (destruct Hn as [-> | ->]; simpl; intuition discriminate).
        rewrite Hev, statements_on_app, (sends_statements_on _ Hsends), lifecycle_app,
          (lifecycle_quiet (sends_quiet Hsends)).
        cbn [app]. split; [ apply (statements_on_phases_other n Hp Hnot) | ].
        intros b Hin. apply Hnot. exact (lifecycle_phases_names Hp _ _ Hin).
      - destruct Hrun as [_ Hev]. rewrite Hev.
        split; [ apply sends_statements_on; exact Hsends | ].
        rewrite (lifecycle_quiet (sends_quiet Hsends)). intros b []. }
    split; [ apply Hother; auto | ]. split; [ apply Hother; auto | ].
    split; [ apply Hother; auto | ]. split; [ apply Hother; auto | ].
    split; [ | split ].
    + intros response Hres.
      destruct (returned_run R env w Hres) as (p & Hp & -> & _).
      destruct (Hphases p Hp) as [_ ->]. reflexivity.
    + intros p Hp Hd Hu Hpw Hs.
      apply handler_statements. intros p' Hp'.
      assert (p' = p) by congruence. subst p'.
      destruct (Hphases p Hp) as [-> _].
      apply service_statements_plain; assumption.
    + intros p Hp Hwell. rewrite (unfailing_handler R env w Hp Hwell).
      destruct (Hphases p Hp) as [_ ->]. reflexivity. }
  split; [ | split; [ | split ] ].
  - intros [Hnone | (raw & v & Hsome & Hparse & Hv)]; apply Hclosed; intros p Hp.
    + rewrite Hnone in Hcdc. rewrite (Hcdc p Hp). reflexivity.
    + rewrite Hsome, Hparse in Hcdc. rewrite (Hcdc p Hp). exact Hv.
  - intros raw v Hsome Hparse Ht. rewrite Hsome, Hparse in Hcdc.
    split.
    + intros response Hres.
      destruct (returned_run R env w Hres) as (p & Hp & -> & _ & _ & Hran).
      pose proof (Hcdc p Hp) as Ev.
      assert (Ht' : truthy (AfterPr.cdcUserSecret p) = true) by (rewrite Ev; exact Ht).
      destruct (Hran Ht') as ((rest & Eadmin & Hrest) & Ecdc).
      unfold AfterPr.cdc_statements, AfterPr.cdcUsername, AfterPr.cdcPassword in *.
      rewrite Ev in Eadmin, Hrest, Ecdc.
      exists p, rest. repeat split; auto.
      unfold AfterPr.answer. rewrite Ht'. reflexivity.
    + intros p Hp Hwell. rewrite (unfailing_handler R env w Hp Hwell).
      unfold AfterPr.answer. rewrite (Hcdc p Hp), Ht. reflexivity.
  - intros raw e Hsome Hparse. rewrite Hsome, Hparse in Hcdc.
    rewrite Hcdc in Hrun. destruct Hrun as [Hr Hev].
    split; [ exact Hr | rewrite Hev; exact Hsends ].
  - intros Htouch.
    assert (Huntouched :
      statements_on AdminConn (events (AfterPr.handler R env w)) = [] /\
      statements_on CdcDbConn (events (AfterPr.handler R env w)) = [] /\
      (forall b, ~ In (AdminConn, b) (lifecycle (events (AfterPr.handler R env w)))) /\
      (forall b, ~ In (CdcDbConn, b) (lifecycle (events (AfterPr.handler R env w)))) ->
      False).
    { intros (Ha & Hb & Hc & Hd).
      destruct Htouch as [Habs | [Habs | [(b & Habs) | (b & Habs)]]];
        [ exact (Habs Ha) | exact (Habs Hb) | exact (Hc b Habs) | exact (Hd b Habs) ]. }
    destruct (cdc_payload env (events (AfterPr.handler R env w))) as [raw | ] eqn:Hpay.
    + destruct (JSON_parse R raw) as [v | e] eqn:Hparse.
      * destruct (truthy v) eqn:Hv; [ eauto | exfalso ].
        apply Huntouched.
        destruct Hclosed as (Ha & Hb & Hc & Hd & _); [ | auto ].
        intros p Hp. rewrite (Hcdc p Hp). exact Hv.
      * exfalso. rewrite Hcdc in Hrun. destruct Hrun as [_ Hev].
        apply Huntouched. rewrite Hev.
        rewrite !(sends_statements_on _ Hsends), (lifecycle_quiet (sends_quiet Hsends)).
        repeat split; intros b [].
    + exfalso. apply Huntouched.
      destruct Hclosed as (Ha & Hb & Hc & Hd & _); [ | auto ].
      intros p Hp. rewrite (Hcdc p Hp). reflexivity.
Qed.

Lemma cdc_phase_gate_witness :
  let env := Stub.env (Some "cdc-test") (Some "app_database") (Some "app_schema") in
  let open :=
    AfterPr.handler
      (Stub.runtime (Stub.secrets (Some (Stub.credentials_json "cdc_user" "cdc_password")))
                    Faulty.no_rows_for_ddl) env tt in
  let closed :=
    AfterPr.handler
      (Faulty.parsing_null (Stub.runtime (Stub.secrets (Some "null")) Faulty.no_rows_for_ddl))
      env tt in
  result open =
    Normal {| message := "Database 'app_database' for username(s) 'myapp_user & cdc_user' is ready for use!" |} /\
  statements_on CdcDbConn (events open)
    = [ "GRANT CONNECT ON DATABASE app_database TO cdc_user";
        "GRANT SELECT ON ALL TABLES IN SCHEMA app_schema TO cdc_user";
        "GRANT rds_replication, rds_superuser TO cdc_user";
        "CREATE PUBLICATION IF NOT EXISTS cdc_publication FOR ALL TABLES" ] /\
  result closed =
    Normal {| message := "CDC_USER_SECRET not set; skipping CDC user/publication setup." |} /\
  statements_on AdminConn (events closed) = [] /\
  statements_on CdcDbConn (events closed) = [].
Proof.
  intros env open closed.
  destruct (@cdc_phase_gate unit
              (Stub.runtime
                 (Stub.secrets (Some (Stub.credentials_json "cdc_user" "cdc_password")))
                 Faulty.no_rows_for_ddl) env tt) as (_ & Hopen & _).
  destruct (Hopen (Stub.credentials_json "cdc_user" "cdc_password")
                  (Stub.credentials "cdc_user" "cdc_password") eq_refl eq_refl eq_refl)
    as [_ Hreturns].
  destruct (@cdc_phase_gate unit
              (Faulty.parsing_null
                 (Stub.runtime (Stub.secrets (Some "null")) Faulty.no_rows_for_ddl))
              env tt) as (Hclosed & _).
  destruct Hclosed as (Hadmin & Hcdc & _ & _ & _ & _ & Hskips).
  { right. exists "null", JNull. repeat split. }
  split.
  { apply (Hreturns {| AfterPr.mainUser := JStr "admin_user";
                       AfterPr.mainPassword := JStr "admin_password";
                       AfterPr.username := JStr "myapp_user";
                       AfterPr.password := JStr "myapp_password";
                       AfterPr.database := "app_database";
                       AfterPr.schema := JStr "app_schema";
                       AfterPr.cdcUserSecret := Stub.credentials "cdc_user" "cdc_password" |});
      reflexivity. }
  split; [ reflexivity | ].
  split.
  { apply (Hskips {| AfterPr.mainUser := JStr "admin_user";
                     AfterPr.mainPassword := JStr "admin_password";
                     AfterPr.username := JStr "myapp_user";
                     AfterPr.password := JStr "myapp_password";
                     AfterPr.database := "app_database";
                     AfterPr.schema := JStr "app_schema";
                     AfterPr.cdcUserSecret := JNull |});
      reflexivity. }
  split; [ exact Hadmin | exact Hcdc ].
Defined.

(** C1, as the specification words it, fails: with [CDC_USER_SECRET]
    set and a payload that is not JSON the gate of the claim is closed,
    yet the run does not complete with a report that CDC was skipped; it
    throws the parse error before any connection is opened. *)
Lemma malformed_cdc_payload_is_fatal :
  let R := Stub.runtime (Stub.secrets (Some "{invalid-json")) Stub.empty_row in
  let env := Stub.env (Some "cdc-test") (Some "app_database") (Some "app_schema") in
  let o := AfterPr.handler R env tt in
  cdc_payload env (events o) = Some "{invalid-json" /\
  JSON_parse R "{invalid-json" = Throw (SyntaxError "Unexpected token in JSON") /\
  result o = Throw (SyntaxError "Unexpected token in JSON") /\
  statements (events o) = [] /\
  lifecycle (events o) = [].
Proof. repeat split. Qed.

(** ** The result of a run *)




(** ** A CDC secret without fields *)

(** C10. When the CDC payload parses to an object with neither a
    [username] nor a [password], the CDC phase still runs in full: a run
    that returns has checked the role [undefined] on the second admin
    connection and submitted the four CDC statements for [undefined] on
    the CDC connection, and its message lists the service username only,
    the missing CDC username having been filtered out; and the run does
    return whenever no collaborator fails. *)
Theorem cdc_phase_runs_for_undefined_role
    (W : Type) (R : Runtime W) (env : Env) (w : W)
    (raw : string) (props : list (string * JsValue)) (p : AfterPr.Plan) :
  let o := AfterPr.handler R env w in
  cdc_payload env (events o) = Some raw ->
  JSON_parse R raw = Normal (JObj props) ->
  assoc "username" props = None ->
  assoc "password" props = None ->
  result (AfterPr.resolve R env w) = Normal p ->
  (healthy R ->
     result o =
       Normal {| message := ready_message (AfterPr.database p)
                              (join " & " (filter truthy [AfterPr.username p])) |}) /\
  (forall response, result o = Normal response ->
     (exists rest,
        statements_on AdminConn (events o)
          = "SELECT exists(SELECT FROM pg_roles WHERE rolname='undefined')" :: rest /\
        (rest = [] \/
         rest = ["CREATE USER undefined WITH ENCRYPTED PASSWORD 'undefined'"])) /\
     statements_on CdcDbConn (events o)
       = [ "GRANT CONNECT ON DATABASE " ++ AfterPr.database p ++ " TO undefined";
           "GRANT SELECT ON ALL TABLES IN SCHEMA " ++ toString (AfterPr.schema p)
             ++ " TO undefined";
           "GRANT rds_replication, rds_superuser TO undefined";
           "CREATE PUBLICATION IF NOT EXISTS cdc_publication FOR ALL TABLES" ] /\
     message response =
       ready_message (AfterPr.database p)
         (join " & " (filter truthy [AfterPr.username p])) /\
     (truthy (AfterPr.username p) = true ->
      message response = ready_message (AfterPr.database p) (toString (AfterPr.username p)))).
Proof.
  intros o Hsome Hparse Hu Hpw Hp. subst o.
  pose proof (resolve_cdc_payload R env w) as Hcdc.
  rewrite <- handler_cdc_payload, Hsome, Hparse in Hcdc.
  pose proof (Hcdc p Hp) as Ev.
  assert (Ht : truthy (AfterPr.cdcUserSecret p) = true) by (rewrite Ev; reflexivity).
  assert (Ename : AfterPr.cdcUsername p = JUndefined).
  { unfold AfterPr.cdcUsername. rewrite Ev. cbn [get_optional]. rewrite Hu. reflexivity. }
  assert (Epass : AfterPr.cdcPassword p = JUndefined).
  { unfold AfterPr.cdcPassword. rewrite Ev. cbn [get_optional]. rewrite Hpw. reflexivity. }
  assert (Emsg : AfterPr.answer p =
                 {| message := ready_message (AfterPr.database p)
                                 (join " & " (filter truthy [AfterPr.username p])) |}).
  { unfold AfterPr.answer, AfterPr.usrMsg. rewrite Ht, Ename. cbn [filter truthy].
    destruct (truthy (AfterPr.username p)); reflexivity. }
  split.
  - intros Hh. rewrite (healthy_handler Hh env w Hp), Emsg. reflexivity.
  - intros response Hres.
    destruct (returned_run R env w Hres) as (p' & Hp' & -> & _ & _ & Hran).
    assert (p' = p) by congruence. subst p'.
    destruct (Hran Ht) as ((rest & Eadmin & Hrest) & Ecdc).
    unfold AfterPr.cdc_statements in Ecdc.
    rewrite Ename in Eadmin, Hrest, Ecdc. rewrite Epass in Hrest.
    split; [ exists rest; split; [ exact Eadmin | exact Hrest ] | ].
    split; [ exact Ecdc | ].
    rewrite Emsg. split; [ reflexivity | ].
    intros Htu. cbn [message filter]. rewrite Htu. reflexivity.
Qed.

Lemma cdc_phase_runs_for_undefined_role_witness :
  let R := Stub.runtime (Stub.secrets (Some "{}")) Stub.empty_row in
  let env := Stub.env (Some "cdc-test") None None in
  let o := AfterPr.handler R env tt in
  result o =
    Normal {| message := "Database 'myapp' for username(s) 'myapp_user' is ready for use!" |} /\
  (exists rest,
     statements_on AdminConn (events o)
       = "SELECT exists(SELECT FROM pg_roles WHERE rolname='undefined')" :: rest /\
     (rest = [] \/
      rest = ["CREATE USER undefined WITH ENCRYPTED PASSWORD 'undefined'"])) /\
  statements_on CdcDbConn (events o)
    = [ "GRANT CONNECT ON DATABASE myapp TO undefined";
        "GRANT SELECT ON ALL TABLES IN SCHEMA myapp_user TO undefined";
        "GRANT rds_replication, rds_superuser TO undefined";
        "CREATE PUBLICATION IF NOT EXISTS cdc_publication FOR ALL TABLES" ].
Proof.
  intros R env o.
  assert (Hhealthy : healthy R).
  { split; [ reflexivity | ]. split; [ reflexivity | ].
    intros c s w. exists [], []. reflexivity. }
  destruct (@cdc_phase_runs_for_undefined_role unit R env tt "{}" []
              {| AfterPr.mainUser := JStr "admin_user";
                 AfterPr.mainPassword := JStr "admin_password";
                 AfterPr.username := JStr "myapp_user";
                 AfterPr.password := JStr "myapp_password";
                 AfterPr.database := "myapp";
                 AfterPr.schema := JStr "myapp_user";
                 AfterPr.cdcUserSecret := JObj [] |}
              eq_refl eq_refl eq_refl eq_refl eq_refl) as [Hreturns Hran].
  split; [ exact (Hreturns Hhealthy) | ].
  destruct (Hran _ (Hreturns Hhealthy)) as (Hadmin & Hcdc & _).
  split; [ exact Hadmin | exact Hcdc ].
Defined.

(** ** The order of the service statements *)

Section OriginalStatements.

Variable W : Type.
Variable R : Runtime W.


End OriginalStatements.

(** C3 fails on [src/bootstrap_after_pr.ts]: a run that returns has
    submitted exactly eleven statements on the service connection, the
    first of which creates the [pg_trgm] extension in a schema that no
    statement has created yet; [CREATE SCHEMA] comes fifth and only
    once. *)
Theorem after_pr_service_statements
    (W : Type) (R : Runtime W) (env : Env) (w : W) :
  forall response, result (AfterPr.handler R env w) = Normal response ->
  exists p,
    result (AfterPr.resolve R env w) = Normal p /\
    statements_on ServiceConn (events (AfterPr.handler R env w))
      = [ create_extension "pg_trgm" (AfterPr.schema p);
          create_extension "intarray" (AfterPr.schema p);
          grant_connect (AfterPr.database p) (AfterPr.username p);
          grant_create (AfterPr.database p) (AfterPr.username p);
          create_schema (AfterPr.schema p);
          revoke_public_schema;
          revoke_public_database (AfterPr.database p);
          grant_schema (AfterPr.schema p) (AfterPr.username p);
          alter_default_privileges (AfterPr.schema p) (AfterPr.username p);
          grant_all (AfterPr.database p) (AfterPr.username p);
          alter_owner (AfterPr.database p) (AfterPr.username p) ].
Proof.
  intros response Hres.
  destruct (returned_run R env w Hres) as (p & Hp & _ & Hsvc & _).
  exists p. split; [ exact Hp | exact Hsvc ].
Qed.

(** The same run through both handlers: [src/bootstrap.ts] starts the
    service connection with [CREATE SCHEMA], [src/bootstrap_after_pr.ts]
    with [CREATE EXTENSION]. *)
Lemma service_statements_of_both_handlers :
  let R := Stub.runtime (Stub.secrets (Some (Stub.credentials_json "cdc_user" "cdc_password")))
                        Stub.empty_row in
  let env := Stub.env (Some "cdc-test") (Some "app_database") (Some "app_schema") in
  statements_on ServiceConn (events (Original.handler R env tt))
    = [ "CREATE SCHEMA IF NOT EXISTS app_schema";
        "CREATE EXTENSION IF NOT EXISTS pg_trgm SCHEMA app_schema CASCADE";
        "CREATE EXTENSION IF NOT EXISTS intarray SCHEMA app_schema CASCADE";
        "GRANT CONNECT ON DATABASE app_database TO myapp_user";
        "GRANT CREATE ON DATABASE app_database TO myapp_user";
        "CREATE SCHEMA IF NOT EXISTS app_schema";
        "REVOKE CREATE ON SCHEMA public FROM PUBLIC";
        "REVOKE ALL ON DATABASE app_database FROM PUBLIC";
        "GRANT USAGE, CREATE ON SCHEMA app_schema TO myapp_user";
        "ALTER DEFAULT PRIVILEGES IN SCHEMA app_schema GRANT ALL PRIVILEGES ON TABLES TO myapp_user";
        "GRANT ALL PRIVILEGES on DATABASE app_database to myapp_user";
        "ALTER DATABASE app_database OWNER TO myapp_user" ] /\
  statements_on ServiceConn (events (AfterPr.handler R env tt))
    = [ "CREATE EXTENSION IF NOT EXISTS pg_trgm SCHEMA app_schema CASCADE";
        "CREATE EXTENSION IF NOT EXISTS intarray SCHEMA app_schema CASCADE";
        "GRANT CONNECT ON DATABASE app_database TO myapp_user";
        "GRANT CREATE ON DATABASE app_database TO myapp_user";
        "CREATE SCHEMA IF NOT EXISTS app_schema";
        "REVOKE CREATE ON SCHEMA public FROM PUBLIC";
        "REVOKE ALL ON DATABASE app_database FROM PUBLIC";
        "GRANT USAGE, CREATE ON SCHEMA app_schema TO myapp_user";
        "ALTER DEFAULT PRIVILEGES IN SCHEMA app_schema GRANT ALL PRIVILEGES ON TABLES TO myapp_user";
        "GRANT ALL PRIVILEGES on DATABASE app_database to myapp_user";
        "ALTER DATABASE app_database OWNER TO myapp_user" ].
Proof. split; reflexivity. Qed.

Lemma after_pr_service_statements_witness :
  let R := Stub.runtime (Stub.secrets None) Stub.empty_row in
  let env := Stub.env None (Some "app_database") (Some "app_schema") in
  exists p,
    result (AfterPr.resolve R env tt) = Normal p /\
    statements_on ServiceConn (events (AfterPr.handler R env tt))
      = [ create_extension "pg_trgm" (AfterPr.schema p);
          create_extension "intarray" (AfterPr.schema p);
          grant_connect (AfterPr.database p) (AfterPr.username p);
          grant_create (AfterPr.database p) (AfterPr.username p);
          create_schema (AfterPr.schema p);
          revoke_public_schema;
          revoke_public_database (AfterPr.database p);
          grant_schema (AfterPr.schema p) (AfterPr.username p);
          alter_default_privileges (AfterPr.schema p) (AfterPr.username p);
          grant_all (AfterPr.database p) (AfterPr.username p);
          alter_owner (AfterPr.database p) (AfterPr.username p) ].
Proof.
  intros R env.
  apply (@after_pr_service_statements unit R env tt {| message := skip_message |}).
  reflexivity.
Defined.

(** * Further properties of the handlers *)

(** ** The shape of a run of [src/PT_bootstrap_v2.ts] *)

Section PTRun.

Variable W : Type.
Variable R : Runtime W.

Lemma bind_ret_tt (m : M W unit) : same (m ;; ret tt) m.
Proof.
  intro w. unfold bind, ret.
  destruct (m w) as [[[[] | e] w1] t1]; [ rewrite app_nil_r | ]; reflexivity.
Qed.

(** Nothing runs after a throw. *)
Lemma bind_throw {A B : Type} (e : Exn) (f : A -> M W B) :
  same (bind (lift (Throw e)) f) (lift (Throw e)).
Proof. intro w. reflexivity. Qed.

Lemma bind_after_throw {A B : Type} (m : M W A) (f g : A -> M W B) :
  (forall w, exists e, result (m w) = Throw e) -> same (bind m f) (bind m g).
Proof.
  intros H w. unfold bind. destruct (H w) as [e He]. unfold result in He.
  destruct (m w) as [[[a | e'] w1] t1]; [ discriminate | reflexivity ].
Qed.

(** The first [try] block never completes normally. *)
Lemma pt_admin_throws (env : Env) (p : PT.Plan) (fin : M W unit) (w : W) :
  exists e, result (try_finally (PT.admin_body R env p) fin w) = Throw e.
Proof.
  unfold try_finally, PT.admin_body, bind, lift, result.
  destruct (ensure_body R (PT.mainConn env p) _ _ w) as [[[[] | e] w1] t1];
    destruct (fin w1) as [[[[] | e'] w2] t2]; cbn [fst]; eauto.
Qed.

Lemma pt_staged (env : Env) : same (PT.handler R env) (PT.staged R env).
Proof.
  unfold PT.handler, PT.staged, PT.resolve.
  do 9 assoc_step.
  ret_r.
  unfold PT.bodies. cbn [run_phases fold_right fst snd]. unfold phase.
  reassoc.
  apply bind_same; [ apply same_refl | intros _ ].
  eapply same_trans; [ | apply bind_after_throw; intro w; apply pt_admin_throws ].
  apply bind_same; [ | intros u; apply same_refl ].
  apply try_finally_same.
  unfold PT.admin_body, ensure_body.
  do 2 assoc_step.
  apply bind_same; [ apply same_refl | intros _ ].
  apply bind_throw.
Qed.

Lemma obeys_halt (c : Client) (e : Exn) : obeys R c (lift (Throw e)) (halt e).
Proof. intro w. exists []. split; [ reflexivity | constructor ]. Qed.

Lemma pt_bodies_obey (env : Env) (p : PT.Plan) :
  Forall2 (fun cb cs => fst cb = fst cs /\ obeys R (fst cb) (snd cb) (snd cs))
          (PT.bodies R env p) (PT.phases env p).
Proof.
  unfold PT.bodies, PT.phases, PT.admin_body, PT.admin_script.
  repeat (constructor; cbn [fst snd]).
  apply obeys_then; [ apply obeys_ensure | apply obeys_halt ].
Qed.

Lemma pt_resolve_sends (env : Env) (w : W) :
  Forall is_send (events (PT.resolve R env w)).
Proof.
  unfold PT.resolve, AfterPr.resolve_cdc.
  repeat (apply bind_Forall; [ | intros ]);
    try apply send_is_send; try (constructor; fail).
  destruct (truthy (js_of (CDC_USER_SECRET env))); [ | constructor ].
  apply bind_Forall; [ apply send_is_send | intros ].
  match goal with
  | |- context [truthy (js_of ?raw)] => destruct (truthy (js_of raw)); constructor
  end.
Qed.

(** Every run: the secrets are resolved; if that throws, so does the
    handler, having done nothing else; otherwise the one phase of the
    plan follows and the handler completes as it does. *)
Lemma pt_run (env : Env) (w : W) :
  match result (PT.resolve R env w) with
  | Throw e =>
      result (PT.handler R env w) = Throw e /\
      events (PT.handler R env w) = events (PT.resolve R env w)
  | Normal p =>
      exists t,
        in_phases R (PT.phases env p) t (result (PT.handler R env w)) /\
        events (PT.handler R env w) = (events (PT.resolve R env w) ++ t)%list
  end.
Proof.
  rewrite pt_staged. unfold PT.staged. rewrite bind_run.
  destruct (result (PT.resolve R env w)) as [p | e]; cbn [result events fst snd].
  2:{ split; reflexivity. }
  eexists. split; [ | reflexivity ].
  apply (run_phases_spec (pt_bodies_obey env p)).
Qed.

End PTRun.

(** ** Runs in stages *)

(** All three handlers run in two stages: they fetch secrets, then go
    through phases.  What follows holds of any trace [a ++ t] of that
    shape. *)
Section Stages.

Variable W : Type.
Variable R : Runtime W.

Lemma session_exchanges (c : Client) (qs : list Exchange) :
  Forall exchange_event (session R c qs).
Proof.
  induction qs as [ | q qs IH ]; [ constructor | ].
  cbn [session flat_map exchange app]. repeat constructor. exact IH.
Qed.

Lemma closed_phase_edge (c : Client) (S : Script) (qs : list Exchange)
    (rb fin : Completion unit) (pre : list Event) (ev : Event) (post : list Event) :
  S qs rb ->
  (EvConnect c (Normal tt) :: session R c qs ++ [EvEnd c fin])%list
    = (pre ++ ev :: post)%list ->
  ~ exchange_event ev ->
  (pre = [] /\ exists rc, ev = EvConnect c rc /\
     (forall e, rc = Throw e ->
        post = [] /\
        match fin with Normal _ => rb | Throw e' => Throw e' end = Throw e)) \/
  (post = [] /\ exists qs' rb' fin',
     S qs' rb' /\ pre = EvConnect c (Normal tt) :: session R c qs' /\
     ev = EvEnd c fin' /\
     match fin with Normal _ => rb | Throw e' => Throw e' end
       = match fin' with Normal _ => rb' | Throw e => Throw e end).
Proof.
  intros Hs E Hev.
  destruct pre as [ | x pre ]; cbn [app] in E.
  { injection E as Eev _. left. split; [ reflexivity | ].
    exists (Normal tt). split; [ auto | discriminate ]. }
  injection E as Ex E. right.
  apply app_eq_app in E. destruct E as (l & [[E1 E2] | [E1 E2]]).
  - destruct l as [ | y l ]; cbn [app] in E2.
    + injection E2 as Eev Epost. rewrite app_nil_r in E1.
      split; [ auto | ]. exists qs, rb, fin. subst. auto.
    + injection E2 as Ey El. exfalso. apply Hev.
      pose proof (session_exchanges c qs) as Hq. rewrite E1 in Hq.
      apply Forall_app in Hq. destruct Hq as [_ Hq].
      inversion Hq; subst. assumption.
  - destruct l as [ | y l ]; cbn [app] in E2.
    + injection E2 as Eev Epost. rewrite app_nil_r in E1.
      split; [ auto | ]. exists qs, rb, fin. subst. auto.
    + injection E2 as _ El. destruct l; discriminate El.
Qed.

(** A call other than [query]'s two sits at an end of a phase. *)
Lemma in_phase_edge (c : Client) (S : Script) (tp : list Event) (rp : Completion unit)
    (pre : list Event) (ev : Event) (post : list Event) :
  in_phase R c S tp rp ->
  tp = (pre ++ ev :: post)%list ->
  ~ exchange_event ev ->
  (pre = [] /\ exists rc, ev = EvConnect c rc /\
     (forall e, rc = Throw e -> post = [] /\ rp = Throw e)) \/
  (post = [] /\ exists qs rb fin,
     S qs rb /\ pre = EvConnect c (Normal tt) :: session R c qs /\ ev = EvEnd c fin /\
     rp = match fin with Normal _ => rb | Throw e => Throw e end).
Proof.
  intros Hp E Hev.
  destruct Hp as [ e | qs r Hs | qs r e Hs ].
  - left. destruct pre as [ | x pre ]; cbn [app] in E.
    + injection E as Eev Epost. split; [ reflexivity | ].
      exists (Throw e). split; [ auto | ].
      intros e' [= <-]. subst. auto.
    + injection E as _ E. destruct pre; discriminate E.
  - exact (@closed_phase_edge c S qs r (Normal tt) pre ev post Hs E Hev).
  - exact (@closed_phase_edge c S qs r (Throw e) pre ev post Hs E Hev).
Qed.

(** Where such a call sits in a run of phases. *)
Lemma in_phases_edge (ls : list (Client * Script)) (t : list Event)
    (r : Completion unit) (pre : list Event) (ev : Event) (post : list Event) :
  in_phases R ls t r ->
  t = (pre ++ ev :: post)%list ->
  ~ exchange_event ev ->
  exists ls1 c S ls2 t1,
    ls = (ls1 ++ (c, S) :: ls2)%list /\
    in_phases R ls1 t1 (Normal tt) /\
    ((pre = t1 /\ exists rc, ev = EvConnect c rc /\
        (forall e, rc = Throw e -> post = [] /\ r = Throw e)) \/
     (exists qs rb fin,
        S qs rb /\ pre = (t1 ++ EvConnect c (Normal tt) :: session R c qs)%list /\
        ev = EvEnd c fin /\
        (forall e, match fin with Normal _ => rb | Throw e' => Throw e' end = Throw e ->
                   post = [] /\ r = Throw e) /\
        (match fin with Normal _ => rb | Throw e' => Throw e' end = Normal tt ->
         in_phases R ls2 post r))).
Proof.
  intros H. revert pre post.
  induction H as [ | c S rest t e Hp | c S rest t t' r Hp Hrest IH ]; intros pre post E Hev.
  - destruct pre; discriminate.
  - destruct (@in_phase_edge _ _ _ _ _ _ _ Hp E Hev)
      as [(Epre & rc & Eev & Hrc) | (Epost & qs & rb & fin & Hs & Epre & Eev & Er)].
    + exists [], c, S, rest, []. split; [ reflexivity | ].
      split; [ constructor | ]. left. split; [ auto | ]. exists rc. auto.
    + exists [], c, S, rest, []. split; [ reflexivity | ].
      split; [ constructor | ]. right. exists qs, rb, fin.
      split; [ exact Hs | ]. split; [ exact Epre | ]. split; [ exact Eev | ].
      rewrite <- Er. split; [ intros e' [= <-]; auto | discriminate ].
  - apply app_eq_app in E. destruct E as (l & [[E1 E2] | [E1 E2]]).
    + destruct l as [ | x l ]; cbn [app] in E2.
      * rewrite app_nil_r in E1. subst pre.
        destruct (IH [] post (eq_sym E2) Hev)
          as (ls1 & c' & S' & ls2 & t1 & Els & H1 & Hcase).
        exists ((c, S) :: ls1), c', S', ls2, (t ++ t1)%list.
        split; [ rewrite Els; reflexivity | ].
        split; [ apply phases_go; assumption | ].
        destruct Hcase as [(Epre & Hc) | (qs & rb & fin & Hs & Epre & Hrest')].
        -- left. subst t1. rewrite app_nil_r. auto.
        -- destruct t1; discriminate.
      * injection E2 as Ex El. subst x.
        destruct (@in_phase_edge _ _ _ _ _ _ _ Hp E1 Hev)
          as [(Epre & rc & Eev & Hrc) | (Epost & qs & rb & fin & Hs & Epre & Eev & Er)].
        -- exists [], c, S, rest, []. split; [ reflexivity | ].
           split; [ constructor | ]. left. split; [ auto | ]. exists rc.
           split; [ exact Eev | ]. intros e Erc. destruct (Hrc e Erc) as [_ Habs].
           discriminate.
        -- exists [], c, S, rest, []. split; [ reflexivity | ].
           split; [ constructor | ]. right. exists qs, rb, fin.
           split; [ exact Hs | ]. split; [ exact Epre | ]. split; [ exact Eev | ].
           rewrite <- Er. subst l. cbn [app] in El. subst post.
           split; [ discriminate | intros _; exact Hrest ].
    + subst pre.
      destruct (IH l post E2 Hev) as (ls1 & c' & S' & ls2 & t1 & Els & H1 & Hcase).
      exists ((c, S) :: ls1), c', S', ls2, (t ++ t1)%list.
      split; [ rewrite Els; reflexivity | ].
      split; [ apply phases_go; assumption | ].
      destruct Hcase as [(Epre & Hc) | (qs & rb & fin & Hs & Epre & Hrest')].
      * left. subst l. auto.
      * right. exists qs, rb, fin. split; [ exact Hs | ].
        split; [ subst l; rewrite app_assoc; reflexivity | exact Hrest' ].
Qed.


Lemma phases_not_send (ls : list (Client * Script)) (t : list Event) (r : Completion unit) :
  in_phases R ls t r -> Forall (fun ev => ~ is_send ev) t.
Proof.
  assert (Hsession : forall c qs, Forall (fun ev => ~ is_send ev) (session R c qs)).
  { intros c qs. eapply Forall_impl; [ | apply session_exchanges ].
    intros [ | | | | ]; simpl; tauto. }
  assert (Hone : forall c S t r, in_phase R c S t r -> Forall (fun ev => ~ is_send ev) t).
  { intros c S t0 r0 Hp. destruct Hp; repeat constructor; simpl; try tauto;
      apply Forall_app; split; [ apply Hsession | repeat constructor; simpl; tauto
                               | apply Hsession | repeat constructor; simpl; tauto ]. }
  induction 1 as [ | c S rest t e Hp | c S rest t t' r Hp Hrest IH ].
  - constructor.
  - eapply Hone; eassumption.
  - apply Forall_app. split; [ eapply Hone; eassumption | exact IH ].
Qed.

Lemma fetched_app (a b : list Event) : fetched (a ++ b) = (fetched a ++ fetched b)%list.
Proof.
  induction a as [ | ev a IH ]; [ reflexivity | ].
  destruct ev; cbn [fetched app]; rewrite IH; reflexivity.
Qed.

Lemma fetched_not_send (t : list Event) :
  Forall (fun ev => ~ is_send ev) t -> fetched t = [].
Proof.
  induction 1 as [ | ev t Hev _ IH ]; [ reflexivity | ].
  destruct ev; cbn [fetched]; try exact IH. exfalso. apply Hev. exact I.
Qed.

Section Staged.

Variables (a t : list Event) (ls : list (Client * Script)) (r : Completion unit).
Hypothesis Ha : Forall is_send a.
Hypothesis Hp : in_phases R ls t r.

Lemma staged_split (pre : list Event) (ev : Event) (post : list Event) :
  (a ++ t)%list = (pre ++ ev :: post)%list -> ~ is_send ev ->
  exists pre', pre = (a ++ pre')%list /\ t = (pre' ++ ev :: post)%list.
Proof. intros E Hev. eapply sends_split; eassumption. Qed.

(** Every fetch comes before everything else. *)
Lemma staged_sends_first (pre : list Event) (ev : Event) (post : list Event) :
  (a ++ t)%list = (pre ++ ev :: post)%list -> is_send ev ->
  Forall is_send pre /\ fetched (a ++ t) = fetched a.
Proof.
  intros E Hev.
  pose proof (phases_not_send Hp) as Hn.
  split; [ | rewrite fetched_app, (fetched_not_send Hn); apply app_nil_r ].
  apply app_eq_app in E. destruct E as (l & [[E1 E2] | [E1 E2]]).
  - rewrite E1 in Ha. apply Forall_app in Ha. tauto.
  - exfalso. rewrite E2 in Hn. apply Forall_app in Hn. destruct Hn as [_ Hn].
    inversion Hn; subst. contradiction.
Qed.

Lemma staged_exchange (pre : list Event) (ev : Event) (post : list Event) :
  (a ++ t)%list = (pre ++ ev :: post)%list -> exchange_event ev ->
  exists pre', pre = (a ++ pre')%list /\ exchange_at R ls r pre' ev post.
Proof.
  intros E Hev.
  destruct (staged_split _ _ _ E) as (pre' & Epre & Et).
  { destruct ev; simpl in Hev |- *; auto. }
  exists pre'. split; [ exact Epre | ].
  eapply in_phases_exchange; eassumption.
Qed.

(** [query] logs a statement right before it submits it, and submits
    every statement it has logged. *)
Lemma staged_logged_first (pre : list Event) (c : Client) (s : string)
    (rq : Completion (list JsValue)) (post : list Event) :
  (a ++ t)%list = (pre ++ EvQuery c s rq :: post)%list ->
  exists pre', pre = (pre' ++ [EvLog (log_line R c s)])%list.
Proof.
  intros E.
  destruct (staged_exchange _ _ _ E I) as (pre' & Epre & Hat).
  destruct Hat as [ls1 c0 S ls2 t1 qs rb fin pre1 post1 post0 _ _ _ Es Epre' _ _ _].
  destruct (session_locate _ _ _ _ _ _ Es) as (qs1 & q & qs2 & _ & Hcase).
  destruct Hcase as [(Eev & _) | (Eev & Epre1 & _)]; [ discriminate | ].
  injection Eev as Ec Es' _. subst c0 s.
  eexists. rewrite Epre, Epre', Epre1.
  rewrite !app_assoc, app_comm_cons, !app_assoc. reflexivity.
Qed.

Lemma staged_log_announces (pre : list Event) (line : string) (post : list Event) :
  (a ++ t)%list = (pre ++ EvLog line :: post)%list ->
  exists c s rq post', line = log_line R c s /\ post = EvQuery c s rq :: post'.
Proof.
  intros E.
  destruct (staged_exchange _ _ _ E I) as (pre' & Epre & Hat).
  destruct Hat as [ls1 c0 S ls2 t1 qs rb fin pre1 post1 post0 _ _ _ Es _ Epost _ _].
  destruct (session_locate _ _ _ _ _ _ Es) as (qs1 & q & qs2 & _ & Hcase).
  destruct Hcase as [(Eev & _ & Epost1) | (Eev & _)]; [ | discriminate ].
  injection Eev as El. subst line post post1.
  do 4 eexists. split; reflexivity.
Qed.

(** A statement of the session of a phase, with the script it is part
    of. *)
Lemma staged_statement (pre : list Event) (c : Client) (s : string)
    (rq : Completion (list JsValue)) (post : list Event) :
  (a ++ t)%list = (pre ++ EvQuery c s rq :: post)%list ->
  exists S qs1 qs2 rb fin pre0 post0,
    In (c, S) ls /\ S (qs1 ++ (s, rq) :: qs2)%list rb /\
    pre = (pre0 ++ session R c qs1 ++ [EvLog (log_line R c s)])%list /\
    post = (session R c qs2 ++ EvEnd c fin :: post0)%list /\
    (forall e, match fin with Normal _ => rb | Throw e' => Throw e' end = Throw e ->
               post0 = [] /\ r = Throw e).
Proof.
  intros E.
  destruct (staged_exchange _ _ _ E I) as (pre' & Epre & Hat).
  destruct Hat as [ls1 c0 S ls2 t1 qs rb fin pre1 post1 post0 Els _ Hs Es Epre' Epost Hthrow _].
  destruct (session_locate _ _ _ _ _ _ Es) as (qs1 & q & qs2 & Eqs & Hcase).
  destruct Hcase as [(Eev & _) | (Eev & Epre1 & Epost1)]; [ discriminate | ].
  injection Eev as Ec Eq1 Eq2. subst c0.
  assert (Eq : q = (s, rq)) by (destruct q; cbn [fst snd] in *; congruence).
  subst q qs.
  exists S, qs1, qs2, rb, fin, (a ++ t1 ++ [EvConnect c (Normal tt)])%list, post0.
  split; [ rewrite Els; apply in_elt | ]. split; [ exact Hs | ].
  split; [ | split; [ subst; reflexivity | exact Hthrow ] ].
  rewrite Epre, Epre', Epre1. cbn [fst]. rewrite <- !app_assoc. reflexivity.
Qed.

End Staged.

End Stages.

(** ** Tidy scripts *)

Lemma strict_none (S : Script) : every (fun s => is_check s = false) S -> strict S.
Proof.
  intros H qs r Hs pre s rows e post E Hc.
  specialize (H qs r Hs). rewrite E in H.
  apply Forall_app in H. destruct H as [_ H]. inversion H as [ | ? ? Hq _ ]; subst.
  cbn [fst] in Hq. congruence.
Qed.

Lemma strict_ensure (check create : string) :
  is_check create = false -> strict (ensure check create).
Proof.
  intros Hcreate qs r H pre s rows e post E Hc Hrow.
  destruct H;
    repeat (destruct pre as [ | ? pre ]; cbn [app] in E; try discriminate);
    injection E as; subst; try congruence; split; congruence.
Qed.

Lemma strict_then (S1 S2 : Script) : strict S1 -> strict S2 -> strict (then_ S1 S2).
Proof.
  intros H1 H2 qs r H pre s rows e post E Hc Hrow.
  destruct H as [ qs e0 Hs | qs1 qs2 r Hs1 Hs2 ].
  - eapply H1; eauto.
  - apply app_eq_app in E. destruct E as (l & [[E1 E2] | [E1 E2]]).
    + destruct l as [ | x l ]; cbn [app] in E2.
      * apply (H2 _ _ Hs2 [] s rows e post); auto.
      * injection E2 as Ex El. subst x.
        destruct (H1 _ _ Hs1 _ _ _ _ _ E1 Hc Hrow) as [_ Hr]. discriminate.
    + eapply H2; eauto.
Qed.

Lemma tidy_ensure (check create : string) :
  creation_for check create -> tidy (ensure check create).
Proof.
  intros Hfor.
  assert (Hk : is_creation check = false /\ is_check create = false /\
               is_drop check = false /\ is_drop create = false)
    by (destruct Hfor; repeat split; reflexivity).
  destruct Hk as (H1 & H2 & H3 & H4).
  split; [ apply orderly_ensure | ].
  split; [ apply guarded_ensure; assumption | ].
  split; [ apply prompt_ensure; assumption | ].
  split; [ apply strict_ensure; assumption | ].
  apply every_ensure; assumption.
Qed.

Lemma tidy_then (S1 S2 : Script) : tidy S1 -> tidy S2 -> tidy (then_ S1 S2).
Proof.
  intros (Ho1 & Hg1 & Hp1 & Hs1 & He1) (Ho2 & Hg2 & Hp2 & Hs2 & He2).
  split; [ apply orderly_then; assumption | ].
  split; [ apply guarded_then; assumption | ].
  split; [ apply prompt_then; assumption | ].
  split; [ apply strict_then; assumption | ].
  apply every_then; assumption.
Qed.

(** A list of statements none of which is a check, a creation or a
    [DROP]. *)
Lemma tidy_straight (stmts : list string) :
  Forall (fun s => is_creation s = false) stmts ->
  Forall (fun s => is_check s = false) stmts ->
  Forall (fun s => is_drop s = false) stmts ->
  tidy (straight stmts).
Proof.
  intros Hc Hk Hd.
  split; [ apply orderly_straight | ].
  split; [ apply guarded_none, every_straight; exact Hc | ].
  split; [ apply prompt_none, every_straight; exact Hk | ].
  split; [ apply strict_none, every_straight; exact Hk | ].
  apply every_straight; exact Hd.
Qed.

Lemma tidy_halt (e : Exn) : tidy (halt e).
Proof.
  assert (Hnil : forall (x : Exchange) pre post, [] <> (pre ++ x :: post)%list)
    by (intros x [ | ] post; discriminate).
  repeat split.
  - destruct H. exfalso. eapply Hnil; eauto.
  - destruct H. exfalso. eapply Hnil; eauto.
  - intros qs r H pre s a post E. destruct H. exfalso. eapply Hnil; eauto.
  - intros qs r H pre s rows post E. destruct H. exfalso. eapply Hnil; eauto.
  - destruct H. exfalso. eapply Hnil; eauto.
  - destruct H. exfalso. eapply Hnil; eauto.
  - intros qs r H. destruct H. constructor.
Qed.

Ltac tidy_script :=
  repeat first
    [ apply tidy_then
    | apply tidy_ensure; constructor
    | apply tidy_halt
    | apply tidy_straight; by_template ].

Lemma after_pr_phases_tidy (env : Env) (p : AfterPr.Plan) :
  Forall (fun cs => tidy (snd cs)) (AfterPr.phases env p).
Proof.
  unfold AfterPr.phases, AfterPr.service_phases, AfterPr.cdc_phases,
    AfterPr.admin_script, AfterPr.cdc_role_script.
  destruct (truthy (AfterPr.cdcUserSecret p)); cbn [app];
    repeat (apply Forall_cons; [ cbn [snd]; tidy_script | ]); apply Forall_nil.
Qed.

Lemma original_phases_tidy (env : Env) (p : Original.Plan) (q : Original.CdcPlan) :
  Forall (fun cs => tidy (snd cs))
         (Original.service_phases env p ++ Original.cdc_phases env p q).
Proof.
  unfold Original.service_phases, Original.cdc_phases, Original.admin_script.
  cbn [app].
  repeat (apply Forall_cons; [ cbn [snd]; tidy_script | ]); apply Forall_nil.
Qed.

Lemma pt_phases_tidy (env : Env) (p : PT.Plan) :
  Forall (fun cs => tidy (snd cs)) (PT.phases env p).
Proof.
  unfold PT.phases, PT.admin_script.
  repeat (apply Forall_cons; [ cbn [snd]; tidy_script | ]); apply Forall_nil.
Qed.

(** ** What every run in stages does *)

Section Conduct.

Variable W : Type.
Variable R : Runtime W.
Variables (a t : list Event) (ls : list (Client * Script)) (r : Completion unit).
Hypothesis Ha : Forall is_send a.
Hypothesis Hp : in_phases R ls t r.
Hypothesis Htidy : Forall (fun cs => tidy (snd cs)) ls.

Lemma tidy_in (c : Client) (S : Script) : In (c, S) ls -> tidy S.
Proof. intros Hin. rewrite Forall_forall in Htidy. exact (Htidy _ Hin). Qed.

(** After a statement that throws comes [end], and nothing else. *)
Lemma staged_failed_statement (pre : list Event) (c : Client) (s : string) (e : Exn)
    (post : list Event) :
  (a ++ t)%list = (pre ++ EvQuery c s (Throw e) :: post)%list ->
  exists fin,
    post = [EvEnd c fin] /\
    r = Throw match fin with Normal _ => e | Throw e' => e' end.
Proof.
  intros E.
  destruct (staged_statement Ha Hp _ _ _ _ _ E)
    as (S & qs1 & qs2 & rb & fin & pre0 & post0 & Hin & Hs & _ & Epost & Hthrow).
  destruct (tidy_in _ _ Hin) as (Ho & _).
  destruct (Ho _ _ Hs _ _ _ _ eq_refl) as [-> ->].
  assert (Hfin : match fin with Normal _ => Throw e | Throw e' => Throw e' end
                 = Throw match fin with Normal _ => e | Throw e' => e' end :> Completion unit)
    by (destruct fin; reflexivity).
  destruct (Hthrow _ Hfin) as [-> ->].
  exists fin. split; [ exact Epost | reflexivity ].
Qed.

(** After an existence check answered without a usable first row comes
    [end], and nothing else. *)
Lemma staged_check_without_row (pre : list Event) (c : Client) (s : string)
    (rows : list JsValue) (e : Exn) (post : list Event) :
  (a ++ t)%list = (pre ++ EvQuery c s (Normal rows) :: post)%list ->
  is_check s = true -> first_row_exists rows = Throw e ->
  exists fin,
    post = [EvEnd c fin] /\
    r = Throw match fin with Normal _ => e | Throw e' => e' end.
Proof.
  intros E Hc Hrow.
  destruct (staged_statement Ha Hp _ _ _ _ _ E)
    as (S & qs1 & qs2 & rb & fin & pre0 & post0 & Hin & Hs & _ & Epost & Hthrow).
  destruct (tidy_in _ _ Hin) as (_ & _ & _ & Hst & _).
  destruct (Hst _ _ Hs _ _ _ _ _ eq_refl Hc Hrow) as [-> ->].
  assert (Hfin : match fin with Normal _ => Throw e | Throw e' => Throw e' end
                 = Throw match fin with Normal _ => e | Throw e' => e' end :> Completion unit)
    by (destruct fin; reflexivity).
  destruct (Hthrow _ Hfin) as [-> ->].
  exists fin. split; [ exact Epost | reflexivity ].
Qed.

(** A creation comes right after the check of the same entity, on the
    same connection, answered with a falsy [exists]. *)
Lemma staged_creation_guarded (pre : list Event) (c : Client) (s : string)
    (rq : Completion (list JsValue)) (post : list Event) :
  (a ++ t)%list = (pre ++ EvQuery c s rq :: post)%list -> is_creation s = true ->
  exists pre' check rows,
    pre = (pre' ++ [EvQuery c check (Normal rows);
                    EvLog ("[" ++ client_database R c ++ "] " ++ s)])%list /\
    creation_for check s /\
    has_row rows = true /\ truthy (exists_column rows) = false.
Proof.
  intros E Hc.
  destruct (staged_statement Ha Hp _ _ _ _ _ E)
    as (S & qs1 & qs2 & rb & fin & pre0 & post0 & Hin & Hs & Epre & _).
  destruct (tidy_in _ _ Hin) as (_ & Hg & _).
  destruct (Hg _ _ Hs _ _ _ _ eq_refl Hc) as (qs0 & check & rows & -> & Hfor & Hrow & Hv).
  exists (pre0 ++ session R c qs0 ++ [EvLog (log_line R c check)])%list, check, rows.
  split; [ | auto ].
  rewrite Epre, session_app. cbn [session flat_map exchange app fst snd].
  rewrite <- !app_assoc. reflexivity.
Qed.

(** A check answered with a falsy [exists] is followed at once by the
    creation of the entity. *)
Lemma staged_check_prompt (pre : list Event) (c : Client) (s : string)
    (rows : list JsValue) (post : list Event) :
  (a ++ t)%list = (pre ++ EvQuery c s (Normal rows) :: post)%list ->
  is_check s = true -> has_row rows = true -> truthy (exists_column rows) = false ->
  exists create rq post',
    post = EvLog ("[" ++ client_database R c ++ "] " ++ create)
           :: EvQuery c create rq :: post' /\
    creation_for s create.
Proof.
  intros E Hc Hrow Hv.
  destruct (staged_statement Ha Hp _ _ _ _ _ E)
    as (S & qs1 & qs2 & rb & fin & pre0 & post0 & Hin & Hs & _ & Epost & _).
  destruct (tidy_in _ _ Hin) as (_ & _ & Hpr & _).
  destruct (Hpr _ _ Hs _ _ _ _ eq_refl Hc Hrow Hv) as (create & rq & qs' & -> & Hfor).
  exists create, rq, (session R c qs' ++ EvEnd c fin :: post0)%list.
  split; [ | exact Hfor ].
  rewrite Epost. reflexivity.
Qed.

Lemma staged_no_drop : Forall (fun s => is_drop s = false) (statements (a ++ t)).
Proof.
  rewrite statements_app, (sends_statements Ha). cbn [app].
  eapply every_phases; [ exact Hp | ].
  eapply Forall_impl; [ | exact Htidy ].
  intros cs (_ & _ & _ & _ & He). exact He.
Qed.

(** When every check reports its entity present, nothing is created. *)
Lemma staged_all_present :
  (forall c s rows, In (EvQuery c s (Normal rows)) (a ++ t) -> is_check s = true ->
     truthy (exists_column rows) = true) ->
  Forall (fun s => is_creation s = false) (statements (a ++ t)).
Proof.
  intros Hpresent. apply Forall_forall. intros s Hin.
  destruct (is_creation s) eqn:Hc; [ exfalso | reflexivity ].
  assert (Hev : exists c rq, In (EvQuery c s rq) (a ++ t)).
  { clear - Hin. induction (a ++ t)%list as [ | ev l IH ]; [ destruct Hin | ].
    destruct ev; cbn [statements] in Hin;
      try (destruct (IH Hin) as (c' & a' & H'); eauto using in_cons; fail).
    destruct Hin as [ <- | Hin ]; [ do 2 eexists; left; reflexivity | ].
    destruct (IH Hin) as (c' & a' & H'). eauto using in_cons. }
  destruct Hev as (c & rq & Hev). apply in_split in Hev. destruct Hev as (pre & post & E).
  destruct (staged_creation_guarded _ _ _ _ _ E Hc)
    as (pre' & check & rows & Epre & Hfor & _ & Hv).
  rewrite (Hpresent c check rows) in Hv; [ discriminate | | ].
  - rewrite E, Epre. apply in_or_app. left. apply in_or_app. right. left. reflexivity.
  - eapply creation_for_is_check; eauto.
Qed.

(** When every call went well the phases complete. *)
Lemma staged_unfailing :
  Forall (fun cs => accountable (snd cs)) ls ->
  unfailing (a ++ t) = true -> r = Normal tt.
Proof.
  intros Hacc Ht. rewrite unfailing_app in Ht. apply andb_prop in Ht.
  eapply unfailing_phases; [ exact Hp | exact Hacc | tauto ].
Qed.

End Conduct.

Section Edges.

Variable W : Type.
Variable R : Runtime W.
Variables (a t : list Event) (ls : list (Client * Script)) (r : Completion unit).
Hypothesis Ha : Forall is_send a.
Hypothesis Hp : in_phases R ls t r.

Lemma staged_edge (pre : list Event) (ev : Event) (post : list Event) :
  (a ++ t)%list = (pre ++ ev :: post)%list ->
  ~ exchange_event ev -> ~ is_send ev ->
  exists ls1 c S ls2 t1,
    ls = (ls1 ++ (c, S) :: ls2)%list /\
    in_phases R ls1 t1 (Normal tt) /\
    ((pre = (a ++ t1)%list /\ exists rc, ev = EvConnect c rc /\
        (forall e, rc = Throw e -> post = [] /\ r = Throw e)) \/
     (exists qs rb fin,
        S qs rb /\ pre = (a ++ t1 ++ EvConnect c (Normal tt) :: session R c qs)%list /\
        ev = EvEnd c fin /\
        (forall e, match fin with Normal _ => rb | Throw e' => Throw e' end = Throw e ->
                   post = [] /\ r = Throw e))).
Proof.
  intros E Hx Hs.
  edestruct staged_split as (pre' & Epre & Et); [ exact Ha | exact E | exact Hs | ].
  subst pre.
  edestruct in_phases_edge as (ls1 & c & S & ls2 & t1 & Els & H1 & Hcase);
    [ exact Hp | exact Et | exact Hx | ].
  exists ls1, c, S, ls2, t1. split; [ exact Els | ]. split; [ exact H1 | ].
  destruct Hcase as [(-> & Hc) | (qs & rb & fin & HS & -> & Eev & Hthrow & _)].
  - left. auto.
  - right. exists qs, rb, fin. auto.
Qed.

(** A [connect] that throws is the last call of the run; the connection
    is neither used nor ended. *)
Lemma staged_refused (pre : list Event) (c : Client) (e : Exn) (post : list Event) :
  NoDup (map (fun cs => client_name (fst cs)) ls) ->
  (a ++ t)%list = (pre ++ EvConnect c (Throw e) :: post)%list ->
  post = [] /\ r = Throw e /\
  ends_of (client_name c) (a ++ t) = 0 /\
  statements_on (client_name c) (a ++ t) = [].
Proof.
  intros Hnd E.
  edestruct staged_edge as (ls1 & c0 & S & ls2 & t1 & Els & H1 & Hcase);
    [ exact E | simpl; tauto | simpl; tauto | ].
  destruct Hcase as [(Epre & rc & Eev & Hrc) | (qs & rb & fin & _ & _ & Eev & _)];
    [ | discriminate ].
  injection Eev as <- <-.
  destruct (Hrc e eq_refl) as [-> ->].
  split; [ reflexivity | ]. split; [ reflexivity | ].
  assert (Hn : ~ In (client_name c) (map (fun cs => client_name (fst cs)) ls1)).
  { rewrite Els, map_app in Hnd. cbn [map fst] in Hnd. apply NoDup_remove_2 in Hnd.
    intros Hin. apply Hnd. apply in_or_app. left. exact Hin. }
  rewrite E, Epre.
  rewrite !ends_of_app, !statements_on_app.
  rewrite (ends_of_quiet _ (sends_quiet Ha)), (ends_of_phases (client_name c) H1 Hn).
  rewrite (sends_statements_on _ Ha), (@statements_on_phases_other _ R _ _ _ _ H1 Hn).
  split; reflexivity.
Qed.

(** An [end] that throws is the last call of the run. *)
Lemma staged_end_failed (pre : list Event) (c : Client) (e : Exn) (post : list Event) :
  (a ++ t)%list = (pre ++ EvEnd c (Throw e) :: post)%list ->
  post = [] /\ r = Throw e.
Proof.
  intros E.
  edestruct staged_edge as (ls1 & c0 & S & ls2 & t1 & Els & H1 & Hcase);
    [ exact E | simpl; tauto | simpl; tauto | ].
  destruct Hcase as [(_ & rc & Eev & _) | (qs & rb & fin & _ & _ & Eev & Hthrow)];
    [ discriminate | ].
  injection Eev as <- <-. apply Hthrow. reflexivity.
Qed.

(** Every client a call is made on is the client of a phase. *)
Lemma staged_clients (c : Client) :
  (exists rc, In (EvConnect c rc) (a ++ t)) \/
  (exists s rq, In (EvQuery c s rq) (a ++ t)) \/
  (exists fin, In (EvEnd c fin) (a ++ t)) ->
  In c (map fst ls).
Proof.
  assert (Hquiet : forall ev, In ev a -> is_send ev).
  { rewrite Forall_forall in Ha. exact Ha. }
  assert (Hsession : forall c' qs ev, In ev (session R c' qs) ->
            exchange_event ev /\ forall s rq, ev = EvQuery c s rq -> c = c').
  { intros c' qs ev. induction qs as [ | q qs IH ]; [ intros [] | ].
    cbn [session flat_map exchange app In]. fold (session R c' qs).
    intros [<- | [<- | Hin]]; [ split; [ exact I | discriminate ]
                               | split; [ exact I | intros s rq [= -> _ _]; reflexivity ]
                               | apply IH; exact Hin ]. }
  assert (Hone : forall c' S tp rp ev, in_phase R c' S tp rp -> In ev tp ->
            (forall rc, ev = EvConnect c rc -> c = c') /\
            (forall s rq, ev = EvQuery c s rq -> c = c') /\
            (forall fin, ev = EvEnd c fin -> c = c')).
  { intros c' S tp rp ev H Hin.
    assert (Hbody : forall qs fin,
              In ev (EvConnect c' (Normal tt) :: session R c' qs ++ [EvEnd c' fin]) ->
              (forall rc, ev = EvConnect c rc -> c = c') /\
              (forall s rq, ev = EvQuery c s rq -> c = c') /\
              (forall fin, ev = EvEnd c fin -> c = c')).
    { intros qs fin [<- | Hin'].
      - repeat split; try discriminate. intros rc [= ->]. reflexivity.
      - apply in_app_or in Hin'. destruct Hin' as [Hin' | [<- | []]].
        + destruct (Hsession _ _ _ Hin') as [Hx Hq].
          repeat split; [ intros rc ->; destruct Hx | exact Hq | intros f ->; destruct Hx ].
        + repeat split; try discriminate. intros f [= ->]. reflexivity. }
    destruct H as [ e | qs rb Hs | qs rb e Hs ].
    - destruct Hin as [<- | []]. repeat split; try discriminate.
      intros rc [= ->]. reflexivity.
    - apply (Hbody qs (Normal tt) Hin).
    - apply (Hbody qs (Throw e) Hin). }
  assert (Hall : forall ev, In ev t ->
            (exists rc, ev = EvConnect c rc) \/ (exists s rq, ev = EvQuery c s rq) \/
            (exists fin, ev = EvEnd c fin) -> In c (map fst ls)).
  { clear Ha Hquiet. induction Hp as [ | c' S rest tp e H | c' S rest tp t' r' H Hrest IH ];
      intros ev Hin Hev.
    - destruct Hin.
    - destruct (Hone _ _ _ _ _ H Hin) as (H1 & H2 & H3). left. cbn [fst]. symmetry.
      destruct Hev as [(rc & ->) | [(s & rq & ->) | (fin & ->)]]; eauto.
    - apply in_app_or in Hin. destruct Hin as [Hin | Hin].
      + destruct (Hone _ _ _ _ _ H Hin) as (H1 & H2 & H3). left. cbn [fst]. symmetry.
        destruct Hev as [(rc & ->) | [(s & rq & ->) | (fin & ->)]]; eauto.
      + right. eapply IH; eassumption. }
  intros Hev.
  assert (Hin : exists ev, In ev (a ++ t) /\
            ((exists rc, ev = EvConnect c rc) \/ (exists s rq, ev = EvQuery c s rq) \/
             (exists fin, ev = EvEnd c fin))).
  { destruct Hev as [(rc & H) | [(s & rq & H) | (fin & H)]]; eexists; split; eauto. }
  destruct Hin as (ev & Hin & Hev').
  apply in_app_or in Hin. destruct Hin as [Hin | Hin].
  - apply Hquiet in Hin.
    destruct Hev' as [(rc & ->) | [(s & rq & ->) | (fin & ->)]]; destruct Hin.
  - eapply Hall; eassumption.
Qed.

End Edges.

(** ** The three handlers, in stages *)

Section HandlerStages.

Variable W : Type.
Variable R : Runtime W.

Lemma after_pr_stages (env : Env) (w : W) :
  exists ls t r,
    events (AfterPr.handler R env w) = (events (AfterPr.resolve R env w) ++ t)%list /\
    in_phases R ls t r /\
    Forall (fun cs => tidy (snd cs)) ls /\
    NoDup (map (fun cs => client_name (fst cs)) ls) /\
    (forall e, r = Throw e -> result (AfterPr.handler R env w) = Throw e) /\
    (forall p, result (AfterPr.resolve R env w) = Normal p -> ls = AfterPr.phases env p) /\
    (forall e, result (AfterPr.resolve R env w) = Throw e ->
       t = [] /\ result (AfterPr.handler R env w) = Throw e).
Proof.
  pose proof (handler_run R env w) as Hrun.
  destruct (result (AfterPr.resolve R env w)) as [p | e].
  - destruct Hrun as (t & r & Hp & Hev & Hr).
    exists (AfterPr.phases env p), t, r.
    split; [ exact Hev | ]. split; [ exact Hp | ].
    split; [ apply after_pr_phases_tidy | ].
    split; [ apply after_pr_phases_names | ].
    split; [ intros e ->; exact Hr | ].
    split; [ intros p' [= <-]; reflexivity | discriminate ].
  - destruct Hrun as [Hr Hev].
    exists [], [], (Normal tt). rewrite app_nil_r.
    split; [ exact Hev | ]. split; [ constructor | ].
    split; [ constructor | ]. split; [ constructor | ].
    split; [ discriminate | ].
    split; [ discriminate | intros e' [= <-]; auto ].
Qed.

Lemma pt_stages (env : Env) (w : W) :
  exists ls t r,
    events (PT.handler R env w) = (events (PT.resolve R env w) ++ t)%list /\
    in_phases R ls t r /\
    Forall (fun cs => tidy (snd cs)) ls /\
    NoDup (map (fun cs => client_name (fst cs)) ls) /\
    (forall e, r = Throw e -> result (PT.handler R env w) = Throw e) /\
    (forall p, result (PT.resolve R env w) = Normal p ->
       ls = PT.phases env p /\ r = result (PT.handler R env w)) /\
    (forall e, result (PT.resolve R env w) = Throw e ->
       t = [] /\ result (PT.handler R env w) = Throw e).
Proof.
  pose proof (pt_run R env w) as Hrun.
  destruct (result (PT.resolve R env w)) as [p | e].
  - destruct Hrun as (t & Hp & Hev).
    exists (PT.phases env p), t, (result (PT.handler R env w)).
    split; [ exact Hev | ]. split; [ exact Hp | ].
    split; [ apply pt_phases_tidy | ].
    split; [ | split; [ intros e ->; reflexivity
                      | split; [ intros p' [= <-]; auto | discriminate ] ] ].
    unfold PT.phases. cbn [map fst client_name PT.mainConn new_Client].
    repeat constructor. simpl. tauto.
  - destruct Hrun as [Hr Hev].
    exists [], [], (Normal tt). rewrite app_nil_r.
    split; [ exact Hev | ]. split; [ constructor | ].
    split; [ constructor | ]. split; [ constructor | ].
    split; [ discriminate | ].
    split; [ discriminate | intros e' [= <-]; auto ].
Qed.

(** [src/bootstrap.ts]: the secrets, the service phases, then, once the
    CDC names are derived, the CDC phases. *)
Lemma original_stages (env : Env) (w : W) :
  exists ls t r,
    events (Original.handler R env w) = (events (Original.resolve R env w) ++ t)%list /\
    in_phases R ls t r /\
    Forall (fun cs => tidy (snd cs)) ls /\
    (forall e, r = Throw e -> result (Original.handler R env w) = Throw e) /\
    (forall e, result (Original.resolve R env w) = Throw e ->
       t = [] /\ result (Original.handler R env w) = Throw e) /\
    (forall p, result (Original.resolve R env w) = Normal p ->
       match result (@Original.resolve_cdc W env p w) with
       | Throw e =>
           ls = Original.service_phases env p /\
           result (Original.handler R env w)
             = Throw match r with Normal _ => e | Throw e' => e' end
       | Normal q =>
           (ls = Original.service_phases env p /\ exists e, r = Throw e) \/
           (ls = (Original.service_phases env p ++ Original.cdc_phases env p q)%list /\
            result (Original.handler R env w)
              = match r with Normal _ => Normal (Original.answer p q) | Throw e => Throw e end)
       end).
Proof.
  rewrite original_staged. unfold Original.staged.
  rewrite bind_run.
  destruct (result (Original.resolve R env w)) as [p | e]; cbn [result events fst snd].
  2:{ exists [], [], (Normal tt). rewrite app_nil_r.
      split; [ reflexivity | ]. split; [ constructor | ]. split; [ constructor | ].
      split; [ discriminate | ].
      split; [ intros e' [= <-]; auto | discriminate ]. }
  set (w1 := world (Original.resolve R env w)).
  rewrite bind_run.
  pose proof (run_phases_spec (original_service_obey R env p) w1) as H1.
  set (dummy := {| Original.cdcUser := JUndefined; Original.cdcPassword := JUndefined;
                   Original.cdcDatabase := ""; Original.cdcSchema := JUndefined |}).
  assert (Htidy1 : Forall (fun cs => tidy (snd cs)) (Original.service_phases env p)).
  { pose proof (original_phases_tidy env p dummy) as Ht.
    apply Forall_app in Ht. tauto. }
  set (w2 := world (run_phases R (Original.service_bodies R env p) w1)).
  destruct (original_resolve_cdc_run env p w2) as (Hev & Hw & Hpure).
  destruct (result (run_phases R (Original.service_bodies R env p) w1)) as [ [] | e ];
    cbn [result events fst snd].
  2:{ exists (Original.service_phases env p),
             (events (run_phases R (Original.service_bodies R env p) w1)), (Throw e).
      split; [ reflexivity | ]. split; [ exact H1 | ]. split; [ exact Htidy1 | ].
      split; [ intros e' [= <-]; reflexivity | ].
      split; [ discriminate | ].
      intros p' [= <-].
      destruct (result (@Original.resolve_cdc W env p w)); [ left; eauto | auto ]. }
  rewrite bind_run, Hev, Hw.
  destruct (result (@Original.resolve_cdc W env p w2)) as [q | e] eqn:Hq;
    cbn [result events fst snd].
  2:{ exists (Original.service_phases env p),
             (events (run_phases R (Original.service_bodies R env p) w1)), (Normal tt).
      rewrite app_nil_r.
      split; [ reflexivity | ]. split; [ exact H1 | ]. split; [ exact Htidy1 | ].
      split; [ discriminate | ].
      split; [ discriminate | ].
      intros p' [= <-]. rewrite (Hpure w); try rewrite Hq. auto. }
  rewrite bind_run.
  pose proof (run_phases_spec (original_cdc_obey R env p q) w2) as H2.
  exists (Original.service_phases env p ++ Original.cdc_phases env p q)%list.
  exists (events (run_phases R (Original.service_bodies R env p) w1)
          ++ events (run_phases R (Original.cdc_bodies R env p q) w2))%list.
  exists (result (run_phases R (Original.cdc_bodies R env p q) w2)).
  split.
  { destruct (result (run_phases R (Original.cdc_bodies R env p q) w2)) as [ [] | e ];
      cbn [result events fst snd ret app]; rewrite ?app_nil_r; reflexivity. }
  split; [ apply in_phases_app; [ exact H1 | exact H2 ] | ].
  split; [ apply original_phases_tidy | ].
  split.
  { intros e Er. rewrite Er. reflexivity. }
  split; [ discriminate | ].
  intros p' [= <-]. rewrite (Hpure w); try rewrite Hq. right. split; [ reflexivity | ].
  destruct (result (run_phases R (Original.cdc_bodies R env p q) w2)) as [ [] | e ];
    reflexivity.
Qed.

End HandlerStages.

(** Every check of a trace reports its entity present, decided by
    running through the trace. *)
Lemma all_present_by_test (t : list Event) :
  forallb (fun ev => match ev with
                     | EvQuery _ s (Normal rows) =>
                         if is_check s then truthy (exists_column rows) else true
                     | _ => true
                     end) t = true ->
  forall c s rows, In (EvQuery c s (Normal rows)) t -> is_check s = true ->
    truthy (exists_column rows) = true.
Proof.
  intros H c s rows Hin Hc. rewrite forallb_forall in H. specialize (H _ Hin).
  cbn beta iota in H. rewrite Hc in H. exact H.
Qed.

(** ** Creations and their checks *)

Section AfterPrCreations.

Variable W : Type.
Variable R : Runtime W.

(** The statements the main and the second admin connection can
    receive. *)
Lemma after_pr_main_statements (env : Env) (p : AfterPr.Plan) (P : string -> Prop) :
  P (select_database_exists (AfterPr.database p)) ->
  P (create_database (AfterPr.database p)) ->
  P (select_role_exists (AfterPr.username p)) ->
  P (create_user (AfterPr.username p) (AfterPr.password p)) ->
  Forall (fun cs => name_eqb MainConn (client_name (fst cs)) = true -> every P (snd cs))
         (AfterPr.phases env p).
Proof.
  intros H1 H2 H3 H4.
  unfold AfterPr.phases, AfterPr.service_phases, AfterPr.cdc_phases, AfterPr.admin_script.
  destruct (truthy (AfterPr.cdcUserSecret p)); cbn [app];
    repeat (apply Forall_cons; [ cbn [fst snd]; intros Hn | ]); try apply Forall_nil;
    try discriminate Hn;
    apply every_then; apply every_ensure; assumption.
Qed.

Lemma after_pr_admin_statements (env : Env) (p : AfterPr.Plan) (P : string -> Prop) :
  P (select_role_exists (AfterPr.cdcUsername p)) ->
  P (create_user (AfterPr.cdcUsername p) (AfterPr.cdcPassword p)) ->
  Forall (fun cs => name_eqb AdminConn (client_name (fst cs)) = true -> every P (snd cs))
         (AfterPr.phases env p).
Proof.
  intros H1 H2.
  unfold AfterPr.phases, AfterPr.service_phases, AfterPr.cdc_phases,
    AfterPr.cdc_role_script.
  destruct (truthy (AfterPr.cdcUserSecret p)); cbn [app];
    repeat (apply Forall_cons; [ cbn [fst snd]; intros Hn | ]); try apply Forall_nil;
    try discriminate Hn;
    apply every_ensure; assumption.
Qed.

(** The other connections receive neither a check nor a creation. *)
Lemma after_pr_other_statements (n : ClientName) (env : Env) (p : AfterPr.Plan) :
  n <> MainConn -> n <> AdminConn ->
  Forall (fun cs => name_eqb n (client_name (fst cs)) = true ->
                    every (fun s => is_check s = false /\ is_creation s = false) (snd cs))
         (AfterPr.phases env p).
Proof.
  intros Hmain Hadmin.
  unfold AfterPr.phases, AfterPr.service_phases, AfterPr.cdc_phases.
  destruct (truthy (AfterPr.cdcUserSecret p)); cbn [app];
    repeat (apply Forall_cons; [ cbn [fst snd]; intros Hn | ]); try apply Forall_nil;
    try (apply name_eqb_eq in Hn; contradiction);
    apply every_straight;
    repeat (apply Forall_cons; [ split; reflexivity | ]); apply Forall_nil.
Qed.

(** Each of the two connections receives at most one [CREATE USER]. *)
Lemma after_pr_create_user_on_main (env : Env) (p : AfterPr.Plan) :
  exists ns, list_sum ns <= 1 /\
    Forall2 (fun cs k => name_eqb MainConn (client_name (fst cs)) = true ->
                         at_most (String.prefix "CREATE USER ") k (snd cs))
            (AfterPr.phases env p) ns.
Proof.
  unfold AfterPr.phases, AfterPr.service_phases, AfterPr.cdc_phases, AfterPr.admin_script.
  destruct (truthy (AfterPr.cdcUserSecret p)); cbn [app];
    [ exists [0 + 1; 0; 0; 0] | exists [0 + 1; 0] ];
    (split; [ simpl; lia | ]);
    repeat (apply Forall2_cons; [ cbn [fst snd]; intros Hn | ]);
    try apply Forall2_nil; try discriminate Hn;
    (apply at_most_then;
      [ apply at_most_none, every_ensure; reflexivity
      | apply at_most_ensure; reflexivity ]).
Qed.

Lemma after_pr_create_user_on_admin (env : Env) (p : AfterPr.Plan) :
  exists ns, list_sum ns <= 1 /\
    Forall2 (fun cs k => name_eqb AdminConn (client_name (fst cs)) = true ->
                         at_most (String.prefix "CREATE USER ") k (snd cs))
            (AfterPr.phases env p) ns.
Proof.
  unfold AfterPr.phases, AfterPr.service_phases, AfterPr.cdc_phases,
    AfterPr.cdc_role_script.
  destruct (truthy (AfterPr.cdcUserSecret p)); cbn [app];
    [ exists [0; 0; 1; 0] | exists [0; 0] ];
    (split; [ simpl; lia | ]);
    repeat (apply Forall2_cons; [ cbn [fst snd]; intros Hn | ]);
    try apply Forall2_nil; try discriminate Hn;
    apply at_most_ensure; reflexivity.
Qed.

End AfterPrCreations.

(** C2, as the code has it.  In every run: a [CREATE DATABASE] or
    [CREATE USER] statement is submitted only right after the existence
    check of the same entity, on the same connection, was answered with
    a first row whose [exists] is falsy (the [false] Postgres returns,
    but also a row without that column), and every check answered so is
    followed at once by that creation; when every check reports its
    entity present, as on a target already provisioned, nothing is
    created.  The main connection only ever receives the check and the
    creation of the database and of the service role, the second admin
    connection those of the CDC role, and the other connections none;
    there is at most one [CREATE DATABASE], at most one [CREATE USER]
    on each of the two connections, and no [DROP]. *)
Theorem created_iff_check_found_nothing
    (W : Type) (R : Runtime W) (env : Env) (w : W) (t : list Event) :
  t = events (AfterPr.handler R env w) ->
  (forall pre c s a post,
     t = (pre ++ EvQuery c s a :: post)%list -> is_creation s = true ->
     exists pre' check rows,
       pre = (pre' ++ [EvQuery c check (Normal rows);
                       EvLog ("[" ++ client_database R c ++ "] " ++ s)])%list /\
       creation_for check s /\
       has_row rows = true /\ truthy (exists_column rows) = false) /\
  (forall pre c s rows post,
     t = (pre ++ EvQuery c s (Normal rows) :: post)%list -> is_check s = true ->
     has_row rows = true -> truthy (exists_column rows) = false ->
     exists create a post',
       post = EvLog ("[" ++ client_database R c ++ "] " ++ create)
              :: EvQuery c create a :: post' /\
       creation_for s create) /\
  ((forall c s rows, In (EvQuery c s (Normal rows)) t -> is_check s = true ->
      truthy (exists_column rows) = true) ->
   Forall (fun s => is_creation s = false) (statements t)) /\
  (forall p, result (AfterPr.resolve R env w) = Normal p ->
     Forall (fun s =>
               In s [ "SELECT exists(SELECT FROM pg_catalog.pg_database WHERE lower(datname) = lower('"
                        ++ AfterPr.database p ++ "'))";
                      "CREATE DATABASE " ++ AfterPr.database p;
                      "SELECT exists(SELECT FROM pg_roles WHERE rolname='"
                        ++ toString (AfterPr.username p) ++ "')";
                      "CREATE USER " ++ toString (AfterPr.username p)
                        ++ " WITH ENCRYPTED PASSWORD '"
                        ++ toString (AfterPr.password p) ++ "'" ])
            (statements_on MainConn t) /\
     Forall (fun s =>
               In s [ "SELECT exists(SELECT FROM pg_roles WHERE rolname='"
                        ++ toString (AfterPr.cdcUsername p) ++ "')";
                      "CREATE USER " ++ toString (AfterPr.cdcUsername p)
                        ++ " WITH ENCRYPTED PASSWORD '"
                        ++ toString (AfterPr.cdcPassword p) ++ "'" ])
            (statements_on AdminConn t)) /\
  (forall n, n <> MainConn -> n <> AdminConn ->
     Forall (fun s => is_check s = false /\ is_creation s = false) (statements_on n t)) /\
  length (filter (String.prefix "CREATE DATABASE ") (statements t)) <= 1 /\
  length (filter (String.prefix "CREATE USER ") (statements_on MainConn t)) <= 1 /\
  length (filter (String.prefix "CREATE USER ") (statements_on AdminConn t)) <= 1 /\
  length (filter (String.prefix "CREATE USER ") (statements t)) <= 2 /\
  Forall (fun s => is_drop s = false) (statements t).
Proof.
  intros ->.
  destruct (after_pr_stages R env w)
    as (ls & t & r & Et & Hp & Htidy & _ & _ & Hls & Hfail).
  pose proof (resolve_sends R env w) as Hs.
  assert (Hon : forall n,
            (forall p, exists ns, list_sum ns <= 1 /\
               Forall2 (fun cs k => name_eqb n (client_name (fst cs)) = true ->
                                    at_most (String.prefix "CREATE USER ") k (snd cs))
                       (AfterPr.phases env p) ns) ->
            length (filter (String.prefix "CREATE USER ")
                      (statements_on n (events (AfterPr.handler R env w)))) <= 1).
  { intros n Hn. rewrite Et, statements_on_app, (sends_statements_on _ Hs). cbn [app].
    destruct (result (AfterPr.resolve R env w)) as [p | e].
    - rewrite (Hls p eq_refl) in Hp.
      destruct (Hn p) as (ns & Hsum & Hall).
      eapply Nat.le_trans; [ eapply at_most_phases_on; eauto | exact Hsum ].
    - destruct (Hfail e eq_refl) as [-> _]. apply Nat.le_0_l. }
  split; [ | split; [ | split; [ | split; [ | split; [ | split; [ | split; [ | split; [ | split ] ] ] ] ] ] ] ].
  - intros pre c s a post E Hc. rewrite Et in E.
    eapply staged_creation_guarded; eassumption.
  - intros pre c s rows post E Hc Hrow Hv. rewrite Et in E.
    eapply staged_check_prompt; eassumption.
  - rewrite Et. eapply staged_all_present; eassumption.
  - intros p Hres. rewrite (Hls p Hres) in Hp.
    rewrite Et, !statements_on_app, !(sends_statements_on _ Hs). cbn [app].
    split.
    + eapply every_phases_on; [ exact Hp | ].
      apply after_pr_main_statements; simpl; auto.
    + eapply every_phases_on; [ exact Hp | ].
      apply after_pr_admin_statements; simpl; auto.
  - intros n Hmain Hadmin.
    rewrite Et, statements_on_app, (sends_statements_on _ Hs). cbn [app].
    destruct (result (AfterPr.resolve R env w)) as [p | e].
    + rewrite (Hls p eq_refl) in Hp.
      eapply every_phases_on; [ exact Hp | ].
      apply after_pr_other_statements; assumption.
    + destruct (Hfail e eq_refl) as [-> _]. constructor.
  - apply handler_at_most. intros p.
    destruct (after_pr_phases_create_database env p) as (ns & Hsum & Hall).
    exists ns. split; [ rewrite Hsum; apply Nat.le_refl | exact Hall ].
  - apply Hon. intros p. apply after_pr_create_user_on_main.
  - apply Hon. intros p. apply after_pr_create_user_on_admin.
  - apply handler_at_most. intros p. apply after_pr_phases_create_user.
  - rewrite Et. eapply staged_no_drop; eassumption.
Qed.

Lemma created_iff_check_found_nothing_witness :
  let secrets := Stub.secrets (Some (Stub.credentials_json "cdc_user" "cdc_password")) in
  let env := Stub.env (Some "cdc-test") (Some "app_database") (Some "app_schema") in
  let fresh := events (AfterPr.handler (Stub.runtime secrets Stub.empty_row) env tt) in
  let provisioned := events (AfterPr.handler (Stub.runtime secrets Stub.all_exist) env tt) in
  statements_on MainConn fresh
    = [ "SELECT exists(SELECT FROM pg_catalog.pg_database WHERE lower(datname) = lower('app_database'))";
        "CREATE DATABASE app_database";
        "SELECT exists(SELECT FROM pg_roles WHERE rolname='myapp_user')";
        "CREATE USER myapp_user WITH ENCRYPTED PASSWORD 'myapp_password'" ] /\
  statements_on AdminConn fresh
    = [ "SELECT exists(SELECT FROM pg_roles WHERE rolname='cdc_user')";
        "CREATE USER cdc_user WITH ENCRYPTED PASSWORD 'cdc_password'" ] /\
  statements_on MainConn provisioned
    = [ "SELECT exists(SELECT FROM pg_catalog.pg_database WHERE lower(datname) = lower('app_database'))";
        "SELECT exists(SELECT FROM pg_roles WHERE rolname='myapp_user')" ] /\
  statements_on AdminConn provisioned
    = [ "SELECT exists(SELECT FROM pg_roles WHERE rolname='cdc_user')" ] /\
  Forall (fun s => is_creation s = false) (statements provisioned).
Proof.
  intros secrets env fresh provisioned.
  do 4 (split; [ reflexivity | ]).
  apply (proj1 (proj2 (proj2
           (@created_iff_check_found_nothing unit (Stub.runtime secrets Stub.all_exist)
              env tt provisioned eq_refl)))).
  apply all_present_by_test. vm_compute. reflexivity.
Defined.

(** C2, as the specification words it, fails.  No check of this run
    returns [false]: each is answered with the row [{}], as the stubs
    of the test suite answer, and each is followed by its creation.
    And when the CDC secret names the role the service secret names,
    that role is checked on both admin connections and created
    twice. *)
Lemma same_role_created_twice :
  let R := Stub.runtime
             (Stub.secrets (Some (Stub.credentials_json "myapp_user" "myapp_password")))
             Stub.empty_row in
  let env := Stub.env (Some "cdc-test") (Some "app_database") (Some "app_schema") in
  let o := AfterPr.handler R env tt in
  result o =
    Normal {| message := "Database 'app_database' for username(s) 'myapp_user & myapp_user' is ready for use!" |} /\
  filter (fun ev => match ev with
                    | EvQuery _ s _ => is_check s || is_creation s
                    | _ => false
                    end) (events o)
    = [ EvQuery (new_Client MainConn None (JStr "admin_user") (JStr "admin_password") "example")
          "SELECT exists(SELECT FROM pg_catalog.pg_database WHERE lower(datname) = lower('app_database'))"
          (Normal [JObj []]);
        EvQuery (new_Client MainConn None (JStr "admin_user") (JStr "admin_password") "example")
          "CREATE DATABASE app_database" (Normal [JObj []]);
        EvQuery (new_Client MainConn None (JStr "admin_user") (JStr "admin_password") "example")
          "SELECT exists(SELECT FROM pg_roles WHERE rolname='myapp_user')"
          (Normal [JObj []]);
        EvQuery (new_Client MainConn None (JStr "admin_user") (JStr "admin_password") "example")
          "CREATE USER myapp_user WITH ENCRYPTED PASSWORD 'myapp_password'"
          (Normal [JObj []]);
        EvQuery (new_Client AdminConn None (JStr "admin_user") (JStr "admin_password") "example")
          "SELECT exists(SELECT FROM pg_roles WHERE rolname='myapp_user')"
          (Normal [JObj []]);
        EvQuery (new_Client AdminConn None (JStr "admin_user") (JStr "admin_password") "example")
          "CREATE USER myapp_user WITH ENCRYPTED PASSWORD 'myapp_password'"
          (Normal [JObj []]) ].
Proof. split; reflexivity. Qed.

(** ** [src/bootstrap_after_pr.ts]: the secrets *)

Section AfterPrSecrets.

Variable W : Type.
Variable R : Runtime W.

Lemma wanted_secrets_truthy (env : Env) :
  wanted_secrets env =
  MASTER_USER_SECRET env :: APP_USER_SECRET env
  :: (if truthy (js_of (CDC_USER_SECRET env)) then [text_of (CDC_USER_SECRET env)] else []).
Proof.
  unfold wanted_secrets. destruct (CDC_USER_SECRET env) as [ secretId | ]; [ | reflexivity ].
  cbn [js_of truthy text_of toString]. destruct (String.eqb secretId ""); reflexivity.
Qed.

Lemma resolve_fetched (env : Env) (w : W) :
  (exists n, 1 <= n /\
     fetched (events (AfterPr.resolve R env w)) = firstn n (wanted_secrets env)) /\
  (forall p, result (AfterPr.resolve R env w) = Normal p ->
     fetched (events (AfterPr.resolve R env w)) = wanted_secrets env).
Proof.
  rewrite wanted_secrets_truthy. run_resolve.
  all: cbn [fetched app].
  all: split; [ | first [ discriminate | reflexivity ] ].
  all: first [ exists 1; split; [ lia | reflexivity ]
             | exists 2; split; [ lia | reflexivity ]
             | exists 3; split; [ lia | reflexivity ] ].
Qed.

End AfterPrSecrets.

(** X1. [src/bootstrap_after_pr.ts] fetches the master secret, then the
    service secret, then the CDC secret, the last one only when
    [CDC_USER_SECRET] is set and not empty: what a run has fetched is an
    initial part of that list, all of it if the run returns, and every
    fetch comes before every other call. *)
Theorem secrets_fetched_first_in_order
    (W : Type) (R : Runtime W) (env : Env) (w : W) :
  let t := events (AfterPr.handler R env w) in
  (exists n, 1 <= n /\ fetched t = firstn n (wanted_secrets env)) /\
  (forall response, result (AfterPr.handler R env w) = Normal response ->
     fetched t = wanted_secrets env) /\
  (forall pre secretId rs post,
     t = (pre ++ EvSend secretId rs :: post)%list -> Forall is_send pre).
Proof.
  intros t. subst t.
  destruct (after_pr_stages R env w) as (ls & t & r & Hev & Hp & _ & _ & Hthrow & _ & Hfail).
  pose proof (resolve_sends R env w) as Hs.
  destruct (resolve_fetched R env w) as [Hpre Hall].
  assert (Hf : fetched (events (AfterPr.handler R env w))
               = fetched (events (AfterPr.resolve R env w))).
  { rewrite Hev, fetched_app, (fetched_not_send (phases_not_send Hp)). apply app_nil_r. }
  rewrite Hf. split; [ exact Hpre | ]. split.
  - intros response Hres.
    destruct (result (AfterPr.resolve R env w)) as [p | e] eqn:Hr.
    + apply (Hall p eq_refl).
    + destruct (Hfail e eq_refl) as [_ Habs]. rewrite Habs in Hres. discriminate.
  - intros pre secretId rs post E. rewrite Hev in E.
    edestruct staged_sends_first as [Hpre' _]; [ exact Hs | exact Hp | exact E | exact I | ].
    exact Hpre'.
Qed.

(** X2. In [src/bootstrap_after_pr.ts] a [connect] or an [end] that
    throws is the last call of the run, and the handler throws that
    error; a connection that was refused is never ended and no statement
    is submitted on it. *)
Theorem failed_connect_or_end_is_last
    (W : Type) (R : Runtime W) (env : Env) (w : W)
    (pre : list Event) (ev : Event) (c : Client) (e : Exn) (post : list Event) :
  events (AfterPr.handler R env w) = (pre ++ ev :: post)%list ->
  ev = EvConnect c (Throw e) \/ ev = EvEnd c (Throw e) ->
  post = [] /\
  result (AfterPr.handler R env w) = Throw e /\
  (ev = EvConnect c (Throw e) ->
   ends_of (client_name c) (events (AfterPr.handler R env w)) = 0 /\
   statements_on (client_name c) (events (AfterPr.handler R env w)) = []).
Proof.
  intros E Hev.
  destruct (after_pr_stages R env w) as (ls & t & r & Et & Hp & _ & Hnd & Hthrow & _).
  pose proof (resolve_sends R env w) as Hs.
  rewrite Et in E |- *.
  destruct Hev as [-> | ->].
  - edestruct staged_refused as (Hpost & Hr & Hends & Hst);
      [ exact Hs | exact Hp | exact Hnd | exact E | ].
    split; [ exact Hpost | ]. split; [ exact (Hthrow e Hr) | ]. auto.
  - edestruct staged_end_failed as (Hpost & Hr); [ exact Hs | exact Hp | exact E | ].
    split; [ exact Hpost | ]. split; [ exact (Hthrow e Hr) | discriminate ].
Qed.

(** X3. In [src/bootstrap_after_pr.ts] an existence check that is
    answered without a usable first row (no rows at all, or a first row
    that is [null]) makes the destructuring throw: nothing is created,
    the connection is ended, and the handler throws. *)
Theorem check_without_row_is_fatal
    (W : Type) (R : Runtime W) (env : Env) (w : W)
    (pre : list Event) (c : Client) (s : string) (rows : list JsValue) (e : Exn)
    (post : list Event) :
  events (AfterPr.handler R env w) = (pre ++ EvQuery c s (Normal rows) :: post)%list ->
  is_check s = true ->
  first_row_exists rows = Throw e ->
  exists fin,
    post = [EvEnd c fin] /\
    result (AfterPr.handler R env w) =
      Throw match fin with Normal _ => e | Throw e' => e' end.
Proof.
  intros E Hc Hrow.
  destruct (after_pr_stages R env w) as (ls & t & r & Et & Hp & Htidy & _ & Hthrow & _).
  pose proof (resolve_sends R env w) as Hs.
  rewrite Et in E.
  edestruct staged_check_without_row as (fin & Hpost & Hr);
    [ exact Hs | exact Hp | exact Htidy | exact E | exact Hc | exact Hrow | ].
  exists fin. split; [ exact Hpost | ]. exact (Hthrow _ Hr).
Qed.

Lemma failed_connect_or_end_is_last_witness :
  let R := Faulty.refusing ServiceConn (Stub.runtime (Stub.secrets None) Stub.empty_row) in
  let env := Stub.env None (Some "app_database") (Some "app_schema") in
  let o := AfterPr.handler R env tt in
  length (events o) = 13 /\
  result o = Throw (Rejected "ECONNREFUSED") /\
  lifecycle (events o) = [(MainConn, true); (MainConn, false); (ServiceConn, true)] /\
  ends_of ServiceConn (events o) = 0 /\
  statements_on ServiceConn (events o) = [].
Proof.
  intros R env o.
  pose (serviceConn := new_Client ServiceConn (Some "app_database") (JStr "admin_user")
                         (JStr "admin_password") "example").
  destruct (@failed_connect_or_end_is_last unit R env tt (firstn 12 (events o))
              (EvConnect serviceConn (Throw (Rejected "ECONNREFUSED")))
              serviceConn (Rejected "ECONNREFUSED") (skipn 13 (events o))
              eq_refl (or_introl eq_refl)) as (_ & Hres & Hnot).
  destruct (Hnot eq_refl) as [Hends Hnone].
  split; [ reflexivity | ]. split; [ exact Hres | ]. split; [ reflexivity | ].
  split; [ exact Hends | exact Hnone ].
Defined.

Lemma check_without_row_is_fatal_witness :
  let R := Stub.runtime (Stub.secrets None) Faulty.no_rows in
  let env := Stub.env None (Some "app_database") (Some "app_schema") in
  let o := AfterPr.handler R env tt in
  exists fin,
    skipn 5 (events o) = [EvEnd (AfterPr.mainConn env
                                   {| AfterPr.mainUser := JStr "admin_user";
                                      AfterPr.mainPassword := JStr "admin_password";
                                      AfterPr.username := JStr "myapp_user";
                                      AfterPr.password := JStr "myapp_password";
                                      AfterPr.database := "app_database";
                                      AfterPr.schema := JStr "app_schema";
                                      AfterPr.cdcUserSecret := JUndefined |}) fin] /\
    result o =
      Throw match fin with
            | Normal _ => TypeError "Cannot read properties of undefined (reading 'exists')"
            | Throw e' => e'
            end.
Proof.
  intros R env o.
  apply (@check_without_row_is_fatal unit R env tt (firstn 4 (events o)) _
           (select_database_exists "app_database") [] _ (skipn 5 (events o)));
    reflexivity.
Defined.

Section AfterPrPlan.

Variable W : Type.
Variable R : Runtime W.

(** What a plan holds was read from the two required secrets, as the
    store returned them. *)
Lemma resolve_required (env : Env) (w : W) (p : AfterPr.Plan) :
  result (AfterPr.resolve R env w) = Normal p ->
  exists mainSecret serviceSecret w2,
    required_secrets R env w mainSecret serviceSecret w2 /\
    get mainSecret "username" = Normal (AfterPr.mainUser p) /\
    get mainSecret "password" = Normal (AfterPr.mainPassword p) /\
    get serviceSecret "username" = Normal (AfterPr.username p) /\
    get serviceSecret "password" = Normal (AfterPr.password p) /\
    database_name env serviceSecret = Normal (AfterPr.database p) /\
    schema_name env serviceSecret = Normal (AfterPr.schema p).
Proof.
  run_resolve.
  all: try (intros; discriminate).
  all: intros [= <-]; do 3 eexists;
    cbn [AfterPr.mainUser AfterPr.mainPassword AfterPr.username AfterPr.password
           AfterPr.database AfterPr.schema];
    (split; [ econstructor; eassumption | ]); repeat split; eassumption.
Qed.

End AfterPrPlan.

Lemma in_phases_empty (W : Type) (R : Runtime W) (ls : list (Client * Script))
    (r : Completion unit) :
  in_phases R ls [] r -> ls = [] /\ r = Normal tt.
Proof.
  intros H. remember [] as t eqn:Et.
  destruct H as [ | c S rest t e Hp | c S rest t t' r Hp Hrest ].
  - auto.
  - subst t. inversion Hp.
  - apply app_eq_nil in Et. destruct Et as [-> _]. inversion Hp.
Qed.

(** X4. Every connection [src/bootstrap_after_pr.ts] makes, for the
    service role and for the CDC role alike, is made with the [username]
    and [password] of the master secret, to [RDS_HOST], port 5432: the
    main and admin connections name no database, the two others the
    target database.  The credentials of the service and CDC secrets are
    never used to connect. *)
Theorem connections_use_master_credentials
    (W : Type) (R : Runtime W) (env : Env) (w : W) (c : Client) :
  (exists rc, In (EvConnect c rc) (events (AfterPr.handler R env w))) \/
  (exists s rq, In (EvQuery c s rq) (events (AfterPr.handler R env w))) \/
  (exists fin, In (EvEnd c fin) (events (AfterPr.handler R env w))) ->
  exists mainSecret serviceSecret w2 database,
    required_secrets R env w mainSecret serviceSecret w2 /\
    get mainSecret "username" = Normal (cfg_user (client_config c)) /\
    get mainSecret "password" = Normal (cfg_password (client_config c)) /\
    cfg_host (client_config c) = RDS_HOST env /\
    cfg_port (client_config c) = 5432%Z /\
    database_name env serviceSecret = Normal database /\
    cfg_database (client_config c) =
      match client_name c with
      | MainConn | AdminConn => None
      | _ => Some database
      end.
Proof.
  intros Hc.
  destruct (after_pr_stages R env w) as (ls & t & r & Et & Hp & _ & _ & _ & Hls & Hfail).
  pose proof (resolve_sends R env w) as Hs.
  rewrite Et in Hc.
  pose proof (@staged_clients _ R _ _ _ _ Hs Hp c Hc) as Hin.
  destruct (result (AfterPr.resolve R env w)) as [p | e] eqn:Hr.
  2:{ destruct (Hfail e eq_refl) as [-> _].
      apply in_phases_empty in Hp. destruct Hp as [-> _]. destruct Hin. }
  rewrite (Hls p eq_refl) in Hin.
  destruct (resolve_required R env w Hr)
    as (mainSecret & serviceSecret & w2 & Hreq & Hu & Hpw & _ & _ & Hdb & _).
  exists mainSecret, serviceSecret, w2, (AfterPr.database p).
  split; [ exact Hreq | ].
  unfold AfterPr.phases, AfterPr.service_phases, AfterPr.cdc_phases in Hin.
  destruct (truthy (AfterPr.cdcUserSecret p)); cbn [app map fst In] in Hin;
    repeat (destruct Hin as [<- | Hin]; [ repeat split; assumption | ]);
    destruct Hin.
Qed.

Lemma connections_use_master_credentials_witness :
  let R := Stub.runtime (Stub.secrets (Some (Stub.credentials_json "cdc_user" "cdc_password")))
                        Stub.empty_row in
  let env := Stub.env (Some "cdc-test") None None in
  let c := new_Client CdcDbConn (Some "myapp") (JStr "admin_user") (JStr "admin_password")
             "example" in
  In (EvConnect c (Normal tt)) (events (AfterPr.handler R env tt)) /\
  exists mainSecret serviceSecret w2 database,
    required_secrets R env tt mainSecret serviceSecret w2 /\
    get mainSecret "username" = Normal (JStr "admin_user") /\
    get mainSecret "password" = Normal (JStr "admin_password") /\
    "example" = RDS_HOST env /\
    5432%Z = 5432%Z /\
    database_name env serviceSecret = Normal database /\
    Some "myapp" = Some database.
Proof.
  intros R env c.
  assert (Hin : In (EvConnect c (Normal tt)) (events (AfterPr.handler R env tt))).
  { apply (nth_error_In _ 43). reflexivity. }
  split; [ exact Hin | ].
  apply (@connections_use_master_credentials unit R env tt c).
  left. exists (Normal tt). exact Hin.
Defined.

(** ** Secrets that parse but cannot be used *)

Lemma get_throws (v : JsValue) (k : string) (e : Exn) :
  get v k = Throw e -> exists msg, e = TypeError msg.
Proof. destruct v; simpl; intros [= <-]; eauto. Qed.

Lemma call_replace_throws (v : JsValue) (pat rep : string) (e : Exn) :
  call_replace v pat rep = Throw e -> exists msg, e = TypeError msg.
Proof. destruct v; simpl; intros [= <-]; eauto. Qed.

Lemma database_name_throws (env : Env) (v : JsValue) (e : Exn) :
  database_name env v = Throw e -> exists msg, e = TypeError msg.
Proof.
  unfold database_name. destruct (APP_DATABASE_NAME env); [ discriminate | ].
  destruct (get v "username") eqn:Hg.
  - apply call_replace_throws.
  - intros [= <-]. eapply get_throws; eassumption.
Qed.

Lemma schema_name_throws (env : Env) (v : JsValue) (e : Exn) :
  schema_name env v = Throw e -> exists msg, e = TypeError msg.
Proof.
  unfold schema_name. destruct (APP_SCHEMA_NAME env); [ discriminate | ].
  apply get_throws.
Qed.

Lemma get_get_optional (v : JsValue) (k : string) (x : JsValue) :
  get v k = Normal x -> x = get_optional v k.
Proof. destruct v; simpl; intros [= <-]; reflexivity. Qed.

Section Unusable.

Variable W : Type.
Variable R : Runtime W.

Lemma resolve_unusable (env : Env) (w : W) (mainSecret serviceSecret : JsValue) (w2 : W)
    (cdc : JsValue) :
  required_secrets R env w mainSecret serviceSecret w2 ->
  result (AfterPr.resolve_cdc R env w2) = Normal cdc ->
  serviceSecret = JNull \/
  (APP_DATABASE_NAME env = None /\
   forall u, get_optional serviceSecret "username" <> JStr u) \/
  mainSecret = JNull ->
  exists msg, result (AfterPr.resolve R env w) = Throw (TypeError msg).
Proof.
  intros [raw w1 raw' H1 H2 H3 H4] Hcdc Hbad.
  unfold AfterPr.resolve. unfold bind at 1. unfold send at 1. rewrite H1.
  unfold bind at 1. unfold lift at 1. rewrite H2.
  unfold bind at 1. unfold send at 1. rewrite H3.
  unfold bind at 1. unfold lift at 1. rewrite H4.
  unfold bind at 1. unfold result in Hcdc.
  destruct (AfterPr.resolve_cdc R env w2) as [[rc w3] t3]. cbn [fst] in Hcdc. subst rc.
  unfold bind, lift, ret.
  destruct (get serviceSecret "username") as [u | e] eqn:Hu.
  2:{ destruct (get_throws _ _ Hu) as (msg & ->). exists msg. reflexivity. }
  destruct (get serviceSecret "password") as [pw | e] eqn:Hpw.
  2:{ destruct (get_throws _ _ Hpw) as (msg & ->). exists msg. reflexivity. }
  destruct (database_name env serviceSecret) as [db | e] eqn:Hdb.
  2:{ destruct (database_name_throws _ _ Hdb) as (msg & ->). exists msg. reflexivity. }
  destruct (schema_name env serviceSecret) as [sch | e] eqn:Hsch.
  2:{ destruct (schema_name_throws _ _ Hsch) as (msg & ->). exists msg. reflexivity. }
  destruct (get mainSecret "username") as [mu | e] eqn:Hmu.
  2:{ destruct (get_throws _ _ Hmu) as (msg & ->). exists msg. reflexivity. }
  exfalso. destruct Hbad as [-> | [[Hnone Hnot] | ->]]; try discriminate.
  unfold database_name in Hdb. rewrite Hnone, Hu in Hdb.
  apply get_get_optional in Hu. subst u.
  destruct (get_optional serviceSecret "username"); try discriminate.
  eapply Hnot. reflexivity.
Qed.

End Unusable.

(** X5. [src/bootstrap_after_pr.ts]: when both required secrets are
    fetched and parse, but the service secret is [null], or has no
    string [username] while [APP_DATABASE_NAME] is not set, or the
    master secret is [null], the handler throws a [TypeError] before any
    connection is made. *)
Theorem unusable_secret_is_a_type_error
    (W : Type) (R : Runtime W) (env : Env) (w : W)
    (mainSecret serviceSecret : JsValue) (w2 : W) (cdc : JsValue) :
  required_secrets R env w mainSecret serviceSecret w2 ->
  result (AfterPr.resolve_cdc R env w2) = Normal cdc ->
  serviceSecret = JNull \/
  (APP_DATABASE_NAME env = None /\
   forall u, get_optional serviceSecret "username" <> JStr u) \/
  mainSecret = JNull ->
  exists msg,
    result (AfterPr.handler R env w) = Throw (TypeError msg) /\
    Forall is_send (events (AfterPr.handler R env w)) /\
    lifecycle (events (AfterPr.handler R env w)) = [].
Proof.
  intros Hreq Hcdc Hbad.
  destruct (resolve_unusable Hreq Hcdc Hbad) as (msg & Hres).
  destruct (after_pr_stages R env w) as (ls & t & r & Et & _ & _ & _ & _ & _ & Hfail).
  destruct (Hfail _ Hres) as [-> Hr].
  pose proof (resolve_sends R env w) as Hs.
  rewrite app_nil_r in Et. rewrite Et.
  exists msg. split; [ exact Hr | ]. split; [ exact Hs | ].
  apply lifecycle_quiet, sends_quiet, Hs.
Qed.

Lemma unusable_secret_is_a_type_error_witness :
  let R := Stub.runtime (Faulty.service_payload "{}" None) Stub.empty_row in
  let env := Stub.env None None (Some "app_schema") in
  exists msg,
    result (AfterPr.handler R env tt) = Throw (TypeError msg) /\
    Forall is_send (events (AfterPr.handler R env tt)) /\
    lifecycle (events (AfterPr.handler R env tt)) = [].
Proof.
  intros R env.
  apply (@unusable_secret_is_a_type_error unit R env tt
           (Stub.credentials "admin_user" "admin_password") (JObj []) tt JUndefined).
  - econstructor; reflexivity.
  - reflexivity.
  - right. left. split; [ reflexivity | ]. discriminate.
Defined.

(** ** The default database name *)

Lemma prefix_drop (pat s : string) :
  String.prefix pat s = true -> s = pat ++ drop (String.length pat) s.
Proof.
  revert s. induction pat as [ | c pat IH ]; intros s H.
  - destruct s; reflexivity.
  - destruct s as [ | c' s ]; [ discriminate | ].
    cbn [String.prefix] in H. destruct (ascii_dec c c') as [ <- | ]; [ | discriminate ].
    cbn [String.length drop append]. rewrite <- (IH s H). reflexivity.
Qed.

Lemma prefix_append (pat b : string) : String.prefix pat (pat ++ b) = true.
Proof.
  induction pat as [ | c pat IH ]; [ apply prefix_nil | ].
  cbn [append String.prefix]. destruct (ascii_dec c c); [ exact IH | contradiction ].
Qed.

Lemma replace_absent (pat rep s : string) :
  includes pat s = false -> replace pat rep s = s.
Proof.
  induction s as [ | c s IH ]; cbn [includes replace].
  - destruct (String.prefix pat ""); [ discriminate | reflexivity ].
  - destruct (String.prefix pat (String c s)); [ discriminate | ].
    intros H. rewrite (IH H). reflexivity.
Qed.

(** [replace] with an empty replacement removes the first occurrence of
    the pattern, and nothing else. *)
Lemma replace_first (pat s : string) :
  includes pat s = true ->
  exists a b,
    s = a ++ pat ++ b /\ replace pat "" s = a ++ b /\
    forall a' b', s = a' ++ pat ++ b' -> String.length a <= String.length a'.
Proof.
  induction s as [ | c s IH ]; cbn [includes replace].
  - destruct (String.prefix pat "") eqn:Hp; [ | discriminate ].
    intros _. exists "", (drop (String.length pat) "").
    split; [ apply (prefix_drop _ _ Hp) | ].
    split; [ reflexivity | intros; apply Nat.le_0_l ].
  - destruct (String.prefix pat (String c s)) eqn:Hp.
    + intros _. exists "", (drop (String.length pat) (String c s)).
      split; [ apply (prefix_drop _ _ Hp) | ].
      split; [ reflexivity | intros; apply Nat.le_0_l ].
    + intros H. destruct (IH H) as (a & b & Es & Er & Hmin).
      exists (String c a), b.
      split; [ cbn [append]; rewrite <- Es; reflexivity | ].
      split; [ cbn [append]; rewrite Er; reflexivity | ].
      intros a' b' E. destruct a' as [ | c' a' ].
      * cbn [append] in E. rewrite E, prefix_append in Hp. discriminate.
      * cbn [append] in E. injection E as _ E.
        cbn [String.length]. apply le_n_S. eapply Hmin. exact E.
Qed.

(** C6, as the code has it.  With [APP_DATABASE_NAME] and
    [APP_SCHEMA_NAME] not configured and a service secret whose
    [username] is the string [u], the schema is [u] itself and the
    database is what [replace] makes of [u]: [u] itself when [_user]
    does not occur in it, and otherwise [u] with its first occurrence
    of [_user] removed.  When [u] is [base] followed by [_user] and
    [_user] does not occur in [base], that is [u] with its trailing
    [_user] suffix stripped, namely [base]. *)
Theorem default_names (env : Env) (serviceSecret : JsValue) (u : string) :
  APP_DATABASE_NAME env = None ->
  APP_SCHEMA_NAME env = None ->
  get serviceSecret "username" = Normal (JStr u) ->
  database_name env serviceSecret = Normal (replace "_user" "" u) /\
  schema_name env serviceSecret = Normal (JStr u) /\
  (includes "_user" u = false -> replace "_user" "" u = u) /\
  (includes "_user" u = true ->
   exists a b,
     u = a ++ "_user" ++ b /\ replace "_user" "" u = a ++ b /\
     forall a' b', u = a' ++ "_user" ++ b' -> String.length a <= String.length a') /\
  (forall base, u = base ++ "_user" -> includes "_user" base = false ->
     replace "_user" "" u = base /\ strip_trailing "_user" u = base).
Proof.
  intros Hd Hs Hu. unfold database_name, schema_name.
  rewrite Hd, Hs, Hu. cbn [call_replace].
  split; [ reflexivity | ]. split; [ reflexivity | ].
  split; [ apply replace_absent | ].
  split; [ apply replace_first | ].
  intros base -> Hbase. split.
  - apply replace_trailing_user. assumption.
  - apply strip_trailing_app.
Qed.

Lemma default_names_witness :
  let env := Stub.env None None None in
  let serviceSecret := Stub.credentials "myapp_user" "myapp_password" in
  database_name env serviceSecret = Normal "myapp" /\
  schema_name env serviceSecret = Normal (JStr "myapp_user") /\
  (includes "_user" "myapp_user" = false -> "myapp" = "myapp_user") /\
  (includes "_user" "myapp_user" = true ->
   exists a b,
     "myapp_user" = a ++ "_user" ++ b /\ "myapp" = a ++ b /\
     forall a' b', "myapp_user" = a' ++ "_user" ++ b' ->
                   String.length a <= String.length a') /\
  (forall base, "myapp_user" = base ++ "_user" -> includes "_user" base = false ->
     "myapp" = base /\ strip_trailing "_user" "myapp_user" = base).
Proof.
  intros env serviceSecret.
  apply (@default_names env serviceSecret "myapp_user"); reflexivity.
Defined.

(** C6, as the specification words it, fails: for the username
    [app_users], which has no trailing [_user] suffix to strip, the
    database is [apps]. *)
Lemma default_database_not_trailing_strip :
  database_name (Stub.env None None None) (Stub.credentials "app_users" "pw")
    = Normal "apps" /\
  strip_trailing "_user" "app_users" = "app_users" /\
  database_name (Stub.env None None None) (Stub.credentials "app_users" "pw")
    <> Normal (strip_trailing "_user" "app_users").
Proof. repeat split. discriminate. Qed.

(** X6. The default database name, for every handler: with
    [APP_DATABASE_NAME] not set and a service [username] that is the
    string [u], the database is [u] itself when [_user] does not occur
    in [u], and otherwise [u] without its first occurrence of [_user],
    five characters shorter. *)
Theorem default_database_drops_first_user
    (env : Env) (serviceSecret : JsValue) (u : string) :
  APP_DATABASE_NAME env = None ->
  get serviceSecret "username" = Normal (JStr u) ->
  (includes "_user" u = false -> database_name env serviceSecret = Normal u) /\
  (includes "_user" u = true ->
   exists a b,
     u = a ++ "_user" ++ b /\
     database_name env serviceSecret = Normal (a ++ b) /\
     String.length (a ++ b) + 5 = String.length u /\
     forall a' b', u = a' ++ "_user" ++ b' -> String.length a <= String.length a').
Proof.
  intros Hd Hu. unfold database_name. rewrite Hd, Hu. cbn [call_replace].
  split.
  - intros H. rewrite (replace_absent _ _ _ H). reflexivity.
  - intros H. destruct (replace_first _ _ H) as (a & b & Es & Er & Hmin).
    exists a, b. split; [ exact Es | ]. split; [ rewrite Er; reflexivity | ].
    split; [ | exact Hmin ].
    rewrite Es, !string_length_app. cbn [String.length]. lia.
Qed.

Lemma default_database_drops_first_user_witness :
  let env := Stub.env None None None in
  (includes "_user" "my_user_svc_user" = false ->
   database_name env (Stub.credentials "my_user_svc_user" "pw") = Normal "my_user_svc_user") /\
  (includes "_user" "my_user_svc_user" = true ->
   exists a b,
     "my_user_svc_user" = a ++ "_user" ++ b /\
     database_name env (Stub.credentials "my_user_svc_user" "pw") = Normal (a ++ b) /\
     String.length (a ++ b) + 5 = String.length "my_user_svc_user" /\
     forall a' b', "my_user_svc_user" = a' ++ "_user" ++ b' ->
                   String.length a <= String.length a').
Proof.
  intros env.
  apply (@default_database_drops_first_user env
           (Stub.credentials "my_user_svc_user" "pw") "my_user_svc_user");
    reflexivity.
Defined.

(** ** [src/bootstrap.ts] *)

Section OriginalFacts.

Variable W : Type.
Variable R : Runtime W.

Lemma original_fetch_fault (env : Env) (w : W) (e : Exn) :
  fetch_fault R [MASTER_USER_SECRET env; APP_USER_SECRET env;
                 text_of (CDC_USER_SECRET env)] w e ->
  result (Original.resolve R env w) = Throw e.
Proof.
  intros H. unfold Original.resolve, bind, send, lift.
  inversion H as [ ? ? ? ? w1 H1 | ? ? ? raw w1 ? H1 H2 | ? ? ? raw w1 v ? H1 H2 H' ]; subst;
    rewrite H1; [ reflexivity | rewrite H2; reflexivity | rewrite H2 ].
  inversion H' as [ ? ? ? ? w2 H3 | ? ? ? raw2 w2 ? H3 H4 | ? ? ? raw2 w2 v2 ? H3 H4 H'' ]; subst;
    rewrite H3; [ reflexivity | rewrite H4; reflexivity | rewrite H4 ].
  inversion H'' as [ ? ? ? ? w3 H5 | ? ? ? raw3 w3 ? H5 H6 | ? ? ? raw3 w3 v3 ? H5 H6 H''' ]; subst;
    rewrite H5; [ reflexivity | rewrite H6; reflexivity | inversion H''' ].
Qed.

End OriginalFacts.

(** X7. In [src/bootstrap.ts] all three secrets are required: if the
    store rejects the fetch of the master, the service or the CDC
    secret, or the payload of one of them does not parse, the handler
    throws that error having only talked to the secret store. *)
Theorem original_secret_fault_aborts_before_connect
    (W : Type) (R : Runtime W) (env : Env) (w : W) (cdcSecretId : string) (e : Exn) :
  CDC_USER_SECRET env = Some cdcSecretId ->
  fetch_fault R [MASTER_USER_SECRET env; APP_USER_SECRET env; cdcSecretId] w e ->
  result (Original.handler R env w) = Throw e /\
  Forall is_send (events (Original.handler R env w)) /\
  lifecycle (events (Original.handler R env w)) = [].
Proof.
  intros Hcdc Hf.
  assert (Hres : result (Original.resolve R env w) = Throw e).
  { apply original_fetch_fault. rewrite Hcdc. exact Hf. }
  destruct (original_stages R env w) as (ls & t & r & Et & _ & _ & _ & Hfail & _).
  destruct (Hfail _ Hres) as [-> Hr].
  pose proof (original_resolve_sends R env w) as Hs.
  rewrite app_nil_r in Et. rewrite Et.
  split; [ exact Hr | ]. split; [ exact Hs | ].
  apply lifecycle_quiet, sends_quiet, Hs.
Qed.

Lemma original_secret_fault_aborts_witness :
  let R := Stub.runtime (Stub.secrets (Some "{invalid-json")) Stub.empty_row in
  let env := Stub.env (Some "cdc-test") (Some "app_database") (Some "app_schema") in
  result (Original.handler R env tt) = Throw (SyntaxError "Unexpected token in JSON") /\
  Forall is_send (events (Original.handler R env tt)) /\
  lifecycle (events (Original.handler R env tt)) = [].
Proof.
  intros R env.
  apply (@original_secret_fault_aborts_before_connect unit R env tt "cdc-test").
  - reflexivity.
  - eapply fetch_later; [ reflexivity | reflexivity | ].
    eapply fetch_later; [ reflexivity | reflexivity | ].
    eapply fetch_malformed; reflexivity.
Defined.

Section OriginalCdc.

Variable W : Type.
Variable R : Runtime W.

Lemma original_cdc_unusable (env : Env) (p : Original.Plan) (w : W) :
  Original.cdcUserSecret p = JNull \/
  (APP_DATABASE_NAME env = None /\
   forall u, get_optional (Original.cdcUserSecret p) "username" <> JStr u) ->
  exists msg, result (@Original.resolve_cdc W env p w) = Throw (TypeError msg).
Proof.
  intros Hbad. unfold Original.resolve_cdc, bind, lift, ret.
  destruct (get (Original.cdcUserSecret p) "username") as [u | e] eqn:Hu.
  2:{ destruct (get_throws _ _ Hu) as (msg & ->). exists msg. reflexivity. }
  destruct (get (Original.cdcUserSecret p) "password") as [pw | e] eqn:Hpw.
  2:{ destruct (get_throws _ _ Hpw) as (msg & ->). exists msg. reflexivity. }
  destruct (database_name env (Original.cdcUserSecret p)) as [db | e] eqn:Hdb.
  2:{ destruct (database_name_throws _ _ Hdb) as (msg & ->). exists msg. reflexivity. }
  exfalso. destruct Hbad as [Hnull | [Hnone Hnot]].
  - rewrite Hnull in Hu. discriminate.
  - unfold database_name in Hdb. rewrite Hnone, Hu in Hdb.
    apply get_get_optional in Hu. subst u.
    destruct (get_optional (Original.cdcUserSecret p) "username"); try discriminate.
    eapply Hnot. reflexivity.
Qed.

Lemma original_phases_accountable (env : Env) (p : Original.Plan) (q : Original.CdcPlan) :
  Forall (fun cs => accountable (snd cs))
         (Original.service_phases env p ++ Original.cdc_phases env p q).
Proof.
  unfold Original.service_phases, Original.cdc_phases, Original.admin_script.
  cbn [app].
  repeat (apply Forall_cons; [ cbn [snd] | ]); try apply Forall_nil;
    repeat first [ apply accountable_then
                 | apply accountable_ensure; reflexivity
                 | apply accountable_straight ].
Qed.

Lemma original_service_accountable (env : Env) (p : Original.Plan) :
  Forall (fun cs => accountable (snd cs)) (Original.service_phases env p).
Proof.
  pose proof (original_phases_accountable env p
                {| Original.cdcUser := JUndefined; Original.cdcPassword := JUndefined;
                   Original.cdcDatabase := ""; Original.cdcSchema := JUndefined |}) as H.
  apply Forall_app in H. tauto.
Qed.

(** The run when the CDC names cannot be derived: the service phases,
    and then the error. *)
Lemma original_stops_after_service (env : Env) (w : W) (p : Original.Plan) (e : Exn) :
  result (Original.resolve R env w) = Normal p ->
  result (@Original.resolve_cdc W env p w) = Throw e ->
  exists t r,
    events (Original.handler R env w) = (events (Original.resolve R env w) ++ t)%list /\
    in_phases R (Original.service_phases env p) t r /\
    result (Original.handler R env w)
      = Throw match r with Normal _ => e | Throw e' => e' end.
Proof.
  intros Hres Hcdc.
  rewrite original_staged. unfold Original.staged.
  rewrite bind_run, Hres. cbn [result events world fst snd].
  set (w1 := world (Original.resolve R env w)).
  rewrite bind_run.
  pose proof (run_phases_spec (original_service_obey R env p) w1) as H1.
  exists (events (run_phases R (Original.service_bodies R env p) w1)),
         (result (run_phases R (Original.service_bodies R env p) w1)).
  destruct (result (run_phases R (Original.service_bodies R env p) w1)) as [ [] | e' ];
    cbn [result events fst snd].
  - set (w2 := world (run_phases R (Original.service_bodies R env p) w1)).
    rewrite bind_run.
    destruct (original_resolve_cdc_run env p w2) as (Hev & Hw & Hpure).
    rewrite Hev, <- (Hpure w), Hcdc. cbn [result events fst snd]. rewrite !app_nil_r.
    auto.
  - split; [ reflexivity | ]. split; [ exact H1 | reflexivity ].
Qed.

End OriginalCdc.

(** X8. [src/bootstrap.ts] reads the CDC secret's fields only after the
    service phase: when that secret is [null], or has no string
    [username] while [APP_DATABASE_NAME] is not set, no run returns; in
    a run in which every call went well the database and the service
    role are provisioned in full, and then the handler throws a
    [TypeError], without having opened a connection for the CDC
    pass. *)
Theorem original_reads_cdc_secret_after_service_phase
    (W : Type) (R : Runtime W) (env : Env) (w : W) (p : Original.Plan) :
  result (Original.resolve R env w) = Normal p ->
  Original.cdcUserSecret p = JNull \/
  (APP_DATABASE_NAME env = None /\
   forall u, get_optional (Original.cdcUserSecret p) "username" <> JStr u) ->
  (forall response, result (Original.handler R env w) <> Normal response) /\
  (unfailing (events (Original.handler R env w)) = true ->
   exists msg,
     result (Original.handler R env w) = Throw (TypeError msg) /\
     lifecycle (events (Original.handler R env w))
       = [(MainConn, true); (MainConn, false); (ServiceConn, true); (ServiceConn, false)] /\
     statements_on ServiceConn (events (Original.handler R env w))
       = Original.role_statements (Original.database p) (Original.schema p)
           (Original.username p)).
Proof.
  intros Hres Hbad.
  destruct (original_cdc_unusable env p w Hbad) as (msg & Hcdc).
  destruct (original_stops_after_service R env w Hres Hcdc) as (t & r & Et & Hp & Hr).
  pose proof (original_resolve_sends R env w) as Hs.
  split; [ intros response Habs; rewrite Hr in Habs; discriminate | ].
  intros Hwell. rewrite Et in Hwell.
  pose proof (@staged_unfailing _ R _ _ _ _ Hp (original_service_accountable env p) Hwell)
    as Er.
  subst r.
  exists msg. split; [ exact Hr | ].
  rewrite Et.
  split.
  - rewrite lifecycle_app, (lifecycle_quiet (sends_quiet Hs)), (lifecycle_phases Hp).
    reflexivity.
  - unfold Original.service_phases in Hp.
    apply in_phases_cons_normal in Hp. destruct Hp as (qs1 & t1 & Hs1 & Hp & ->).
    apply in_phases_cons_normal in Hp. destruct Hp as (qs2 & t2 & Hs2 & Hp & ->).
    apply in_phases_nil_inv in Hp. destruct Hp as [-> _].
    apply straight_normal in Hs2.
    rewrite !statements_on_app, !statements_on_closed_phase, !(sends_statements_on _ Hs).
    cbn [name_eqb client_name Original.mainConn Original.serviceConn new_Client app
           statements_on].
    rewrite ?app_nil_r. exact Hs2.
Qed.

Lemma original_reads_cdc_secret_after_service_phase_witness :
  let R := Faulty.parsing_null
             (Stub.runtime (Stub.secrets (Some "null")) Faulty.no_rows_for_ddl) in
  let env := Stub.env (Some "cdc-test") (Some "app_database") (Some "app_schema") in
  let o := Original.handler R env tt in
  exists msg,
    result o = Throw (TypeError msg) /\
    lifecycle (events o)
      = [(MainConn, true); (MainConn, false); (ServiceConn, true); (ServiceConn, false)] /\
    statements_on ServiceConn (events o)
      = [ "CREATE SCHEMA IF NOT EXISTS app_schema";
          "CREATE EXTENSION IF NOT EXISTS pg_trgm SCHEMA app_schema CASCADE";
          "CREATE EXTENSION IF NOT EXISTS intarray SCHEMA app_schema CASCADE";
          "GRANT CONNECT ON DATABASE app_database TO myapp_user";
          "GRANT CREATE ON DATABASE app_database TO myapp_user";
          "CREATE SCHEMA IF NOT EXISTS app_schema";
          "REVOKE CREATE ON SCHEMA public FROM PUBLIC";
          "REVOKE ALL ON DATABASE app_database FROM PUBLIC";
          "GRANT USAGE, CREATE ON SCHEMA app_schema TO myapp_user";
          "ALTER DEFAULT PRIVILEGES IN SCHEMA app_schema GRANT ALL PRIVILEGES ON TABLES TO myapp_user";
          "GRANT ALL PRIVILEGES on DATABASE app_database to myapp_user";
          "ALTER DATABASE app_database OWNER TO myapp_user" ].
Proof.
  intros R env o.
  destruct (@original_reads_cdc_secret_after_service_phase unit R env tt
              {| Original.mainUser := JStr "admin_user";
                 Original.mainPassword := JStr "admin_password";
                 Original.username := JStr "myapp_user";
                 Original.password := JStr "myapp_password";
                 Original.database := "app_database";
                 Original.schema := JStr "app_schema";
                 Original.cdcUserSecret := JNull |}
              eq_refl (or_introl eq_refl)) as [_ Hrun].
  exact (Hrun eq_refl).
Defined.

(** ** [src/bootstrap.ts]: creations and failures *)

Section OriginalConduct.

Variable W : Type.
Variable R : Runtime W.

Lemma original_admin_at_most_database (database : string) (username password : JsValue) :
  at_most (String.prefix "CREATE DATABASE ") (1 + 0)
          (Original.admin_script database username password).
Proof.
  apply at_most_then;
    [ apply at_most_ensure; reflexivity | apply at_most_none, every_ensure; reflexivity ].
Qed.

Lemma original_admin_at_most_user (database : string) (username password : JsValue) :
  at_most (String.prefix "CREATE USER ") (0 + 1)
          (Original.admin_script database username password).
Proof.
  apply at_most_then;
    [ apply at_most_none, every_ensure; reflexivity | apply at_most_ensure; reflexivity ].
Qed.

Lemma original_at_most_creations (env : Env) (p : Original.Plan) (q : Original.CdcPlan) :
  Forall2 (fun cs n => at_most (String.prefix "CREATE DATABASE ") n (snd cs))
          (Original.service_phases env p ++ Original.cdc_phases env p q) [1; 0; 1; 0] /\
  Forall2 (fun cs n => at_most (String.prefix "CREATE USER ") n (snd cs))
          (Original.service_phases env p ++ Original.cdc_phases env p q) [1; 0; 1; 0].
Proof.
  unfold Original.service_phases, Original.cdc_phases. cbn [app].
  split; repeat (apply Forall2_cons; [ cbn [snd] | ]); try apply Forall2_nil;
    first [ apply original_admin_at_most_database
          | apply original_admin_at_most_user
          | apply at_most_none, every_straight; by_template ].
Qed.

(** At most two of the statements of a run start with [prefix], when
    each admin block submits at most one and the others none. *)
Lemma original_at_most_two (f : string -> bool) (env : Env) (w : W) :
  (forall p q,
     Forall2 (fun cs n => at_most f n (snd cs))
             (Original.service_phases env p ++ Original.cdc_phases env p q) [1; 0; 1; 0]) ->
  length (filter f (statements (events (Original.handler R env w)))) <= 2.
Proof.
  intros Hall.
  destruct (original_stages R env w) as (ls & t & r & Et & Hp & _ & _ & Hfail & Hls).
  pose proof (original_resolve_sends R env w) as Hs.
  rewrite Et, statements_app, (sends_statements Hs). cbn [app].
  set (dummy := {| Original.cdcUser := JUndefined; Original.cdcPassword := JUndefined;
                   Original.cdcDatabase := ""; Original.cdcSchema := JUndefined |}).
  assert (Hservice : forall p, ls = Original.service_phases env p ->
                               length (filter f (statements t)) <= 2).
  { intros p ->. specialize (Hall p dummy).
    unfold Original.service_phases, Original.cdc_phases in Hall. cbn [app] in Hall.
    inversion Hall as [ | ? ? ? ? Ha1 Hall' ]; subst.
    inversion Hall' as [ | ? ? ? ? Ha2 _ ]; subst.
    eapply Nat.le_trans;
      [ eapply (@at_most_phases _ R f _ [1; 0]); [ exact Hp | ] | simpl; lia ].
    unfold Original.service_phases.
    repeat (apply Forall2_cons; [ assumption | ]). apply Forall2_nil. }
  destruct (result (Original.resolve R env w)) as [p | e].
  2:{ destruct (Hfail e eq_refl) as [-> _]. apply Nat.le_0_l. }
  specialize (Hls p eq_refl).
  destruct (result (@Original.resolve_cdc W env p w)) as [q | e].
  - destruct Hls as [[Els _] | [Els _]]; [ exact (Hservice p Els) | ].
    eapply Nat.le_trans;
      [ eapply (@at_most_phases _ R f _ [1; 0; 1; 0]); [ exact Hp | ] | simpl; lia ].
    rewrite Els. apply Hall.
  - destruct Hls as [Els _]. exact (Hservice p Els).
Qed.

End OriginalConduct.

(** X9. [src/bootstrap.ts], in every run: a [CREATE DATABASE] or
    [CREATE USER] is submitted only right after the existence check of
    the same entity, on the same connection, was answered with a first
    row whose [exists] is falsy, and every check answered so is followed
    at once by that creation; when every check reports its entity
    present nothing is created; over its two passes the handler submits
    at most two [CREATE DATABASE] and at most two [CREATE USER], and no
    [DROP]. *)
Theorem original_creations_follow_checks
    (W : Type) (R : Runtime W) (env : Env) (w : W) (t : list Event) :
  t = events (Original.handler R env w) ->
  (forall pre c s rq post,
     t = (pre ++ EvQuery c s rq :: post)%list -> is_creation s = true ->
     exists pre' check rows,
       pre = (pre' ++ [EvQuery c check (Normal rows);
                       EvLog ("[" ++ client_database R c ++ "] " ++ s)])%list /\
       creation_for check s /\
       has_row rows = true /\ truthy (exists_column rows) = false) /\
  (forall pre c s rows post,
     t = (pre ++ EvQuery c s (Normal rows) :: post)%list -> is_check s = true ->
     has_row rows = true -> truthy (exists_column rows) = false ->
     exists create rq post',
       post = EvLog ("[" ++ client_database R c ++ "] " ++ create)
              :: EvQuery c create rq :: post' /\
       creation_for s create) /\
  ((forall c s rows, In (EvQuery c s (Normal rows)) t -> is_check s = true ->
      truthy (exists_column rows) = true) ->
   Forall (fun s => is_creation s = false) (statements t)) /\
  length (filter (String.prefix "CREATE DATABASE ") (statements t)) <= 2 /\
  length (filter (String.prefix "CREATE USER ") (statements t)) <= 2 /\
  Forall (fun s => is_drop s = false) (statements t).
Proof.
  intros ->.
  destruct (original_stages R env w) as (ls & t & r & Et & Hp & Htidy & _).
  pose proof (original_resolve_sends R env w) as Hs.
  split; [ | split; [ | split; [ | split; [ | split ] ] ] ].
  - intros pre c s rq post E Hc. rewrite Et in E.
    eapply staged_creation_guarded; eassumption.
  - intros pre c s rows post E Hc Hrow Hv. rewrite Et in E.
    eapply staged_check_prompt; eassumption.
  - rewrite Et. eapply staged_all_present; eassumption.
  - apply original_at_most_two. intros p q. apply original_at_most_creations.
  - apply original_at_most_two. intros p q. apply original_at_most_creations.
  - rewrite Et. eapply staged_no_drop; eassumption.
Qed.

Lemma original_creations_follow_checks_witness :
  let secrets := Stub.secrets (Some (Stub.credentials_json "cdc_user" "cdc_password")) in
  let env := Stub.env (Some "cdc-test") None None in
  let fresh := events (Original.handler (Stub.runtime secrets Stub.empty_row) env tt) in
  let provisioned := events (Original.handler (Stub.runtime secrets Stub.all_exist) env tt) in
  statements_on MainConn fresh
    = [ "SELECT exists(SELECT FROM pg_catalog.pg_database WHERE lower(datname) = lower('myapp'))";
        "CREATE DATABASE myapp";
        "SELECT exists(SELECT FROM pg_roles WHERE rolname='myapp_user')";
        "CREATE USER myapp_user WITH ENCRYPTED PASSWORD 'myapp_password'";
        "SELECT exists(SELECT FROM pg_catalog.pg_database WHERE lower(datname) = lower('cdc'))";
        "CREATE DATABASE cdc";
        "SELECT exists(SELECT FROM pg_roles WHERE rolname='cdc_user')";
        "CREATE USER cdc_user WITH ENCRYPTED PASSWORD 'cdc_password'" ] /\
  statements_on MainConn provisioned
    = [ "SELECT exists(SELECT FROM pg_catalog.pg_database WHERE lower(datname) = lower('myapp'))";
        "SELECT exists(SELECT FROM pg_roles WHERE rolname='myapp_user')";
        "SELECT exists(SELECT FROM pg_catalog.pg_database WHERE lower(datname) = lower('cdc'))";
        "SELECT exists(SELECT FROM pg_roles WHERE rolname='cdc_user')" ] /\
  Forall (fun s => is_creation s = false) (statements provisioned).
Proof.
  intros secrets env fresh provisioned.
  split; [ reflexivity | ]. split; [ reflexivity | ].
  apply (proj1 (proj2 (proj2
           (@original_creations_follow_checks unit (Stub.runtime secrets Stub.all_exist)
              env tt provisioned eq_refl)))).
  apply all_present_by_test. vm_compute. reflexivity.
Defined.

(** X10. [src/bootstrap.ts]: the first call on a connection that throws
    ends the run.  After a statement that throws, the handler only calls
    [end] on that connection and then throws the statement's error, or
    the error of [end] if [end] throws too; a [connect] or an [end] that
    throws is the last call, and the handler throws its error. *)
Theorem original_first_failure_ends_the_run
    (W : Type) (R : Runtime W) (env : Env) (w : W)
    (pre : list Event) (ev : Event) (c : Client) (s : string) (e : Exn)
    (post : list Event) :
  events (Original.handler R env w) = (pre ++ ev :: post)%list ->
  ev = EvConnect c (Throw e) \/ ev = EvQuery c s (Throw e) \/ ev = EvEnd c (Throw e) ->
  (ev = EvQuery c s (Throw e) ->
   exists fin,
     post = [EvEnd c fin] /\
     result (Original.handler R env w) =
       Throw match fin with Normal _ => e | Throw e' => e' end) /\
  (ev <> EvQuery c s (Throw e) ->
   post = [] /\ result (Original.handler R env w) = Throw e).
Proof.
  intros E Hev.
  destruct (original_stages R env w) as (ls & t & r & Et & Hp & Htidy & Hthrow & _).
  pose proof (original_resolve_sends R env w) as Hs.
  rewrite Et in E.
  destruct Hev as [-> | [-> | ->]].
  - split; [ discriminate | ]. intros _.
    edestruct staged_edge as (ls1 & c0 & S & ls2 & t1 & Els & H1 & Hcase);
      [ exact Hs | exact Hp | exact E | simpl; tauto | simpl; tauto | ].
    destruct Hcase as [(_ & rc & Eev & Hrc) | (qs & rb & fin & _ & _ & Eev & _)];
      [ | discriminate ].
    injection Eev as <- <-. destruct (Hrc e eq_refl) as [-> ->].
    split; [ reflexivity | apply Hthrow; reflexivity ].
  - split; [ | intros Hn; contradiction Hn; reflexivity ].
    intros _.
    edestruct staged_failed_statement as (fin & Hpost & Hr);
      [ exact Hs | exact Hp | exact Htidy | exact E | ].
    exists fin. split; [ exact Hpost | exact (Hthrow _ Hr) ].
  - split; [ discriminate | ]. intros _.
    edestruct staged_end_failed as (Hpost & Hr); [ exact Hs | exact Hp | exact E | ].
    split; [ exact Hpost | exact (Hthrow _ Hr) ].
Qed.

Lemma original_first_failure_ends_the_run_witness :
  let R := Stub.runtime
             (Stub.secrets (Some (Stub.credentials_json "cdc_user" "cdc_password")))
             (Stub.failing_on "ALTER USER cdc_user WITH REPLICATION") in
  let env := Stub.env (Some "cdc-test") (Some "app_database") (Some "app_schema") in
  let o := Original.handler R env tt in
  exists fin,
    skipn 76 (events o)
      = [EvEnd (new_Client CdcConn (Some "app_database") (JStr "cdc_user")
                  (JStr "cdc_password") "example") fin] /\
    result o = Throw match fin with Normal _ => Rejected "boom" | Throw e' => e' end.
Proof.
  intros R env o.
  pose (cdcConn := new_Client CdcConn (Some "app_database") (JStr "cdc_user")
                     (JStr "cdc_password") "example").
  destruct (@original_first_failure_ends_the_run unit R env tt (firstn 75 (events o))
              (EvQuery cdcConn "ALTER USER cdc_user WITH REPLICATION" (Throw (Rejected "boom")))
              cdcConn "ALTER USER cdc_user WITH REPLICATION" (Rejected "boom")
              (skipn 76 (events o)) eq_refl (or_intror (or_introl eq_refl))) as [Hq _].
  exact (Hq eq_refl).
Defined.

(** ** [src/bootstrap.ts]: the CDC pass *)

Section OriginalCdcPass.

Variable W : Type.
Variable R : Runtime W.

Lemma original_cdc_plan (env : Env) (p : Original.Plan) (q : Original.CdcPlan) (w : W) :
  result (@Original.resolve_cdc W env p w) = Normal q ->
  get (Original.cdcUserSecret p) "username" = Normal (Original.cdcUser q) /\
  get (Original.cdcUserSecret p) "password" = Normal (Original.cdcPassword q) /\
  database_name env (Original.cdcUserSecret p) = Normal (Original.cdcDatabase q) /\
  schema_name env (Original.cdcUserSecret p) = Normal (Original.cdcSchema q).
Proof.
  unfold Original.resolve_cdc, bind, lift, ret.
  destruct (get (Original.cdcUserSecret p) "username"); [ | discriminate ].
  destruct (get (Original.cdcUserSecret p) "password"); [ | discriminate ].
  destruct (database_name env (Original.cdcUserSecret p)); [ | discriminate ].
  destruct (schema_name env (Original.cdcUserSecret p)); [ | discriminate ].
  cbn [result fst]. intros [= <-]. repeat split.
Qed.

(** Once the secrets resolve and the CDC names can be derived, a run
    in which every call went well returns. *)
Lemma original_returns_unfailing (env : Env) (w : W) (p : Original.Plan)
    (q : Original.CdcPlan) :
  result (Original.resolve R env w) = Normal p ->
  result (@Original.resolve_cdc W env p w) = Normal q ->
  unfailing (events (Original.handler R env w)) = true ->
  result (Original.handler R env w) = Normal (Original.answer p q).
Proof.
  intros Hres Hcdc Hwell.
  destruct (original_stages R env w) as (ls & t & r & Et & Hp & _ & _ & _ & Hls).
  pose proof (original_resolve_sends R env w) as Hs.
  specialize (Hls p Hres). rewrite Hcdc in Hls. rewrite Et in Hwell.
  destruct Hls as [[Els (e & Er)] | [Els Hr]].
  - subst ls.
    pose proof (@staged_unfailing _ R _ _ _ _ Hp (original_service_accountable env p) Hwell)
      as Er'.
    congruence.
  - subst ls.
    pose proof (@staged_unfailing _ R _ _ _ _ Hp (original_phases_accountable env p q) Hwell)
      as Er.
    subst r. exact Hr.
Qed.

End OriginalCdcPass.

(** X11. A run of [src/bootstrap.ts] that returns has made a second pass
    for the CDC role with names of its own: the database and schema are
    derived from the CDC secret as they were from the service secret
    (so, unless [APP_DATABASE_NAME] is set, a database named after the
    CDC user is checked), the last connection is made as the CDC user
    itself, to the service database, and the message names the CDC
    database and both usernames, the CDC one first. *)
Theorem original_cdc_pass
    (W : Type) (R : Runtime W) (env : Env) (w : W) (response : Response) :
  result (Original.handler R env w) = Normal response ->
  exists p q,
    result (Original.resolve R env w) = Normal p /\
    get (Original.cdcUserSecret p) "username" = Normal (Original.cdcUser q) /\
    get (Original.cdcUserSecret p) "password" = Normal (Original.cdcPassword q) /\
    database_name env (Original.cdcUserSecret p) = Normal (Original.cdcDatabase q) /\
    schema_name env (Original.cdcUserSecret p) = Normal (Original.cdcSchema q) /\
    In (select_database_exists (Original.cdcDatabase q))
       (statements_on MainConn (events (Original.handler R env w))) /\
    In (select_role_exists (Original.cdcUser q))
       (statements_on MainConn (events (Original.handler R env w))) /\
    (exists c,
       In (EvConnect c (Normal tt)) (events (Original.handler R env w)) /\
       client_name c = CdcConn /\
       cfg_database (client_config c) = Some (Original.database p) /\
       cfg_user (client_config c) = Original.cdcUser q /\
       cfg_password (client_config c) = Original.cdcPassword q) /\
    message response =
      "Database '" ++ Original.cdcDatabase q ++ "' for usernames '"
        ++ toString (Original.cdcUser q) ++ " & " ++ toString (Original.username p)
        ++ "' &  is ready for use!".
Proof.
  intros Hres.
  destruct (original_run R env w) as (sends & ls & t & r & Hev & Hs & Hp & Hret).
  destruct (Hret response Hres) as (-> & p & q & Hp' & Hq & -> & ->).
  destruct (original_cdc_plan env p w Hq) as (Hu & Hpw & Hdb & Hsch).
  exists p, q. repeat (split; [ assumption | ]).
  rewrite Hev. unfold Original.service_phases, Original.cdc_phases in Hp. cbn [app] in Hp.
  apply in_phases_cons_normal in Hp. destruct Hp as (qs1 & t1 & Hs1 & Hp & ->).
  apply in_phases_cons_normal in Hp. destruct Hp as (qs2 & t2 & Hs2 & Hp & ->).
  apply in_phases_cons_normal in Hp. destruct Hp as (qs3 & t3 & Hs3 & Hp & ->).
  apply in_phases_cons_normal in Hp. destruct Hp as (qs4 & t4 & Hs4 & Hp & ->).
  apply in_phases_nil_inv in Hp. destruct Hp as [-> _].
  unfold Original.admin_script in Hs3.
  inversion Hs3 as [ | qa qb r' Hdb3 Hrole3 ]; subst.
  destruct (ensure_normal Hdb3) as (rows & tl & -> & _).
  destruct (ensure_normal Hrole3) as (rows' & tl' & -> & _).
  rewrite !statements_on_app, !statements_on_closed_phase, !(sends_statements_on _ Hs).
  cbn [name_eqb client_name Original.mainConn Original.serviceConn Original.cdcConn
         new_Client app].
  rewrite ?app_nil_r.
  split; [ apply in_or_app; right; left; reflexivity | ].
  split.
  { apply in_or_app. right. cbn [map fst]. right. rewrite map_app.
    apply in_or_app. right. left. reflexivity. }
  split; [ | reflexivity ].
  exists (Original.cdcConn env p q).
  split; [ | repeat split ].
  repeat first [ left; reflexivity | apply in_or_app; right | right ].
Qed.

Lemma original_cdc_pass_witness :
  let R := Stub.runtime
             (Stub.secrets (Some (Stub.credentials_json "cdc_user" "cdc_password")))
             Stub.empty_row in
  let env := Stub.env (Some "cdc-test") None None in
  let o := Original.handler R env tt in
  exists p q,
    result (Original.resolve R env tt) = Normal p /\
    get (Original.cdcUserSecret p) "username" = Normal (Original.cdcUser q) /\
    get (Original.cdcUserSecret p) "password" = Normal (Original.cdcPassword q) /\
    database_name env (Original.cdcUserSecret p) = Normal (Original.cdcDatabase q) /\
    schema_name env (Original.cdcUserSecret p) = Normal (Original.cdcSchema q) /\
    In (select_database_exists (Original.cdcDatabase q))
       (statements_on MainConn (events o)) /\
    In (select_role_exists (Original.cdcUser q))
       (statements_on MainConn (events o)) /\
    (exists c,
       In (EvConnect c (Normal tt)) (events o) /\
       client_name c = CdcConn /\
       cfg_database (client_config c) = Some (Original.database p) /\
       cfg_user (client_config c) = Original.cdcUser q /\
       cfg_password (client_config c) = Original.cdcPassword q) /\
    "Database 'cdc' for usernames 'cdc_user & myapp_user' &  is ready for use!" =
      "Database '" ++ Original.cdcDatabase q ++ "' for usernames '"
        ++ toString (Original.cdcUser q) ++ " & " ++ toString (Original.username p)
        ++ "' &  is ready for use!".
Proof.
  intros R env o.
  apply (@original_cdc_pass unit R env tt
           {| message := "Database 'cdc' for usernames 'cdc_user & myapp_user' &  is ready for use!" |}).
  reflexivity.
Defined.

(** X12. [src/bootstrap.ts] returns when nothing fails: once the three
    secrets resolve and the CDC names can be derived from the CDC
    secret, a run in which every call went well (no call threw, and
    each existence check was answered with a first row) returns its
    message, having opened and closed the main, the service, the main
    and the CDC connection in turn. *)
Theorem original_returns_when_nothing_fails
    (W : Type) (R : Runtime W) (env : Env) (w : W)
    (p : Original.Plan) (q : Original.CdcPlan) :
  result (Original.resolve R env w) = Normal p ->
  result (@Original.resolve_cdc W env p w) = Normal q ->
  unfailing (events (Original.handler R env w)) = true ->
  result (Original.handler R env w) =
    Normal {| message := Original.usernames_message (Original.cdcDatabase q)
                           (Original.cdcUser q) (Original.username p) |} /\
  lifecycle (events (Original.handler R env w))
    = [ (MainConn, true); (MainConn, false); (ServiceConn, true); (ServiceConn, false);
        (MainConn, true); (MainConn, false); (CdcConn, true); (CdcConn, false) ].
Proof.
  intros Hres Hcdc Hwell.
  pose proof (original_returns_unfailing R env w Hres Hcdc Hwell) as Hret.
  split; [ exact Hret | ].
  destruct (original_run R env w) as (sends & ls & t & r & Hev & Hs & Hp & Hall).
  destruct (Hall _ Hret) as (-> & p' & q' & _ & _ & -> & _).
  rewrite Hev, lifecycle_app, (lifecycle_quiet (sends_quiet Hs)), (lifecycle_phases Hp).
  reflexivity.
Qed.

Lemma original_returns_when_nothing_fails_witness :
  let R := Stub.runtime
             (Stub.secrets (Some (Stub.credentials_json "cdc_user" "cdc_password")))
             Faulty.no_rows_for_ddl in
  let env := Stub.env (Some "cdc-test") (Some "app_database") (Some "app_schema") in
  let o := Original.handler R env tt in
  result o =
    Normal {| message :=
      "Database 'app_database' for usernames 'cdc_user & myapp_user' &  is ready for use!" |} /\
  lifecycle (events o)
    = [ (MainConn, true); (MainConn, false); (ServiceConn, true); (ServiceConn, false);
        (MainConn, true); (MainConn, false); (CdcConn, true); (CdcConn, false) ].
Proof.
  intros R env o.
  apply (@original_returns_when_nothing_fails unit R env tt
           {| Original.mainUser := JStr "admin_user";
              Original.mainPassword := JStr "admin_password";
              Original.username := JStr "myapp_user";
              Original.password := JStr "myapp_password";
              Original.database := "app_database";
              Original.schema := JStr "app_schema";
              Original.cdcUserSecret := Stub.credentials "cdc_user" "cdc_password" |}
           {| Original.cdcUser := JStr "cdc_user";
              Original.cdcPassword := JStr "cdc_password";
              Original.cdcDatabase := "app_database";
              Original.cdcSchema := JStr "app_schema" |});
    reflexivity.
Defined.

(** ** [query], in all three handlers *)

(** X13. [query] in [src/bootstrap_after_pr.ts], [src/bootstrap.ts] and
    [src/PT_bootstrap_v2.ts], in every run, also one that throws: each
    statement submitted was logged right before, as
    [[database] statement] with the database of its connection, and
    each line logged is followed at once by the submission of that
    statement on that connection; nothing else is ever logged. *)
Theorem query_logs_then_submits
    (W : Type) (R : Runtime W) (env : Env) (w : W) (t : list Event) :
  t = events (AfterPr.handler R env w) \/
  t = events (Original.handler R env w) \/
  t = events (PT.handler R env w) ->
  (forall pre c s rq post,
     t = (pre ++ EvQuery c s rq :: post)%list ->
     exists pre', pre = (pre' ++ [EvLog ("[" ++ client_database R c ++ "] " ++ s)])%list) /\
  (forall pre line post,
     t = (pre ++ EvLog line :: post)%list ->
     exists c s rq post',
       line = "[" ++ client_database R c ++ "] " ++ s /\
       post = EvQuery c s rq :: post').
Proof.
  intros Ht.
  assert (Hstaged : exists a ls t' r,
            t = (a ++ t')%list /\ Forall is_send a /\ in_phases R ls t' r).
  { destruct Ht as [-> | [-> | ->]].
    - destruct (after_pr_stages R env w) as (ls & t' & r & Et & Hp & _).
      exists (events (AfterPr.resolve R env w)), ls, t', r.
      split; [ exact Et | ]. split; [ apply resolve_sends | exact Hp ].
    - destruct (original_stages R env w) as (ls & t' & r & Et & Hp & _).
      exists (events (Original.resolve R env w)), ls, t', r.
      split; [ exact Et | ]. split; [ apply original_resolve_sends | exact Hp ].
    - destruct (pt_stages R env w) as (ls & t' & r & Et & Hp & _).
      exists (events (PT.resolve R env w)), ls, t', r.
      split; [ exact Et | ]. split; [ apply pt_resolve_sends | exact Hp ]. }
  destruct Hstaged as (a & ls & t' & r & -> & Ha & Hp).
  split.
  - intros pre c s rq post E. eapply staged_logged_first; eassumption.
  - intros pre line post E. eapply staged_log_announces; eassumption.
Qed.

Lemma query_logs_then_submits_witness :
  let R := Stub.runtime (Stub.secrets None) (Stub.failing_on "CREATE DATABASE myapp") in
  let env := Stub.env None None None in
  let t := events (PT.handler R env tt) in
  (forall pre c s rq post,
     t = (pre ++ EvQuery c s rq :: post)%list ->
     exists pre', pre = (pre' ++ [EvLog ("[" ++ client_database R c ++ "] " ++ s)])%list) /\
  (forall pre line post,
     t = (pre ++ EvLog line :: post)%list ->
     exists c s rq post',
       line = "[" ++ client_database R c ++ "] " ++ s /\
       post = EvQuery c s rq :: post').
Proof.
  intros R env t.
  apply (@query_logs_then_submits unit R env tt t).
  right. right. reflexivity.
Defined.

(** ** [src/PT_bootstrap_v2.ts] *)

Section PTFacts.

Variable W : Type.
Variable R : Runtime W.

Lemma every_halt (P : string -> Prop) (e : Exn) : every P (halt e).
Proof. intros qs r H. destruct H. constructor. Qed.

(** What the first [try] block can do: it submits the database check
    and perhaps the creation, and it throws; when both exchanges went
    well, what it throws is the [ReferenceError]. *)
Lemma pt_script_shape (p : PT.Plan) (qs : list Exchange) (rb : Completion unit) :
  PT.admin_script p qs rb ->
  (exists e, rb = Throw e) /\
  (map fst qs = [select_database_exists (PT.database p)] \/
   map fst qs = [select_database_exists (PT.database p);
                 create_database (PT.database p)]) /\
  (forallb answered qs = true ->
   rb = Throw (ReferenceError "username is not defined")).
Proof.
  unfold PT.admin_script. intros H.
  destruct H as [ qs e He | qs1 qs2 r He Hh ].
  - split; [ eauto | ]. split.
    + inversion He; subst; cbn [map fst]; auto.
    + intros Hq.
      assert (Hacc : accountable (ensure (select_database_exists (PT.database p))
                                          (create_database (PT.database p))))
        by (apply accountable_ensure; reflexivity).
      pose proof (Hacc _ _ He Hq) as Habs. discriminate.
  - destruct Hh. rewrite app_nil_r.
    destruct (ensure_normal He) as (rows & tl & -> & Htl).
    split; [ eauto | ]. split; [ | reflexivity ].
    destruct Htl as [ -> | (rows' & ->) ]; cbn [map fst]; auto.
Qed.

Lemma pt_phases_shape (env : Env) (p : PT.Plan) (t : list Event) (r : Completion unit) :
  in_phases R (PT.phases env p) t r ->
  (exists e, r = Throw e) /\
  (statements t = [] \/
   statements t = [select_database_exists (PT.database p)] \/
   statements t = [select_database_exists (PT.database p);
                   create_database (PT.database p)]) /\
  (unfailing t = true ->
   r = Throw (ReferenceError "username is not defined") /\
   lifecycle t = [(MainConn, true); (MainConn, false)]).
Proof.
  unfold PT.phases. intros H.
  assert (Hone : forall t r, in_phase R (PT.mainConn env p) (PT.admin_script p) t r ->
            (exists e, r = Throw e) /\
            (statements t = [] \/
             statements t = [select_database_exists (PT.database p)] \/
             statements t = [select_database_exists (PT.database p);
                             create_database (PT.database p)]) /\
            (unfailing t = true ->
             r = Throw (ReferenceError "username is not defined") /\
             lifecycle t = [(MainConn, true); (MainConn, false)])).
  { intros t0 r0 Hp. destruct Hp as [ e | qs rb Hs | qs rb e Hs ].
    - split; [ eauto | ]. split; [ left; reflexivity | discriminate ].
    - destruct (pt_script_shape Hs) as (Hthrow & Hst & Hq).
      split; [ exact Hthrow | ].
      cbn [statements]. rewrite statements_app, statements_session. cbn [statements].
      rewrite app_nil_r. split; [ tauto | ].
      intros Ht. unfold unfailing in Ht. cbn [forallb went_well andb] in Ht.
      fold (unfailing (session R (PT.mainConn env p) qs
                       ++ [EvEnd (PT.mainConn env p) (Normal tt)])) in Ht.
      rewrite unfailing_app, unfailing_session in Ht. apply andb_prop in Ht.
      split; [ apply Hq; tauto | ].
      cbn [lifecycle]. rewrite lifecycle_app, (lifecycle_quiet (session_quiet R _ qs)).
      reflexivity.
    - split; [ eauto | ].
      cbn [statements]. rewrite statements_app, statements_session. cbn [statements].
      rewrite app_nil_r. destruct (pt_script_shape Hs) as (_ & Hst & _).
      split; [ tauto | ].
      intros Ht. unfold unfailing in Ht. cbn [forallb went_well andb] in Ht.
      fold (unfailing (session R (PT.mainConn env p) qs
                       ++ [EvEnd (PT.mainConn env p) (Throw e)])) in Ht.
      rewrite unfailing_app in Ht. apply andb_prop in Ht. destruct Ht as [_ Ht].
      discriminate. }
  inversion H as [ | c S rest t0 e Hp | c S rest t0 t' r0 Hp Hrest ]; subst.
  - exact (Hone _ _ Hp).
  - destruct (Hone _ _ Hp) as ((e & Habs) & _). discriminate.
Qed.

Lemma pt_at_most (f : string -> bool) (n : nat) (env : Env) (w : W) :
  (forall p, at_most f n (PT.admin_script p)) ->
  length (filter f (statements (events (PT.handler R env w)))) <= n.
Proof.
  intros H.
  destruct (pt_stages R env w) as (ls & t & r & Et & Hp & _ & _ & _ & Hls & Hfail).
  pose proof (pt_resolve_sends R env w) as Hs.
  rewrite Et, statements_app, (sends_statements Hs). cbn [app].
  destruct (result (PT.resolve R env w)) as [p | e].
  - destruct (Hls p eq_refl) as [-> _].
    eapply Nat.le_trans;
      [ eapply (@at_most_phases _ R f _ [n]); [ exact Hp | ] | simpl; lia ].
    unfold PT.phases. repeat constructor. cbn [snd]. apply H.
  - destruct (Hfail e eq_refl) as [-> _]. apply Nat.le_0_l.
Qed.

End PTFacts.

(** X14. [src/PT_bootstrap_v2.ts] cannot get past line 82: the first
    [try] block interpolates [username], which nothing declares, so
    evaluating it throws a [ReferenceError].  No run returns; the only
    connection a run ever uses is the main one; the only statements it
    can submit are the database check and the creation of the database;
    and when every call went well the handler ends the main connection
    and throws [ReferenceError: username is not defined].  The role
    checks, the service statements and the CDC steps are never
    reached. *)
Theorem pt_stops_at_unbound_username
    (W : Type) (R : Runtime W) (env : Env) (w : W)
    (o : Completion unit * W * list Event) :
  o = PT.handler R env w ->
  (forall u, result o <> Normal u) /\
  (forall c,
     (exists rc, In (EvConnect c rc) (events o)) \/
     (exists s rq, In (EvQuery c s rq) (events o)) \/
     (exists fin, In (EvEnd c fin) (events o)) ->
     client_name c = MainConn) /\
  (statements (events o) = [] \/
   exists p,
     result (PT.resolve R env w) = Normal p /\
     (statements (events o)
        = [ "SELECT exists(SELECT FROM pg_catalog.pg_database WHERE lower(datname) = lower('"
              ++ PT.database p ++ "'))" ] \/
      statements (events o)
        = [ "SELECT exists(SELECT FROM pg_catalog.pg_database WHERE lower(datname) = lower('"
              ++ PT.database p ++ "'))";
            "CREATE DATABASE " ++ PT.database p ])) /\
  (forall p, result (PT.resolve R env w) = Normal p ->
     unfailing (events o) = true ->
     result o = Throw (ReferenceError "username is not defined") /\
     lifecycle (events o) = [(MainConn, true); (MainConn, false)]).
Proof.
  intros ->.
  destruct (pt_stages R env w) as (ls & t & r & Et & Hp & _ & _ & Hthrow & Hls & Hfail).
  pose proof (pt_resolve_sends R env w) as Hs.
  split; [ | split; [ | split ] ].
  - intros u Hu.
    destruct (result (PT.resolve R env w)) as [p | e] eqn:Hres.
    + destruct (Hls p eq_refl) as [-> Er]. rewrite <- Er in Hu. subst r.
      destruct (pt_phases_shape Hp) as ((e & Habs) & _). discriminate.
    + destruct (Hfail e eq_refl) as [_ Habs]. rewrite Habs in Hu. discriminate.
  - intros c Hc. rewrite Et in Hc.
    pose proof (@staged_clients _ R _ _ _ _ Hs Hp c Hc) as Hin.
    destruct (result (PT.resolve R env w)) as [p | e].
    + destruct (Hls p eq_refl) as [-> _]. destruct Hin as [<- | []]. reflexivity.
    + destruct (Hfail e eq_refl) as [-> _]. rewrite app_nil_r in Hc.
      rewrite Forall_forall in Hs.
      destruct Hc as [(rc & Hc) | [(s & rq & Hc) | (fin & Hc)]]; destruct (Hs _ Hc).
  - rewrite Et, statements_app, (sends_statements Hs). cbn [app].
    destruct (result (PT.resolve R env w)) as [p | e].
    + destruct (Hls p eq_refl) as [-> _].
      destruct (pt_phases_shape Hp) as (_ & [Hst | Hst] & _); [ left; exact Hst | ].
      right. exists p. split; [ reflexivity | exact Hst ].
    + destruct (Hfail e eq_refl) as [-> _]. left. reflexivity.
  - intros p Hres. destruct (Hls p Hres) as [-> Er].
    destruct (pt_phases_shape Hp) as (_ & _ & Hwell).
    rewrite Et, lifecycle_app, (lifecycle_quiet (sends_quiet Hs)), unfailing_app.
    cbn [app].
    intros Ht. apply andb_prop in Ht. destruct (Hwell (proj2 Ht)) as [Hr Hl].
    split; [ rewrite <- Er; exact Hr | exact Hl ].
Qed.

Lemma pt_stops_at_unbound_username_witness :
  let R := Stub.runtime
             (Stub.secrets (Some (Stub.credentials_json "cdc_user" "cdc_password")))
             Stub.empty_row in
  let env := Stub.env (Some "cdc-test") None None in
  let o := PT.handler R env tt in
  statements (events o)
    = [ "SELECT exists(SELECT FROM pg_catalog.pg_database WHERE lower(datname) = lower('myapp'))";
        "CREATE DATABASE myapp" ] /\
  result o = Throw (ReferenceError "username is not defined") /\
  lifecycle (events o) = [(MainConn, true); (MainConn, false)].
Proof.
  intros R env o.
  split; [ reflexivity | ].
  destruct (@pt_stops_at_unbound_username unit R env tt o eq_refl) as (_ & _ & _ & Hwell).
  apply (Hwell {| PT.mainUser := JStr "admin_user";
                  PT.mainPassword := JStr "admin_password";
                  PT.database := "myapp";
                  PT.schema := JStr "myapp_user";
                  PT.cdcUserSecret := Stub.credentials "cdc_user" "cdc_password" |});
    reflexivity.
Defined.

(** X16. In every run of [src/PT_bootstrap_v2.ts], after any initial
    part of the trace at most one connection is open, and none is open
    when a connection is opened. *)
Theorem pt_connections_never_overlap
    (W : Type) (R : Runtime W) (env : Env) (w : W) (pre post : list Event) :
  events (PT.handler R env w) = (pre ++ post)%list ->
  length (open_after [] pre) <= 1 /\
  (forall c r post', post = EvConnect c r :: post' -> open_after [] pre = []).
Proof.
  intros E.
  destruct (pt_stages R env w) as (ls & t & r & Et & Hp & _).
  pose proof (pt_resolve_sends R env w) as Hs. apply sends_quiet in Hs.
  assert (Hserial : serial (events (PT.handler R env w))).
  { rewrite Et.
    apply serial_app; [ apply serial_quiet; exact Hs | apply open_after_quiet; exact Hs | ].
    apply (serial_phases Hp). }
  exact (Hserial _ _ E).
Qed.

Lemma pt_connections_never_overlap_witness :
  let R := Stub.runtime (Stub.secrets None) Stub.empty_row in
  let env := Stub.env None (Some "app_database") (Some "app_schema") in
  let t := events (PT.handler R env tt) in
  let mainConn := new_Client MainConn None (JStr "admin_user") (JStr "admin_password")
                    "example" in
  skipn 2 t = EvConnect mainConn (Normal tt) :: skipn 3 t /\
  length (open_after [] (firstn 2 t)) <= 1 /\
  open_after [] (firstn 2 t) = [] /\
  length (open_after [] (firstn 5 t)) <= 1.
Proof.
  intros R env t mainConn.
  split; [ reflexivity | ].
  destruct (@pt_connections_never_overlap unit R env tt (firstn 2 t) (skipn 2 t) eq_refl)
    as [Hle Hnone].
  split; [ exact Hle | ].
  split; [ exact (Hnone mainConn (Normal tt) (skipn 3 t) eq_refl) | ].
  exact (proj1 (@pt_connections_never_overlap unit R env tt (firstn 5 t) (skipn 5 t)
                  eq_refl)).
Defined.

(** X17. [src/PT_bootstrap_v2.ts]: the first call on a connection that
    throws ends the run.  After a statement that throws, the handler
    only calls [end] on that connection and then throws the statement's
    error, or the error of [end] if [end] throws too; a [connect] or an
    [end] that throws is the last call, and the handler throws its
    error. *)
Theorem pt_first_failure_ends_the_run
    (W : Type) (R : Runtime W) (env : Env) (w : W)
    (pre : list Event) (ev : Event) (c : Client) (s : string) (e : Exn)
    (post : list Event) :
  events (PT.handler R env w) = (pre ++ ev :: post)%list ->
  ev = EvConnect c (Throw e) \/ ev = EvQuery c s (Throw e) \/ ev = EvEnd c (Throw e) ->
  (ev = EvQuery c s (Throw e) ->
   exists fin,
     post = [EvEnd c fin] /\
     result (PT.handler R env w) =
       Throw match fin with Normal _ => e | Throw e' => e' end) /\
  (ev <> EvQuery c s (Throw e) ->
   post = [] /\ result (PT.handler R env w) = Throw e).
Proof.
  intros E Hev.
  destruct (pt_stages R env w) as (ls & t & r & Et & Hp & Htidy & _ & Hthrow & _).
  pose proof (pt_resolve_sends R env w) as Hs.
  rewrite Et in E.
  destruct Hev as [-> | [-> | ->]].
  - split; [ discriminate | ]. intros _.
    edestruct staged_edge as (ls1 & c0 & S & ls2 & t1 & Els & H1 & Hcase);
      [ exact Hs | exact Hp | exact E | simpl; tauto | simpl; tauto | ].
    destruct Hcase as [(_ & rc & Eev & Hrc) | (qs & rb & fin & _ & _ & Eev & _)];
      [ | discriminate ].
    injection Eev as <- <-. destruct (Hrc e eq_refl) as [-> ->].
    split; [ reflexivity | apply Hthrow; reflexivity ].
  - split; [ | intros Hn; contradiction Hn; reflexivity ].
    intros _.
    edestruct staged_failed_statement as (fin & Hpost & Hr);
      [ exact Hs | exact Hp | exact Htidy | exact E | ].
    exists fin. split; [ exact Hpost | exact (Hthrow _ Hr) ].
  - split; [ discriminate | ]. intros _.
    edestruct staged_end_failed as (Hpost & Hr); [ exact Hs | exact Hp | exact E | ].
    split; [ exact Hpost | exact (Hthrow _ Hr) ].
Qed.

Lemma pt_first_failure_ends_the_run_witness :
  let R := Stub.runtime (Stub.secrets None) (Stub.failing_on "CREATE DATABASE app_database") in
  let env := Stub.env None (Some "app_database") (Some "app_schema") in
  let o := PT.handler R env tt in
  let mainConn := new_Client MainConn None (JStr "admin_user") (JStr "admin_password")
                    "example" in
  nth_error (events o) 6
    = Some (EvQuery mainConn "CREATE DATABASE app_database" (Throw (Rejected "boom"))) /\
  exists fin,
    skipn 7 (events o) = [EvEnd mainConn fin] /\
    result o = Throw match fin with Normal _ => Rejected "boom" | Throw e' => e' end.
Proof.
  intros R env o mainConn.
  split; [ reflexivity | ].
  destruct (@pt_first_failure_ends_the_run unit R env tt (firstn 6 (events o))
              (EvQuery mainConn "CREATE DATABASE app_database" (Throw (Rejected "boom")))
              mainConn "CREATE DATABASE app_database" (Rejected "boom")
              (skipn 7 (events o)) eq_refl (or_intror (or_introl eq_refl))) as [Hq _].
  exact (Hq eq_refl).
Defined.

(** X18. [src/PT_bootstrap_v2.ts], in every run: [CREATE DATABASE] is
    submitted only right after the database check, on the same
    connection, was answered with a first row whose [exists] is falsy,
    and a check answered so is followed at once by the creation; when
    the check reports the database present nothing is created; there is
    at most one [CREATE DATABASE], never a [CREATE USER] (no role check
    is ever reached), and no [DROP]. *)
Theorem pt_creations_follow_checks
    (W : Type) (R : Runtime W) (env : Env) (w : W) (t : list Event) :
  t = events (PT.handler R env w) ->
  (forall pre c s rq post,
     t = (pre ++ EvQuery c s rq :: post)%list -> is_creation s = true ->
     exists pre' check rows,
       pre = (pre' ++ [EvQuery c check (Normal rows);
                       EvLog ("[" ++ client_database R c ++ "] " ++ s)])%list /\
       creation_for check s /\
       has_row rows = true /\ truthy (exists_column rows) = false) /\
  (forall pre c s rows post,
     t = (pre ++ EvQuery c s (Normal rows) :: post)%list -> is_check s = true ->
     has_row rows = true -> truthy (exists_column rows) = false ->
     exists create rq post',
       post = EvLog ("[" ++ client_database R c ++ "] " ++ create)
              :: EvQuery c create rq :: post' /\
       creation_for s create) /\
  ((forall c s rows, In (EvQuery c s (Normal rows)) t -> is_check s = true ->
      truthy (exists_column rows) = true) ->
   Forall (fun s => is_creation s = false) (statements t)) /\
  length (filter (String.prefix "CREATE DATABASE ") (statements t)) <= 1 /\
  filter (String.prefix "CREATE USER ") (statements t) = [] /\
  Forall (fun s => is_drop s = false) (statements t).
Proof.
  intros ->.
  destruct (pt_stages R env w) as (ls & t & r & Et & Hp & Htidy & _).
  pose proof (pt_resolve_sends R env w) as Hs.
  split; [ | split; [ | split; [ | split; [ | split ] ] ] ].
  - intros pre c s rq post E Hc. rewrite Et in E.
    eapply staged_creation_guarded; eassumption.
  - intros pre c s rows post E Hc Hrow Hv. rewrite Et in E.
    eapply staged_check_prompt; eassumption.
  - rewrite Et. eapply staged_all_present; eassumption.
  - apply pt_at_most. intros p. unfold PT.admin_script.
    apply (@at_most_then _ 1 0);
      [ apply at_most_ensure; reflexivity | apply at_most_none, every_halt ].
  - assert (Hle : length (filter (String.prefix "CREATE USER ")
                            (statements (events (PT.handler R env w)))) <= 0).
    { apply pt_at_most. intros p. unfold PT.admin_script.
      apply (@at_most_then _ 0 0);
        [ apply at_most_none, every_ensure; reflexivity
        | apply at_most_none, every_halt ]. }
    destruct (filter _ _); [ reflexivity | cbn [length] in Hle; lia ].
  - rewrite Et. eapply staged_no_drop; eassumption.
Qed.

Lemma pt_creations_follow_checks_witness :
  let env := Stub.env None None None in
  let fresh := events (PT.handler (Stub.runtime (Stub.secrets None) Stub.empty_row) env tt) in
  let provisioned :=
    events (PT.handler (Stub.runtime (Stub.secrets None) Stub.all_exist) env tt) in
  statements fresh
    = [ "SELECT exists(SELECT FROM pg_catalog.pg_database WHERE lower(datname) = lower('myapp'))";
        "CREATE DATABASE myapp" ] /\
  statements provisioned
    = [ "SELECT exists(SELECT FROM pg_catalog.pg_database WHERE lower(datname) = lower('myapp'))" ] /\
  Forall (fun s => is_creation s = false) (statements provisioned).
Proof.
  intros env fresh provisioned.
  split; [ reflexivity | ]. split; [ reflexivity | ].
  apply (proj1 (proj2 (proj2
           (@pt_creations_follow_checks unit (Stub.runtime (Stub.secrets None) Stub.all_exist)
              env tt provisioned eq_refl)))).
  apply all_present_by_test. vm_compute. reflexivity.
Defined.

(** ** Witnesses for [src/bootstrap.ts] *)

